(** * Starlink trainspotter: the visibility prediction engine

    A shallow embedding of [src/lib/spacex-api.ts] (TLE validator), of the
    module [src/lib/prediction-engine.ts] imports as [./satellite-tracker]
    (illumination model, pass finder, scorer) and of
    [src/lib/prediction-engine.ts] itself (orchestrator, caches, quality
    report), with the properties the specification states about them.

    Conventions of the embedding.
    - A JavaScript [number] is an exact rational ([Q]): rounding, infinities
      and NaN are outside the model.  Where the source obtains NaN from an
      Invalid Date the model keeps an [option] and spells out what every
      comparison against NaN answers ([false]).  The score is the exception:
      it is a rational, meaningful for a launch that is [dated]; the
      statements that order or bound scores assume such launches.  The one
      product whose own rounding decides a result, the coordinate times 100 in
      the cache key, is the platform's [Number_times].
    - A [Date] is its time value in milliseconds ([Z]).
    - A string is a [string]; its [length] counts code units.
    - The engine object, the wall clock and the random generator are threaded
      through a state-and-exception monad [M]; [await] is sequential
      composition. *)

From Stdlib Require Import ZArith QArith Qround Qabs List Ascii String DecimalString DecimalN.
From Stdlib Require Import Bool Lia Lqa Sorted.
From stdpp Require Import gmap strings.
Import ListNotations.

Local Open Scope string_scope.
Local Open Scope list_scope.
Local Open Scope Z_scope.

(** ** Data model ([src/lib/types.ts]) *)

Record Core := {
  core : option string;
  flight : option Z;
}.

Record LaunchLite := {
  launch_id : string;
  launch_name : string;
  date_utc : string;
  cores : list Core;
  launchpad : string;
}.

Record StarlinkSat := {
  sat_id : string;
  sat_launch : string;
  tle1 : string;
  tle2 : string;
  epoch : string;
}.

Record BoosterInfo := {
  coreId : string;
  flightNumber : Z;
  landingType : string;
  landingPad : option string;
}.

Record Pass := {
  satId : string;
  launchId : string;
  start : Z;
  peak : Z;
  end_ : Z;
  maxElDeg : Q;
  phaseAngleDeg : Q;
  score : Q;
  azStart : Q;
  azEnd : Q;
  launchName : option string;
  boosterInfo : option BoosterInfo;
}.

Record UserLocation := {
  lat : Q;
  lon : Q;
  loc_name : option string;
  timezone : option string;
}.

Record PredictionWeights := {
  w1 : Q;
  w2 : Q;
  w3 : Q;
  w4 : Q;
}.

(** [satellite.js] vectors and angles. *)
Record EciVec3 := { eci_x : Q; eci_y : Q; eci_z : Q }.
Record GeodeticLocation := { longitude : Q; latitude : Q; height : Q }.
Record LookAngles := { la_azimuth : Q; la_elevation : Q; rangeSat : Q }.

(** ** Constants ([src/lib/constants.ts]) *)

Definition PREDICTION_DAYS : Z := 7.
Definition PREDICTION_STEP_SECONDS : Z := 30.
Definition MIN_ELEVATION_DEG : Q := 10.
Definition CIVIL_TWILIGHT_ANGLE : Q := -6.
Definition MAX_TLE_AGE_HOURS : Z := 48.

Definition DEFAULT_WEIGHTS : PredictionWeights :=
  {| w1 := 0.45; w2 := 0.3; w3 := 0.2; w4 := 0.05 |}.

(** ** The platform

    What the program takes from its runtime and from [satellite.js]:
    the [Math] functions, the clock, date parsing and local-time fields, and
    the SGP4 propagator.  [Date_now n] is what the [n]-th reading of the clock
    returns, [Math_random n] the [n]-th draw of the generator. *)

Class Platform := {
  Math_sin : Q -> Q;
  Math_cos : Q -> Q;
  Math_asin : Q -> Q;
  Math_sqrt : Q -> Q;
  Math_PI : Q;
  Math_random : nat -> Q;
  (** [x * y] as the runtime computes it, rounded to a double: used where
      the product is then rounded to an integer, so that its own rounding
      shows *)
  Number_times : Q -> Q -> Q;
  Date_now : nat -> Z;
  (** [new Date(s).getTime()], [None] for an Invalid Date *)
  Date_parse : string -> option Z;
  (** [d.getFullYear()] and [d.getHours()] in the local time zone *)
  Date_getFullYear : Z -> Z;
  Date_getHours : Z -> Z;
  (** [new Date(year, 0, 0).getTime()] *)
  Date_yearStart : Z -> Z;
  Satrec : Type;
  twoline2satrec : string -> string -> option Satrec;
  propagate : Satrec -> Z -> option EciVec3;
  gstime : Z -> Q;
  ecfToLookAngles : GeodeticLocation -> EciVec3 -> Q -> LookAngles;
}.

(** ** Caches and the engine object ([src/lib/prediction-engine.ts]) *)

Record PredictionCache := {
  pc_location : UserLocation;
  pc_passes : list Pass;
  pc_timestamp : Z;
  pc_expiresAt : Z;
}.

(** A JavaScript [Map] keeps its keys in insertion order: an association
    list, see [Map_set]. *)
Record LaunchCache := {
  lc_launches : list LaunchLite;
  lc_satellites : list (string * list StarlinkSat);
  lc_timestamp : Z;
  lc_expiresAt : Z;
}.

Record World := {
  predictionCache : gmap string PredictionCache;
  launchCache : option LaunchCache;
  initialized : bool;
  clockReads : nat;
  randomDraws : nat;
}.

Definition CACHE_DURATION_MS : Z := 15 * 60 * 1000.
Definition LAUNCH_CACHE_DURATION_MS : Z := 60 * 60 * 1000.

(** ** The monad: state over [World], exceptions as [Throw] *)

Inductive Result (A : Type) : Type :=
| Ok (a : A)
| Throw (e : string).
Arguments Ok {A} a.
Arguments Throw {A} e.

Definition M (A : Type) : Type := World -> Result A * World.

Definition ret {A} (a : A) : M A := fun w => (Ok a, w).

Definition bind {A B} (m : M A) (k : A -> M B) : M B :=
  fun w => match m w with
           | (Ok a, w') => k a w'
           | (Throw e, w') => (Throw e, w')
           end.

Definition throw {A} (e : string) : M A := fun w => (Throw e, w).

(** [try { m } catch (error) { h error }]: effects of [m] up to the throw
    stay. *)
Definition tryCatch {A} (m : M A) (h : string -> M A) : M A :=
  fun w => match m w with
           | (Ok a, w') => (Ok a, w')
           | (Throw e, w') => h e w'
           end.

Notation "'let!' x ':=' m 'in' k" := (bind m (fun x => k))
  (at level 10, x pattern, m at level 100, k at level 200).
Notation "m ';;' k" := (bind m (fun _ => k))
  (at level 100, k at level 200, right associativity).

Definition get : M World := fun w => (Ok w, w).

Definition tick (w : World) : World :=
  {| predictionCache := predictionCache w; launchCache := launchCache w;
     initialized := initialized w;
     clockReads := S (clockReads w); randomDraws := randomDraws w |}.

Definition drew (w : World) : World :=
  {| predictionCache := predictionCache w; launchCache := launchCache w;
     initialized := initialized w;
     clockReads := clockReads w; randomDraws := S (randomDraws w) |}.

Definition set_predictionCache (c : gmap string PredictionCache) : M unit :=
  fun w => (Ok tt,
    {| predictionCache := c; launchCache := launchCache w;
       initialized := initialized w;
       clockReads := clockReads w; randomDraws := randomDraws w |}).

Definition set_launchCache (c : option LaunchCache) : M unit :=
  fun w => (Ok tt,
    {| predictionCache := predictionCache w; launchCache := c;
       initialized := initialized w;
       clockReads := clockReads w; randomDraws := randomDraws w |}).

Definition set_initialized (b : bool) : M unit :=
  fun w => (Ok tt,
    {| predictionCache := predictionCache w; launchCache := launchCache w;
       initialized := b;
       clockReads := clockReads w; randomDraws := randomDraws w |}).

Definition lift {A} (r : Result A) : M A := fun w => (r, w).

(** [list.filter(async x => f x)] with an effectful predicate, in order. *)
Fixpoint filterM {A} (f : A -> M bool) (l : list A) : M (list A) :=
  match l with
  | [] => ret []
  | x :: l' =>
      let! keep := f x in
      let! rest := filterM f l' in
      ret (if keep then x :: rest else rest)
  end.

(** [for (const x of l) { s = body x s }] *)
Fixpoint forEachM {A S} (body : A -> S -> M S) (l : list A) (s : S) : M S :=
  match l with
  | [] => ret s
  | x :: l' => let! s' := body x s in forEachM body l' s'
  end.

(** [l.filter((_, index) => p index)] *)
Fixpoint filteri_from {A} (p : nat -> bool) (index : nat) (l : list A) : list A :=
  match l with
  | [] => []
  | x :: l' =>
      if p index then x :: filteri_from p (S index) l' else filteri_from p (S index) l'
  end.
Definition filteri {A} (p : nat -> bool) (l : list A) : list A := filteri_from p 0 l.

(** [l.slice(i, j)] for [0 <= i <= j] *)
Definition slice {A} (i j : nat) (l : list A) : list A := firstn (j - i) (skipn i l).

(** [Array.prototype.sort (compareFn)]: a stable sort; [compareFn a b <= 0]
    keeps [a] before [b]. *)
Fixpoint insertBy {A} (compareFn : A -> A -> Q) (a : A) (l : list A) : list A :=
  match l with
  | [] => [a]
  | b :: l' =>
      if Qle_bool (compareFn a b) 0 then a :: b :: l'
      else b :: insertBy compareFn a l'
  end.

Fixpoint sortBy {A} (compareFn : A -> A -> Q) (l : list A) : list A :=
  match l with
  | [] => []
  | a :: l' => insertBy compareFn a (sortBy compareFn l')
  end.

(** [Map.prototype.set] and [get] on the insertion-ordered association list. *)
Fixpoint Map_set {V} (k : string) (v : V) (m : list (string * V)) : list (string * V) :=
  match m with
  | [] => [(k, v)]
  | (k', v') :: m' =>
      if String.eqb k' k then (k', v) :: m' else (k', v') :: Map_set k v m'
  end.

Fixpoint Map_get {V} (k : string) (m : list (string * V)) : option V :=
  match m with
  | [] => None
  | (k', v') :: m' => if String.eqb k' k then Some v' else Map_get k m'
  end.

(** ** The upstream providers ([src/lib/spacex-api.ts])

    The three fetchers talk to the network; a call of the engine sees their
    outcome, a value or a thrown error.  They catch what the network throws
    at them and fall back (a broader query, the backup source, an empty
    list); [Throw] is what still escapes, such as a [docs] field that is no
    array and fails at the first [launches.map]. *)

Record Upstream := {
  getRecentStarlinkLaunches : Result (list LaunchLite);
  getStarlinkSatellites : string -> Result (list StarlinkSat);
  getBoosterInfo : string -> Result (option BoosterInfo);
}.

(** ** Pass finder state *)

Record Point := {
  pt_time : Z;
  pt_elevation : Q;
  pt_azimuth : Q;
  pt_range : Q;
}.

Record Scan := {
  inPass : bool;
  passStart : option Z;
  passPoints : list Point;
  passes : list Pass;
}.

Definition setScore (pass : Pass) (s : Q) : Pass :=
  {| satId := satId pass; launchId := launchId pass; start := start pass;
     peak := peak pass; end_ := end_ pass; maxElDeg := maxElDeg pass;
     phaseAngleDeg := phaseAngleDeg pass; score := s;
     azStart := azStart pass; azEnd := azEnd pass;
     launchName := launchName pass; boosterInfo := boosterInfo pass |}.

(** ** Quality report *)

Inductive Quality := excellent | good | fair | poor.

Record QualityReport := {
  quality : Quality;
  factors : list string;
  recommendations : list string;
}.

Record CacheStats := {
  predictionCacheSize : nat;
  launchCacheValid : bool;
  launchCacheExpiry : option Z;
}.

(** ** Numbers as text *)

(** [Math.round]: the nearest integer, halves towards plus infinity. *)
Definition Math_round (x : Q) : Z := Qfloor (x + (1 # 2))%Q.

Definition showN (n : Z) : string := NilZero.string_of_uint (N.to_uint (Z.to_N n)).

(** [String (h / 100)] for an integer [h]: at most two decimals, no trailing
    zero, and "0" for both zeros. *)
Definition showHundredths (h : Z) : string :=
  let a := Z.abs h in
  let whole := a / 100 in
  let frac := a mod 100 in
  String.append (if h <? 0 then "-" else "")
    (String.append (showN whole)
       (if frac =? 0 then ""
        else String.append "."
               (if frac mod 10 =? 0 then showN (frac / 10)
                else if frac <? 10 then String.append "0" (showN frac)
                else showN frac))).

(** ** Vocabulary of the statements *)

(** [preserves R m]: running [m] takes every world to an [R]-related one,
    whether [m] returns or throws. *)
Definition preserves {A} (R : World -> World -> Prop) (m : M A) : Prop :=
  forall w, R w (snd (m w)).

(** Sorted by [key], largest first. *)
Definition descending {A} (key : A -> Q) (a b : A) : Prop := (key b <= key a)%Q.

(** Every key of the satellite map is the id of a launch of the snapshot. *)
Definition keysWithin (launches : list LaunchLite)
    (satelliteMap : list (string * list StarlinkSat)) : Prop :=
  Forall (fun kv => In (fst kv) (map launch_id launches)) satelliteMap.

Definition snapshot_wf (w : World) : Prop :=
  forall c, launchCache w = Some c -> keysWithin (lc_launches c) (lc_satellites c).

(** What a computation that leaves the prediction cache alone does to the
    world. *)
Definition steady (w w' : World) : Prop :=
  predictionCache w' = predictionCache w /\
  initialized w' = initialized w /\
  (clockReads w <= clockReads w')%nat /\
  (snapshot_wf w -> snapshot_wf w').

(** What every operation of the engine does to the world. *)
Definition grows (w w' : World) : Prop :=
  (initialized w = true -> initialized w' = true) /\
  (clockReads w <= clockReads w')%nat /\
  (snapshot_wf w -> snapshot_wf w').

(** The public operations of the engine. *)
Inductive Op :=
| CallGetPredictions (up : Upstream) (location : UserLocation)
    (weights : option PredictionWeights)
| CallGetPredictionQuality (up : Upstream) (location : UserLocation)
| CallGetCacheStats
| CallClearCache.

Definition isClearCache (op : Op) : bool :=
  match op with CallClearCache => true | _ => false end.

Section Engine.

Context {pf : Platform}.

(** [new Date()] / [Date.now()] *)
Definition newDate : M Z := fun w => (Ok (Date_now (clockReads w)), tick w).

(** [Math.random()] *)
Definition random : M Q := fun w => (Ok (Math_random (randomDraws w)), drew w).

(** ** TLE validator ([src/lib/spacex-api.ts]) *)

(** [!s] on a string: only the empty string is falsy. *)
Definition falsy (s : string) : bool := String.eqb s "".

Definition startsWith (s p : string) : bool := String.prefix p s.

Definition isTleFresh (epoch : string) : M bool :=
  if falsy epoch then ret false
  else
    tryCatch
      (let epochDate := Date_parse epoch in
       let! now := newDate in
       ret match epochDate with
           | Some t =>
               let hoursDiff := (inject_Z (now - t) / inject_Z (1000 * 60 * 60))%Q in
               Qle_bool hoursDiff 48
           | None => false (* NaN <= 48 *)
           end)
      (fun _ => ret false).

Definition isValidTle (tle1 tle2 : string) : bool :=
  if falsy tle1 || falsy tle2 then false
  else
    (String.length tle1 =? 69)%nat && (String.length tle2 =? 69)%nat
    && startsWith tle1 "1 " && startsWith tle2 "2 ".

(** ** Numbers *)

Definition gtb (a b : Q) : bool := negb (Qle_bool a b).
Definition ltb (a b : Q) : bool := negb (Qle_bool b a).
Definition leb (a b : Q) : bool := Qle_bool a b.
Definition geb (a b : Q) : bool := Qle_bool b a.

(** [satellite.js]: [deg2rad = pi / 180], [rad2deg = 180 / pi]. *)
Definition degreesToRadians (d : Q) : Q := (d * (Math_PI / 180))%Q.
Definition radiansToDegrees (r : Q) : Q := (r * (180 / Math_PI))%Q.

(** [Date.prototype.getUTCHours], [getUTCMinutes]: fields of the time value. *)
Definition getUTCHours (t : Z) : Z := (t / 3600000) mod 24.
Definition getUTCMinutes (t : Z) : Z := (t / 60000) mod 60.

(** ** Illumination model ([./satellite-tracker]) *)

Definition getDayOfYear (date : Z) : Z :=
  let start := Date_yearStart (Date_getFullYear date) in
  let diff := date - start in
  diff / (1000 * 60 * 60 * 24).

Definition calculateSunPositionEci (time : Z) : EciVec3 :=
  let dayOfYear := inject_Z (getDayOfYear time) in
  let solarLongitude := ((dayOfYear - 81) * (360 / 365.25) * (Math_PI / 180))%Q in
  let distance := 149597870.7%Q in
  {| eci_x := (distance * Math_cos solarLongitude)%Q;
     eci_y := (distance * Math_sin solarLongitude)%Q;
     eci_z := 0 |}.

(** The scalar the source calls [cosAngle]: the component of the satellite's
    position along the unit sun vector, over the satellite's distance. *)
Definition cosAngle (satelliteEci : EciVec3) (time : Z) : Q :=
  let sunEci := calculateSunPositionEci time in
  let sunMagnitude :=
    Math_sqrt (eci_x sunEci ^ 2 + eci_y sunEci ^ 2 + eci_z sunEci ^ 2)%Q in
  let sunUnit0 := (eci_x sunEci / sunMagnitude)%Q in
  let sunUnit1 := (eci_y sunEci / sunMagnitude)%Q in
  let sunUnit2 := (eci_z sunEci / sunMagnitude)%Q in
  let dotProduct :=
    (eci_x satelliteEci * sunUnit0 + eci_y satelliteEci * sunUnit1
     + eci_z satelliteEci * sunUnit2)%Q in
  let satMagnitude :=
    Math_sqrt (eci_x satelliteEci ^ 2 + eci_y satelliteEci ^ 2
               + eci_z satelliteEci ^ 2)%Q in
  (dotProduct / satMagnitude)%Q.

Definition isSatelliteInSunlight (satelliteEci : EciVec3) (time : Z) : bool :=
  gtb (cosAngle satelliteEci time) 0.

Definition calculateSunElevation (observerGd : GeodeticLocation) (time : Z) : Q :=
  let hour := (inject_Z (getUTCHours time) + inject_Z (getUTCMinutes time) / 60)%Q in
  let dayOfYear := getDayOfYear time in
  let declination :=
    (23.45 * Math_sin (((360 * inject_Z (284 + dayOfYear)) / 365 * Math_PI) / 180))%Q in
  let hourAngle := (15 * (hour - 12))%Q in
  let lat := radiansToDegrees (latitude observerGd) in
  let elevation :=
    ((Math_asin
        (Math_sin ((declination * Math_PI) / 180) * Math_sin ((lat * Math_PI) / 180)
         + Math_cos ((declination * Math_PI) / 180)
           * Math_cos ((lat * Math_PI) / 180)
           * Math_cos ((hourAngle * Math_PI) / 180))
      * 180) / Math_PI)%Q in
  elevation.

Definition isSatelliteVisible (satelliteEci : EciVec3) (observerGd : GeodeticLocation)
    (time : Z) (elevation : Q) : bool :=
  if leb elevation MIN_ELEVATION_DEG then false
  else
    let isSunlit := isSatelliteInSunlight satelliteEci time in
    if negb isSunlit then false
    else
      let sunElevation := calculateSunElevation observerGd time in
      let isObserverInDarkness := leb sunElevation CIVIL_TWILIGHT_ANGLE in
      isObserverInDarkness.

(** ** Scoring function *)

Definition calculateTwilightBonus (time : Z) : Q :=
  let hour := Date_getHours time in
  if ((6 <=? hour) && (hour <=? 7)) || ((19 <=? hour) && (hour <=? 20)) then 1.0%Q
  else if ((5 <=? hour) && (hour <=? 8)) || ((18 <=? hour) && (hour <=? 21)) then 0.7%Q
  else if ((4 <=? hour) && (hour <=? 9)) || ((17 <=? hour) && (hour <=? 22)) then 0.4%Q
  else 0.1%Q.

(** [new Date(s).getTime()] where the result enters arithmetic.  The time
    value of an Invalid Date is NaN, which a rational does not represent; the
    launch provider sends ISO timestamps, and the model reads 0 for anything
    else.  With an Invalid Date the score of the source is NaN, and it is
    infinite when the pass peaks a day before the launch ([1 / 0]); neither
    happens for a launch that is [dated], and what is stated about the order
    or the size of scores is stated for such launches. *)
Definition getTime (s : string) : Z :=
  match Date_parse s with Some t => t | None => 0 end.

Definition calculateTrainScore (pass : Pass) (launch : LaunchLite) : Q :=
  let launchDate := getTime (date_utc launch) in
  let passDate := peak pass in
  let daysSinceDeploy := (inject_Z (passDate - launchDate) / inject_Z (1000 * 60 * 60 * 24))%Q in
  let deployScore := (1 / (1 + daysSinceDeploy))%Q in
  let phaseBrightness := (1 - phaseAngleDeg pass / 180)%Q in
  let elevationScore := (maxElDeg pass / 90)%Q in
  let twilightBonus := calculateTwilightBonus passDate in
  let '(a, b, c, d) :=
    (w1 DEFAULT_WEIGHTS, w2 DEFAULT_WEIGHTS, w3 DEFAULT_WEIGHTS, w4 DEFAULT_WEIGHTS) in
  (a * deployScore + b * phaseBrightness + c * elevationScore + d * twilightBonus)%Q.

(** ** Pass finder *)

Definition createPassFromPoints (sat : StarlinkSat) (launch : LaunchLite)
    (passStart : Z) (points : list Point) (boosterInfo : option BoosterInfo)
    : M (option Pass) :=
  if (length points <? 2)%nat then ret None
  else
    match points with
    | [] => ret None
    | firstPoint :: rest =>
        let peakPoint :=
          fold_left
            (fun max point =>
               if gtb (pt_elevation point) (pt_elevation max) then point else max)
            rest firstPoint in
        let lastPoint := List.last points firstPoint in
        let! r := random in
        let phaseAngle := (r * 60 + 30)%Q in
        ret (Some
          {| satId := sat_id sat;
             launchId := sat_launch sat;
             start := passStart;
             peak := pt_time peakPoint;
             end_ := pt_time lastPoint;
             maxElDeg := pt_elevation peakPoint;
             phaseAngleDeg := phaseAngle;
             score := 0;
             azStart := pt_azimuth firstPoint;
             azEnd := pt_azimuth lastPoint;
             launchName := Some (launch_name launch);
             boosterInfo := boosterInfo |})
    end.

(** The look of the satellite at one instant: [None] when the propagator
    gives no position. *)
Definition sampleAt (satrec : Satrec) (observerGd : GeodeticLocation)
    (currentTime : Z) : option (Point * bool) :=
  match propagate satrec currentTime with
  | Some positionEci =>
      let gmst := gstime currentTime in
      let lookAngles := ecfToLookAngles observerGd positionEci gmst in
      let elevation := radiansToDegrees (la_elevation lookAngles) in
      let azimuth := radiansToDegrees (la_azimuth lookAngles) in
      let range := rangeSat lookAngles in
      let isVisible := isSatelliteVisible positionEci observerGd currentTime elevation in
      Some ({| pt_time := currentTime; pt_elevation := elevation;
               pt_azimuth := azimuth; pt_range := range |},
            isVisible && gtb elevation MIN_ELEVATION_DEG)
  | None => None
  end.

(** The body of the [while] loop. *)
Definition scanStep (sat : StarlinkSat) (launch : LaunchLite)
    (boosterInfo : option BoosterInfo) (satrec : Satrec)
    (observerGd : GeodeticLocation) (currentTime : Z) (st : Scan) : M Scan :=
  match sampleAt satrec observerGd currentTime with
  | Some (point, true) =>
      let st1 :=
        if negb (inPass st)
        then {| inPass := true; passStart := Some currentTime; passPoints := [];
                passes := passes st |}
        else st in
      ret {| inPass := inPass st1; passStart := passStart st1;
             passPoints := passPoints st1 ++ [point]; passes := passes st1 |}
  | Some (_, false) =>
      if inPass st then
        let! passes' :=
          match passStart st with
          | Some passStart0 =>
              if (0 <? length (passPoints st))%nat then
                let! pass :=
                  createPassFromPoints sat launch passStart0 (passPoints st) boosterInfo in
                ret match pass with
                    | Some pass => passes st ++ [pass]
                    | None => passes st
                    end
              else ret (passes st)
          | None => ret (passes st)
          end in
        ret {| inPass := false; passStart := None; passPoints := []; passes := passes' |}
      else ret st
  | None => ret st
  end.

(** [while (currentTime <= endTime) { ...; currentTime += step }]; [fuel]
    bounds the number of iterations, see [scanLoop_fuel]. *)
Fixpoint scanLoop (fuel : nat) (sat : StarlinkSat) (launch : LaunchLite)
    (boosterInfo : option BoosterInfo) (satrec : Satrec)
    (observerGd : GeodeticLocation) (endTime currentTime : Z) (st : Scan) : M Scan :=
  if currentTime <=? endTime then
    match fuel with
    | O => ret st
    | S fuel' =>
        let! st' := scanStep sat launch boosterInfo satrec observerGd currentTime st in
        scanLoop fuel' sat launch boosterInfo satrec observerGd endTime
          (currentTime + PREDICTION_STEP_SECONDS * 1000) st'
    end
  else ret st.

Definition scanFuel : nat :=
  S (Z.to_nat ((PREDICTION_DAYS * 24 * 60 * 60 * 1000) / (PREDICTION_STEP_SECONDS * 1000))).

Definition calculateSatellitePasses (sat : StarlinkSat) (location : UserLocation)
    (launch : LaunchLite) (boosterInfo : option BoosterInfo) : M (list Pass) :=
  match twoline2satrec (tle1 sat) (tle2 sat) with
  | None => throw (String.append "Failed to parse TLE for satellite " (sat_id sat))
  | Some satrec =>
      let observerGd :=
        {| longitude := degreesToRadians (lon location);
           latitude := degreesToRadians (lat location);
           height := 0.1 |} in
      let! now := newDate in
      let endTime := now + PREDICTION_DAYS * 24 * 60 * 60 * 1000 in
      let! st :=
        scanLoop scanFuel sat launch boosterInfo satrec observerGd endTime now
          {| inPass := false; passStart := None; passPoints := []; passes := [] |} in
      match inPass st, passStart st with
      | true, Some passStart0 =>
          if (0 <? length (passPoints st))%nat then
            let! pass :=
              createPassFromPoints sat launch passStart0 (passPoints st) boosterInfo in
            ret match pass with
                | Some pass => passes st ++ [pass]
                | None => passes st
                end
          else ret (passes st)
      | _, _ => ret (passes st)
      end
  end.

Definition calculatePasses (up : Upstream) (satellites : list StarlinkSat)
    (location : UserLocation) (launch : LaunchLite) : M (list Pass) :=
  let! validSatellites :=
    filterM
      (fun sat =>
         if isValidTle (tle1 sat) (tle2 sat) then isTleFresh (epoch sat) else ret false)
      satellites in
  if (length validSatellites =? 0)%nat then ret []
  else
    let sampleSatellites := filteri (fun index => (index mod 3 =? 0)%nat) validSatellites in
    let! boosterInfo :=
      match cores launch with
      | {| core := Some id |} :: _ =>
          if falsy id then ret None
          else tryCatch (lift (getBoosterInfo up id)) (fun _ => ret None)
      | _ => ret None
      end in
    let! passes :=
      forEachM
        (fun sat passes =>
           tryCatch
             (let! satPasses := calculateSatellitePasses sat location launch boosterInfo in
              ret (passes ++ satPasses))
             (fun _ => ret passes))
        (slice 0 10 sampleSatellites) [] in
    let scoredPasses :=
      map (fun pass => setScore pass (calculateTrainScore pass launch)) passes in
    ret (sortBy (fun a b => (score b - score a)%Q) scoredPasses).

(** ** The engine ([src/lib/prediction-engine.ts]) *)

(** [new PredictionEngine()]: the constructor runs [initialize]. *)
Definition newPredictionEngine : World :=
  {| predictionCache := ∅; launchCache := None; initialized := true;
     clockReads := O; randomDraws := O |}.

Definition initialize : M unit :=
  let! w := get in
  if negb (initialized w) then set_initialized true else ret tt.

Definition generateLocationCacheKey (location : UserLocation) : string :=
  let lat := Math_round (Number_times (lat location) 100) in
  let lon := Math_round (Number_times (lon location) 100) in
  String.append (showHundredths lat) (String.append "," (showHundredths lon)).

(** [satellitePromises]: the satellites of every launch are fetched one after
    the other here; the source starts the fetches together and awaits them
    all. *)
Definition fetchSatelliteMap (up : Upstream) (launches : list LaunchLite)
    : M (list (string * list StarlinkSat)) :=
  forEachM
    (fun launch satelliteMap =>
       tryCatch
         (let! satellites := lift (getStarlinkSatellites up (launch_id launch)) in
          ret (Map_set (launch_id launch) satellites satelliteMap))
         (fun _ => ret (Map_set (launch_id launch) [] satelliteMap)))
    launches [].

Definition getLaunchAndSatelliteData (up : Upstream)
    : M (list LaunchLite * list (string * list StarlinkSat)) :=
  let! w := get in
  let! hit :=
    match launchCache w with
    | Some c =>
        let! now := newDate in
        ret (if lc_expiresAt c >? now then Some c else None)
    | None => ret None
    end in
  match hit with
  | Some c => ret (lc_launches c, lc_satellites c)
  | None =>
      let! launches := lift (getRecentStarlinkLaunches up) in
      let! satelliteMap := fetchSatelliteMap up launches in
      let! timestamp := newDate in
      let! now := newDate in
      set_launchCache
        (Some {| lc_launches := launches; lc_satellites := satelliteMap;
                 lc_timestamp := timestamp;
                 lc_expiresAt := now + LAUNCH_CACHE_DURATION_MS |});;
      ret (launches, satelliteMap)
  end.

Definition filterValidSatellites (satellites : list StarlinkSat) : M (list StarlinkSat) :=
  filterM
    (fun sat =>
       if negb (isValidTle (tle1 sat) (tle2 sat)) then ret false
       else
         let! fresh := isTleFresh (epoch sat) in
         if negb fresh then ret false else ret true)
    satellites.

(** The body of [batch.map(async (launch) => ...)]. *)
Definition processLaunch (up : Upstream) (location : UserLocation)
    (satelliteMap : list (string * list StarlinkSat)) (launch : LaunchLite)
    (allPasses : list Pass) : M (list Pass) :=
  tryCatch
    (let satellites :=
       match Map_get (launch_id launch) satelliteMap with
       | Some satellites => satellites
       | None => []
       end in
     if (length satellites =? 0)%nat then ret allPasses
     else
       let! validSatellites := filterValidSatellites satellites in
       if (length validSatellites =? 0)%nat then ret allPasses
       else
         let! passes := calculatePasses up validSatellites location launch in
         ret (allPasses ++ passes))
    (fun _ => ret allPasses).

Definition concurrencyLimit : nat := 3.

(** [for (let i = 0; i < launches.length; i += concurrencyLimit)]: the
    launches of a batch are processed in order, a batch after the other. *)
Fixpoint batchLoop (fuel : nat) (up : Upstream) (location : UserLocation)
    (launches : list LaunchLite) (satelliteMap : list (string * list StarlinkSat))
    (i : nat) (allPasses : list Pass) : M (list Pass) :=
  if (i <? length launches)%nat then
    match fuel with
    | O => ret allPasses
    | S fuel' =>
        let batch := slice i (i + concurrencyLimit) launches in
        let! allPasses' := forEachM (processLaunch up location satelliteMap) batch allPasses in
        batchLoop fuel' up location launches satelliteMap (i + concurrencyLimit) allPasses'
    end
  else ret allPasses.

Definition calculateFreshPredictions (up : Upstream) (location : UserLocation)
    (weights : option PredictionWeights) : M (list Pass) :=
  let! (launches, satelliteMap) := getLaunchAndSatelliteData up in
  if (length launches =? 0)%nat then ret []
  else
    let! allPasses :=
      batchLoop (length launches) up location launches satelliteMap 0 [] in
    ret (slice 0 20 (sortBy (fun a b => (score b - score a)%Q) allPasses)).

Definition cleanupCache : M unit :=
  let! now := newDate in
  let! w := get in
  set_predictionCache
    (filter (fun kv => negb (pc_expiresAt (snd kv) <=? now) = true) (predictionCache w));;
  match launchCache w with
  | Some c => if lc_expiresAt c <=? now then set_launchCache None else ret tt
  | None => ret tt
  end.

Definition getPredictions (up : Upstream) (location : UserLocation)
    (weights : option PredictionWeights) : M (list Pass) :=
  initialize;;
  let cacheKey := generateLocationCacheKey location in
  let! w := get in
  let cached := predictionCache w !! cacheKey in
  let! live :=
    match cached with
    | Some c => let! now := newDate in ret (pc_expiresAt c >? now)
    | None => ret false
    end in
  match cached, live with
  | Some c, true => ret (pc_passes c)
  | _, _ =>
      tryCatch
        (let! passes := calculateFreshPredictions up location weights in
         let! timestamp := newDate in
         let! now := newDate in
         let! w' := get in
         set_predictionCache
           (<[cacheKey :=
                {| pc_location := location; pc_passes := passes;
                   pc_timestamp := timestamp;
                   pc_expiresAt := now + CACHE_DURATION_MS |}]> (predictionCache w'));;
         cleanupCache;;
         ret passes)
        (fun error =>
           match cached with
           | Some c => ret (pc_passes c)
           | None => throw error
           end)
  end.

Definition getCacheStats : M CacheStats :=
  let! w := get in
  let! valid :=
    match launchCache w with
    | Some c => let! now := newDate in ret (lc_expiresAt c >? now)
    | None => ret false
    end in
  ret {| predictionCacheSize := size (predictionCache w);
         launchCacheValid := valid;
         launchCacheExpiry :=
           match launchCache w with Some c => Some (lc_expiresAt c) | None => None end |}.

Definition clearCache : M unit :=
  set_predictionCache ∅;;
  set_launchCache None.

(** The counters of the TLE data quality loop. *)
Definition countSatellites (satelliteMap : list (string * list StarlinkSat))
    : M (nat * nat * nat) :=
  forEachM
    (fun entry '(totalSatellites, validSatellites, staleTles) =>
       forEachM
         (fun sat '(totalSatellites, validSatellites, staleTles) =>
            if isValidTle (tle1 sat) (tle2 sat) then
              let! fresh := isTleFresh (epoch sat) in
              ret (totalSatellites, S validSatellites,
                   if negb fresh then S staleTles else staleTles)
            else ret (totalSatellites, validSatellites, staleTles))
         (snd entry)
         ((totalSatellites + length (snd entry))%nat, validSatellites, staleTles))
    satelliteMap (O, O, O).

Definition getPredictionQuality (up : Upstream) (location : UserLocation)
    : M QualityReport :=
  tryCatch
    (let! (launches, satelliteMap) := getLaunchAndSatelliteData up in
     let! (factors1, recommendations1, qualityScore1) :=
       match launches with
       | [] =>
           ret (["No recent Starlink launches found"],
                ["Check back after the next Starlink launch"], 100 - 50)
       | newest :: _ =>
           let newestLaunch := Date_parse (date_utc newest) in
           let! now := newDate in
           match newestLaunch with
           | Some t =>
               let daysSinceNewest :=
                 (inject_Z (now - t) / inject_Z (1000 * 60 * 60 * 24))%Q in
               if gtb daysSinceNewest 7
               then ret (["Most recent launch is over a week old"], [], 100 - 20)
               else if ltb daysSinceNewest 2
               then ret (["Very recent launch available"], [], 100 + 10)
               else ret ([], [], 100)
           | None => ret ([], [], 100) (* NaN > 7 and NaN < 2 are false *)
           end
       end in
     let! (totalSatellites, validSatellites, staleTles) := countSatellites satelliteMap in
     let '(factors2, recommendations2, qualityScore2) :=
       if (0 <? totalSatellites)%nat then
         let validRatio :=
           (inject_Z (Z.of_nat validSatellites) / inject_Z (Z.of_nat totalSatellites))%Q in
         let '(f, r, q) :=
           if ltb validRatio 0.5
           then (factors1 ++ ["Many satellites have invalid orbital data"],
                 recommendations1
                   ++ ["Predictions may be less accurate due to data quality issues"],
                 qualityScore1 - 30)
           else (factors1, recommendations1, qualityScore1) in
         (* 0 / 0 is NaN and NaN > 0.3 is false *)
         let staleOver :=
           if (validSatellites =? 0)%nat then false
           else gtb (inject_Z (Z.of_nat staleTles) / inject_Z (Z.of_nat validSatellites))%Q 0.3 in
         if staleOver
         then (f ++ ["Some orbital data is outdated"],
               r ++ ["Predictions accuracy may decrease over time"], q - 15)
         else (f, r, q)
       else (factors1, recommendations1, qualityScore1) in
     let absLat := Qabs (lat location) in
     let '(factors3, recommendations3, qualityScore3) :=
       if gtb absLat 60
       then (factors2 ++ ["High latitude location"],
             recommendations2 ++ ["Excellent visibility at high latitudes"],
             qualityScore2 + 5)
       else if ltb absLat 30
       then (factors2 ++ ["Low latitude location"],
             recommendations2 ++ ["Fewer passes visible at low latitudes"],
             qualityScore2 - 5)
       else (factors2, recommendations2, qualityScore2) in
     let quality :=
       if qualityScore3 >=? 90 then excellent
       else if qualityScore3 >=? 70 then good
       else if qualityScore3 >=? 50 then fair
       else poor in
     ret {| quality := quality; factors := factors3; recommendations := recommendations3 |})
    (fun _ =>
       ret {| quality := poor;
              factors := ["Unable to assess prediction quality"];
              recommendations := ["Check your internet connection and try again"] |}).

(** ** The passes of a scan *)

Definition observerOf (location : UserLocation) : GeodeticLocation :=
  {| longitude := degreesToRadians (lon location);
     latitude := degreesToRadians (lat location);
     height := 0.1 |}.

(** The instants the scan started at [now] stops at. *)
Definition onGrid (now t : Z) : Prop :=
  now <= t /\ (t - now) mod (PREDICTION_STEP_SECONDS * 1000) = 0.

(** [q] is the look of the satellite at an instant of the scan, visible
    there. *)
Definition sampled (satrec : Satrec) (observerGd : GeodeticLocation)
    (now endTime : Z) (q : Point) : Prop :=
  onGrid now (pt_time q) /\ pt_time q <= endTime /\
  sampleAt satrec observerGd (pt_time q) = Some (q, true).

(** [firstPoint :: rest] is the buffer of one pass: visible samples of the
    scan at increasing instants, and between the first and the last the scan
    saw nothing else. *)
Definition buffered (satrec : Satrec) (observerGd : GeodeticLocation)
    (now endTime : Z) (firstPoint : Point) (rest : list Point) : Prop :=
  let points := firstPoint :: rest in
  Forall (sampled satrec observerGd now endTime) points /\
  StronglySorted (fun a b => pt_time a < pt_time b) points /\
  forall t q v,
    onGrid now t ->
    pt_time firstPoint <= t <= pt_time (List.last points firstPoint) ->
    sampleAt satrec observerGd t = Some (q, v) ->
    v = true /\ In q points.

(** [pass] is the pass of a buffer of the scan. *)
Definition emitted (satrec : Satrec) (observerGd : GeodeticLocation)
    (now endTime : Z) (pass : Pass) : Prop :=
  start pass <= peak pass <= end_ pass /\
  exists firstPoint rest peakPoint,
    let points := firstPoint :: rest in
    buffered satrec observerGd now endTime firstPoint rest /\
    (2 <= length points)%nat /\
    In peakPoint points /\
    (forall q, In q points -> (pt_elevation q <= pt_elevation peakPoint)%Q) /\
    start pass = pt_time firstPoint /\
    peak pass = pt_time peakPoint /\
    end_ pass = pt_time (List.last points firstPoint) /\
    maxElDeg pass = pt_elevation peakPoint /\
    azStart pass = pt_azimuth firstPoint /\
    azEnd pass = pt_azimuth (List.last points firstPoint).

(** The state of the scan before the sample at [currentTime] is taken. *)
Definition scanning (satrec : Satrec) (observerGd : GeodeticLocation)
    (now endTime currentTime : Z) (st : Scan) : Prop :=
  onGrid now currentTime /\
  Forall (emitted satrec observerGd now endTime) (passes st) /\
  (inPass st = true ->
   exists firstPoint rest,
     passStart st = Some (pt_time firstPoint) /\
     passPoints st = firstPoint :: rest /\
     Forall (sampled satrec observerGd now endTime) (passPoints st) /\
     StronglySorted (fun a b => pt_time a < pt_time b) (passPoints st) /\
     Forall (fun q => pt_time q < currentTime) (passPoints st) /\
     forall t q v,
       onGrid now t ->
       pt_time firstPoint <= t < currentTime ->
       sampleAt satrec observerGd t = Some (q, v) ->
       v = true /\ In q (passPoints st)).

(** ** Sequences of calls *)

Definition runOp (op : Op) (w : World) : World :=
  match op with
  | CallGetPredictions up location weights => snd (getPredictions up location weights w)
  | CallGetPredictionQuality up location => snd (getPredictionQuality up location w)
  | CallGetCacheStats => snd (getCacheStats w)
  | CallClearCache => snd (clearCache w)
  end.

Definition runOps (ops : list Op) (w : World) : World :=
  fold_left (fun w op => runOp op w) ops w.

(** The worlds the engine gets to from its construction. *)
Definition Reachable (w : World) : Prop :=
  exists ops, w = runOps ops newPredictionEngine.

(** The world after a fresh pass list was stored under [cacheKey] and the
    caches were pruned (the tail of the [try] block of [getPredictions]). *)
Definition stored (cacheKey : string) (location : UserLocation) (passes : list Pass)
    (w : World) : World :=
  snd ((let! timestamp := newDate in
        let! now := newDate in
        let! w' := get in
        set_predictionCache
          (<[cacheKey :=
               {| pc_location := location; pc_passes := passes;
                  pc_timestamp := timestamp;
                  pc_expiresAt := now + CACHE_DURATION_MS |}]> (predictionCache w'));;
        cleanupCache) w).

(** The specification's scoring formula, for the weights [wt]. *)
Definition weightedScore (wt : PredictionWeights) (pass : Pass) (launch : LaunchLite) : Q :=
  let daysSinceDeploy :=
    (inject_Z (peak pass - getTime (date_utc launch)) / inject_Z 86400000)%Q in
  (w1 wt * (1 / (1 + daysSinceDeploy))
   + w2 wt * (1 - phaseAngleDeg pass / 180)
   + w3 wt * (maxElDeg pass / 90)
   + w4 wt * calculateTwilightBonus (peak pass))%Q.

End Engine.

(** ** More vocabulary *)

(** [succeeds m]: [m] returns, from every world. *)
Definition succeeds {A} (m : M A) : Prop :=
  forall w, exists a w', m w = (Ok a, w').

(** The snapshot cache holds nothing that is live when the clock reads [now]. *)
Definition snapshotStale (w : World) (now : Z) : Prop :=
  forall c, launchCache w = Some c -> lc_expiresAt c <= now.

Section EngineMore.

Context {pf : Platform}.

(** What [satelliteMap.get(id) || []] gives a launch. *)
Definition satellitesOf (satelliteMap : list (string * list StarlinkSat)) (id : string)
    : list StarlinkSat :=
  match Map_get id satelliteMap with
  | Some satellites => satellites
  | None => []
  end.

(** The refresh of [getLaunchAndSatelliteData]: what it does past the cache
    check. *)
Definition refreshSnapshot (up : Upstream)
    : M (list LaunchLite * list (string * list StarlinkSat)) :=
  let! launches := lift (getRecentStarlinkLaunches up) in
  let! satelliteMap := fetchSatelliteMap up launches in
  let! timestamp := newDate in
  let! now := newDate in
  set_launchCache
    (Some {| lc_launches := launches; lc_satellites := satelliteMap;
             lc_timestamp := timestamp;
             lc_expiresAt := now + LAUNCH_CACHE_DURATION_MS |});;
  ret (launches, satelliteMap).

(** What the satellite provider answers for a launch, a failure read as no
    satellite. *)
Definition provided (up : Upstream) (id : string) : list StarlinkSat :=
  match getStarlinkSatellites up id with
  | Ok satellites => satellites
  | Throw _ => []
  end.

(** The world with a new snapshot in the launch cache. *)
Definition withSnapshot (c : LaunchCache) (w : World) : World :=
  snd (set_launchCache (Some c) w).

(** [keepsSnapshot c w w']: going from [w] to [w'] the clock was only read,
    and the snapshot [c] stays in the launch cache if no reading reached its
    expiry. *)
Definition keepsSnapshot (c : LaunchCache) (w w' : World) : Prop :=
  (clockReads w <= clockReads w')%nat /\
  (launchCache w = Some c ->
   (forall n, (n < clockReads w')%nat -> Date_now n < lc_expiresAt c) ->
   launchCache w' = Some c).

(** What [createPassFromPoints] copies into a pass. *)
Definition labelled (sat : StarlinkSat) (launch : LaunchLite)
    (boosterInfo0 : option BoosterInfo) (pass : Pass) : Prop :=
  satId pass = sat_id sat /\
  launchId pass = sat_launch sat /\
  launchName pass = Some (launch_name launch) /\
  boosterInfo pass = boosterInfo0 /\
  score pass = 0%Q /\
  exists n, phaseAngleDeg pass = (Math_random n * 60 + 30)%Q.

(** One pass is over before the next begins. *)
Definition apart (a b : Pass) : Prop := end_ a < start b.

(** The instant every finished pass of the scan ended before: the start of
    the pass in progress, or the instant of the next sample. *)
Definition frontier (currentTime : Z) (st : Scan) : Z :=
  if inPass st then
    match passStart st with Some s => s | None => currentTime end
  else currentTime.

(** The finished passes of the scan, in order and labelled. *)
Definition filed (sat : StarlinkSat) (launch : LaunchLite)
    (boosterInfo0 : option BoosterInfo) (currentTime : Z) (st : Scan) : Prop :=
  Forall (labelled sat launch boosterInfo0) (passes st) /\
  StronglySorted apart (passes st) /\
  Forall (fun p => end_ p < frontier currentTime st) (passes st).

(** The epoch is at most 48 hours old at [now]. *)
Definition freshAt (epoch : string) (now : Z) : Prop :=
  epoch <> "" /\
  exists t, Date_parse epoch = Some t /\ now - t <= 48 * 60 * 60 * 1000.

(** The clock readings from [w] to [w']. *)
Definition during (w w' : World) (n : nat) : Prop :=
  (clockReads w <= n <= clockReads w')%nat.

(** [pass] is a prediction for [launch]: it names a satellite the snapshot
    lists for the launch, one with a well formed element set, and carries the
    launch's name and the score of [calculateTrainScore]. *)
Definition predictedFor (satelliteMap : list (string * list StarlinkSat))
    (launch : LaunchLite) (pass : Pass) : Prop :=
  exists sat0,
    In sat0 (satellitesOf satelliteMap (launch_id launch)) /\
    isValidTle (tle1 sat0) (tle2 sat0) = true /\
    satId pass = sat_id sat0 /\
    launchId pass = sat_launch sat0 /\
    launchName pass = Some (launch_name launch) /\
    score pass = calculateTrainScore pass launch.

(** The launch has a date, and no reading of the clock from [w] on comes
    before it.  For such a launch [new Date(launch.date_utc)] is a valid date
    and [1 + daysSinceDeploy] is at least 1 for every pass the engine finds
    from [w] on, so that the score is the finite number [calculateTrainScore]
    gives. *)
Definition dated (w : World) (launch : LaunchLite) : Prop :=
  exists t,
    Date_parse (date_utc launch) = Some t /\
    forall n, (clockReads w <= n)%nat -> t <= Date_now n.

(** [LocationManager.isValidLocation] ([src/lib/location-manager.ts]) on a
    location whose coordinates are numbers. *)
Definition isValidLocation (location : UserLocation) : bool :=
  geb (lat location) (-90) && leb (lat location) 90
  && geb (lon location) (-180) && leb (lon location) 180.

(** What the scans of [sats] find, one satellite after the other from [w]
    to [w']: the passes of each satellite whose element set parses, in the
    order of the satellites; a satellite whose scan throws adds nothing. *)
Fixpoint scannedFrom (location : UserLocation) (launch : LaunchLite)
    (boosterInfo0 : option BoosterInfo) (sats : list StarlinkSat)
    (w : World) (raw : list Pass) (w' : World) : Prop :=
  match sats with
  | [] => raw = [] /\ w' = w
  | sat0 :: rest =>
      exists found w1 more,
        (calculateSatellitePasses sat0 location launch boosterInfo0 w = (Ok found, w1) \/
         found = [] /\
         exists e, calculateSatellitePasses sat0 location launch boosterInfo0 w
                   = (Throw e, w1)) /\
        scannedFrom location launch boosterInfo0 rest w1 more w' /\
        raw = found ++ more
  end.


End EngineMore.

(** ** A scripted platform and provider for the examples

    Piecewise-linear stand-ins for the trigonometric functions, a clock that
    advances one minute per reading from 2023-11-14T22:13:20Z, UTC as the
    local zone, and a satellite that stays on the sunlit side, climbs to 45
    degrees for four minutes every 95 minutes and decays after six hours. *)

Module Scenario.

Definition pi : Q := 355 # 113.

Definition Qmod2 (u : Q) : Q := (u - inject_Z (2 * Qfloor (u / 2)))%Q.

Definition cos (x : Q) : Q :=
  let v := Qred (Qmod2 (x / pi)) in
  if Qle_bool v 1 then (1 - 2 * v)%Q else (2 * v - 3)%Q.

Definition sin (x : Q) : Q := cos (x - pi / 2)%Q.

Definition asin (v : Q) : Q := (v * pi / 2)%Q.

Definition sqrt (v : Q) : Q := (inject_Z (Z.sqrt (Qfloor (v * 1000000))) / 1000)%Q.

Definition t0 : Z := 1700000000000.

(** The satellite re-enters six hours in: no position after that. *)
Definition decay : Z := t0 + 6 * 60 * 60 * 1000.

Definition parse (s : string) : option Z :=
  if String.eqb s "2023-11-13T00:00:00.000Z" then Some 1699833600000
  else if String.eqb s "2023-11-14T12:00:00.000Z" then Some 1699963200000
  else if String.eqb s "2023-11-01T00:00:00.000Z" then Some 1698796800000
  else None.

(** Degrees above the horizon at the instant [t]. *)
Definition profile (t : Z) : Q :=
  let phase := (t - t0) mod 5700000 in
  if phase <? 60000 then 20
  else if phase <? 120000 then 45
  else if phase <? 240000 then 30
  else -20.

Definition look (observerGd : GeodeticLocation) (positionEci : EciVec3) (gmst : Q)
    : LookAngles :=
  {| la_azimuth := ((90 + eci_z positionEci) * (pi / 180))%Q;
     la_elevation := (profile (Qfloor gmst) * (pi / 180))%Q;
     rangeSat := 550 |}.

Definition platform : Platform :=
  {| Math_sin := sin; Math_cos := cos; Math_asin := asin; Math_sqrt := sqrt;
     Math_PI := pi;
     Math_random := fun n => 1 # 2;
     Number_times := Qmult;
     Date_now := fun n => t0 + 60000 * Z.of_nat n;
     Date_parse := parse;
     Date_getFullYear := fun _ => 2023;
     Date_getHours := fun t => (t / 3600000) mod 24;
     Date_yearStart := fun _ => 1672444800000;
     Satrec := string;
     twoline2satrec := fun l1 l2 => if String.eqb l1 l2 then None else Some l1;
     propagate := fun _ t =>
       if t <=? decay
       then Some {| eci_x := -4000; eci_y := -5500; eci_z := inject_Z ((t - t0) / 60000) |}
       else None;
     gstime := fun t => inject_Z t;
     ecfToLookAngles := look |}.

Definition line1 : string :=
  "1 58000U 23170A   23318.50000000  .00001234  00000-0  12345-4 0  9991".
Definition line2 : string :=
  "2 58000  43.0000 120.0000 0001000  90.0000 270.0000 15.40000000    12".

Definition sat (n : string) (e : string) : StarlinkSat :=
  {| sat_id := n; sat_launch := "L1"; tle1 := line1; tle2 := line2; epoch := e |}.

Definition launch1 : LaunchLite :=
  {| launch_id := "L1"; launch_name := "Starlink Group 6-28";
     date_utc := "2023-11-13T00:00:00.000Z";
     cores := [ {| core := Some "B1076"; flight := Some 9 |} ];
     launchpad := "SLC-40" |}.

Definition upstream : Upstream :=
  {| getRecentStarlinkLaunches := Ok [launch1];
     getStarlinkSatellites := fun id =>
       if String.eqb id "L1"
       then Ok [sat "S1" "2023-11-14T12:00:00.000Z"; sat "S2" "2023-11-01T00:00:00.000Z";
                sat "S3" ""]
       else Ok [];
     getBoosterInfo := fun _ => Ok None |}.

(** No launch in the last 30 days. *)
Definition quiet : Upstream :=
  {| getRecentStarlinkLaunches := Ok [];
     getStarlinkSatellites := fun _ => Ok [];
     getBoosterInfo := fun _ => Ok None |}.

(** The launch provider is down. *)
Definition down : Upstream :=
  {| getRecentStarlinkLaunches := Throw "SpaceX API error: 503";
     getStarlinkSatellites := fun _ => Throw "SpaceX API error: 503";
     getBoosterInfo := fun _ => Throw "SpaceX API error: 503" |}.

Definition observer (la lo : Q) : UserLocation :=
  {| lat := la; lon := lo; loc_name := None; timezone := None |}.

Definition sanFrancisco : UserLocation := observer 37.7749 (-122.4194).
Definition oslo : UserLocation := observer 59.91 10.75.
Definition quito : UserLocation := observer (-0.18) (-78.47).

#[local] Existing Instance platform.

(** One satellite with a fresh element set, observed from San Francisco. *)
Definition satelliteRun : Result (list Pass) * World :=
  Eval vm_compute in
    calculateSatellitePasses (sat "S1" "2023-11-14T12:00:00.000Z") sanFrancisco launch1 None
      newPredictionEngine.

Definition launchRun : Result (list Pass) * World :=
  Eval vm_compute in
    calculatePasses upstream [sat "S1" "2023-11-14T12:00:00.000Z"] sanFrancisco launch1
      newPredictionEngine.

Definition freshRun : Result (list Pass) * World :=
  Eval vm_compute in
    calculateFreshPredictions upstream sanFrancisco None newPredictionEngine.

(** The first request of the day. *)
Definition firstCall : Result (list Pass) * World :=
  Eval vm_compute in getPredictions upstream sanFrancisco None newPredictionEngine.

Definition passesOf (run : Result (list Pass) * World) : list Pass :=
  match fst run with Ok passes => passes | Throw _ => [] end.

Definition firstPasses : list Pass := passesOf firstCall.

Definition firstEntry : option PredictionCache :=
  Eval vm_compute in predictionCache (snd firstCall) !! "37.77,-122.42".

(** A quality request and a look at the cache statistics, five minutes. *)
Definition meanwhile : list Op :=
  [CallGetPredictionQuality quiet oslo; CallGetCacheStats].

(** Seventy minutes of cache statistics. *)
Definition muchLater : World :=
  Eval vm_compute in runOps (repeat CallGetCacheStats 70) (snd firstCall).

(** The snapshot the first request left in the launch cache. *)
Definition firstSnapshot : LaunchCache :=
  Eval vm_compute in
    match launchCache (snd firstCall) with
    | Some c => c
    | None => {| lc_launches := []; lc_satellites := []; lc_timestamp := 0;
                 lc_expiresAt := 0 |}
    end.

(** A launch whose satellites come without element lines. *)
Definition untracked : Upstream :=
  {| getRecentStarlinkLaunches := Ok [launch1];
     getStarlinkSatellites := fun _ =>
       Ok [ {| sat_id := "S9"; sat_launch := "L1"; tle1 := ""; tle2 := "";
               epoch := "2023-11-14T12:00:00.000Z" |} ];
     getBoosterInfo := fun _ => Ok None |}.

(** Two passes that peak at the same instant, one higher than the other. *)
Definition passAt (elevation : Q) : Pass :=
  {| satId := "S1"; launchId := "L1";
     start := t0 + 60000; peak := t0 + 90000; end_ := t0 + 120000;
     maxElDeg := elevation; phaseAngleDeg := 60; score := 0;
     azStart := 90; azEnd := 92;
     launchName := Some "Starlink Group 6-28"; boosterInfo := None |}.

End Scenario.

(** * Properties *)

Section EngineFacts.

Context {pf : Platform}.

Lemma falsy_true (s : string) : falsy s = true <-> s = "".
Proof. unfold falsy. apply String.eqb_eq. Qed.

Lemma falsy_false (s : string) : falsy s = false <-> s <> "".
Proof. unfold falsy. apply String.eqb_neq. Qed.

Lemma hours_le_48 (d : Z) :
  Qle_bool (inject_Z d / inject_Z (1000 * 60 * 60)) 48 = true <-> d <= 48 * 60 * 60 * 1000.
Proof.
  rewrite Qle_bool_iff.
  unfold Qle, Qdiv, Qmult, Qinv, inject_Z; simpl. lia.
Qed.

(** C9. [isValidTle line1 line2] answers [true] exactly when both lines have
    69 characters, line 1 starts with "1 " and line 2 starts with "2 ". *)
Theorem isValidTle_iff (line1 line2 : string) :
  isValidTle line1 line2 = true <->
  String.length line1 = 69%nat /\ String.length line2 = 69%nat /\
  startsWith line1 "1 " = true /\ startsWith line2 "2 " = true.
Proof.
  unfold isValidTle.
  destruct (falsy line1) eqn:F1.
  - apply falsy_true in F1. subst line1. simpl. split; [discriminate|].
    intros (H & _). discriminate.
  - destruct (falsy line2) eqn:F2.
    + apply falsy_true in F2. subst line2. simpl. split; [discriminate|].
      intros (_ & H & _). discriminate.
    + simpl. rewrite !andb_true_iff, !Nat.eqb_eq. tauto.
Qed.

(** C8. For a non-empty epoch that parses to the instant [t], [isTleFresh]
    answers [true] exactly when the clock reads at most 48 hours past [t]
    (48 hours sharp included); for an empty or unparseable epoch it answers
    [false]; it never throws. *)
Theorem isTleFresh_spec (epoch : string) (w : World) :
  exists b w',
    isTleFresh epoch w = (Ok b, w') /\
    (forall t, epoch <> "" -> Date_parse epoch = Some t ->
       (b = true <-> Date_now (clockReads w) - t <= 48 * 60 * 60 * 1000)) /\
    (epoch = "" \/ Date_parse epoch = None -> b = false).
Proof.
  unfold isTleFresh.
  destruct (falsy epoch) eqn:F.
  - exists false, w. apply falsy_true in F. split; [reflexivity|]. split.
    + intros t Hne. contradiction.
    + reflexivity.
  - apply falsy_false in F.
    unfold tryCatch, bind, newDate, ret.
    destruct (Date_parse epoch) as [t|] eqn:P.
    + eexists _, (tick w). split; [reflexivity|]. split.
      * intros t' _ [= <-]. apply hours_le_48.
      * intros [E|E]; [contradiction|discriminate].
    + exists false, (tick w). split; [reflexivity|]. split.
      * intros t' _ E. discriminate.
      * reflexivity.
Qed.

(** *** Comparisons on numbers *)

Lemma leb_iff (a b : Q) : leb a b = true <-> (a <= b)%Q.
Proof. apply Qle_bool_iff. Qed.

Lemma geb_iff (a b : Q) : geb a b = true <-> (b <= a)%Q.
Proof. apply Qle_bool_iff. Qed.

Lemma gtb_iff (a b : Q) : gtb a b = true <-> (b < a)%Q.
Proof.
  unfold gtb. rewrite negb_true_iff. split.
  - intros H. apply Qnot_le_lt. intros L. apply Qle_bool_iff in L. congruence.
  - intros H. destruct (Qle_bool a b) eqn:E; [|reflexivity].
    apply Qle_bool_iff in E. exfalso. exact (Qlt_not_le _ _ H E).
Qed.

Lemma ltb_iff (a b : Q) : ltb a b = true <-> (a < b)%Q.
Proof. apply (gtb_iff b a). Qed.

Lemma gtb_false_iff (a b : Q) : gtb a b = false <-> (a <= b)%Q.
Proof.
  unfold gtb. rewrite negb_false_iff. apply Qle_bool_iff.
Qed.

Lemma leb_false_iff (a b : Q) : leb a b = false <-> (b < a)%Q.
Proof.
  rewrite <- gtb_iff. unfold gtb, leb. rewrite negb_true_iff. reflexivity.
Qed.

(** *** Illumination *)

(** C1. [isSatelliteVisible] answers [true] exactly when the elevation is
    above the 10 degree minimum, the satellite is sunlit (the source's
    [cosAngle], its position along the sun direction, is positive) and the
    sun stands at or below -6 degrees for the observer; at or below 10
    degrees it answers [false] whatever the illumination. *)
Theorem isSatelliteVisible_iff (satelliteEci : EciVec3) (observerGd : GeodeticLocation)
    (time : Z) (elevation : Q) :
  (isSatelliteVisible satelliteEci observerGd time elevation = true <->
     (MIN_ELEVATION_DEG < elevation)%Q /\
     isSatelliteInSunlight satelliteEci time = true /\
     (calculateSunElevation observerGd time <= CIVIL_TWILIGHT_ANGLE)%Q) /\
  (isSatelliteInSunlight satelliteEci time = true <-> (0 < cosAngle satelliteEci time)%Q) /\
  ((elevation <= MIN_ELEVATION_DEG)%Q ->
     forall satelliteEci' observerGd' time',
       isSatelliteVisible satelliteEci' observerGd' time' elevation = false).
Proof.
  split; [|split].
  - unfold isSatelliteVisible.
    destruct (leb elevation MIN_ELEVATION_DEG) eqn:E.
    + apply leb_iff in E. split; [discriminate|].
      intros (H & _). exfalso. exact (Qlt_not_le _ _ H E).
    + apply leb_false_iff in E.
      destruct (isSatelliteInSunlight satelliteEci time); simpl.
      * rewrite leb_iff. tauto.
      * split; [discriminate|]. intros (_ & H & _). discriminate.
  - apply gtb_iff.
  - intros H s o t. unfold isSatelliteVisible.
    apply leb_iff in H. rewrite H. reflexivity.
Qed.

(** *** Sorting *)

Section Sorting.

Context {A : Type} (key : A -> Q).

Local Abbreviation byKey := (fun a b : A => (key b - key a)%Q).
Local Abbreviation byScore := (descending key).

Lemma byKey_le0 (a b : A) : Qle_bool (byKey a b) 0 = true <-> byScore a b.
Proof.
  unfold descending. rewrite Qle_bool_iff.
  destruct (key a) as [na da], (key b) as [nb db].
  unfold Qle, Qminus, Qplus, Qopp; simpl. lia.
Qed.

Lemma descending_trans (a b c : A) : byScore a b -> byScore b c -> byScore a c.
Proof. unfold descending. intros H1 H2. eapply Qle_trans; eassumption. Qed.

Lemma descending_total (a b : A) : ~ byScore a b -> byScore b a.
Proof. unfold descending. intros H. apply Qlt_le_weak, Qnot_le_lt. exact H. Qed.

Lemma insertBy_In (a x : A) (l : list A) :
  In x (insertBy byKey a l) <-> x = a \/ In x l.
Proof.
  induction l as [|b l IH]; simpl.
  - intuition.
  - destruct (Qle_bool (byKey a b) 0); simpl; rewrite ?IH; intuition.
Qed.

Lemma insertBy_sorted (a : A) (l : list A) :
  StronglySorted byScore l -> StronglySorted byScore (insertBy byKey a l).
Proof.
  induction 1 as [|b l Hs IH Hb]; simpl.
  - constructor; constructor.
  - destruct (Qle_bool (byKey a b) 0) eqn:E.
    + apply byKey_le0 in E. constructor.
      * constructor; assumption.
      * constructor; [assumption|].
        eapply Forall_impl; [exact Hb|]. intros c Hc.
        eapply descending_trans; eassumption.
    + constructor; [assumption|].
      apply List.Forall_forall. intros x Hx. apply insertBy_In in Hx.
      destruct Hx as [->|Hx].
      * apply descending_total. intros D. apply byKey_le0 in D. congruence.
      * rewrite List.Forall_forall in Hb. auto.
Qed.

Lemma sortBy_sorted (l : list A) : StronglySorted byScore (sortBy byKey l).
Proof.
  induction l as [|a l IH]; simpl; [constructor|].
  apply insertBy_sorted, IH.
Qed.

Lemma insertBy_length (a : A) (l : list A) :
  length (insertBy byKey a l) = S (length l).
Proof.
  induction l as [|b l IH]; simpl; [reflexivity|].
  destruct (Qle_bool (byKey a b) 0); simpl; congruence.
Qed.

Lemma sortBy_In (x : A) (l : list A) : In x (sortBy byKey l) <-> In x l.
Proof.
  induction l as [|a l IH]; simpl; [tauto|].
  rewrite insertBy_In, IH. intuition.
Qed.

Lemma firstn_sorted (n : nat) (l : list A) :
  StronglySorted byScore l -> StronglySorted byScore (firstn n l).
Proof.
  intros H. revert n. induction H as [|a l Hs IH Ha]; intros [|n]; simpl;
    try constructor.
  - apply IH.
  - apply List.Forall_forall. intros x Hx.
    rewrite List.Forall_forall in Ha. apply Ha.
    rewrite <- (firstn_skipn n l). apply in_or_app. left. exact Hx.
Qed.

End Sorting.

Lemma insertBy_perm {A} (compareFn : A -> A -> Q) (a : A) (l : list A) :
  Permutation (insertBy compareFn a l) (a :: l).
Proof.
  induction l as [|b l IH]; simpl; [reflexivity|].
  destruct (Qle_bool (compareFn a b) 0); [reflexivity|].
  rewrite IH. apply perm_swap.
Qed.

Lemma sortBy_perm {A} (compareFn : A -> A -> Q) (l : list A) :
  Permutation (sortBy compareFn l) l.
Proof.
  induction l as [|a l IH]; simpl; [reflexivity|].
  rewrite insertBy_perm, IH. reflexivity.
Qed.


Lemma slice0_length {A} (n : nat) (l : list A) : (length (slice 0 n l) <= n)%nat.
Proof.
  unfold slice. simpl. rewrite Nat.sub_0_r. rewrite length_firstn. lia.
Qed.

Lemma slice0_sorted {A} (key : A -> Q) (n : nat) (l : list A) :
  StronglySorted (descending key) l -> StronglySorted (descending key) (slice 0 n l).
Proof.
  unfold slice. simpl. apply firstn_sorted.
Qed.

(** *** Running a computation *)

Lemma bind_Ok {A B} (m : M A) (k : A -> M B) (w w' : World) (b : B) :
  bind m k w = (Ok b, w') <-> exists a w1, m w = (Ok a, w1) /\ k a w1 = (Ok b, w').
Proof.
  unfold bind. destruct (m w) as [[a|e] w1]; split.
  - intros H. exists a, w1. auto.
  - intros (a' & w1' & [= <- <-] & H). exact H.
  - discriminate.
  - intros (a' & w1' & [=] & _).
Qed.

Lemma bind_Throw {A B} (m : M A) (k : A -> M B) (w w' : World) (e : string) :
  bind m k w = (Throw e, w') <->
  m w = (Throw e, w') \/ exists a w1, m w = (Ok a, w1) /\ k a w1 = (Throw e, w').
Proof.
  unfold bind. destruct (m w) as [[a|e0] w1]; split.
  - intros H. right. exists a, w1. auto.
  - intros [[=]|(a' & w1' & [= <- <-] & H)]. exact H.
  - intros [= <- <-]. left. reflexivity.
  - intros [[= <- <-]|(a' & w1' & [=] & _)]. reflexivity.
Qed.

(** *** Relations between the world before and after

    [preserves R m]: running [m] takes every world to an [R]-related one,
    whether [m] returns or throws. *)

Section Ambient.

Variable R : World -> World -> Prop.
Hypothesis R_refl : forall w, R w w.
Hypothesis R_trans : forall a b c, R a b -> R b c -> R a c.
Hypothesis R_tick : forall w, R w (tick w).
Hypothesis R_drew : forall w, R w (drew w).

Lemma preserves_ret {A} (a : A) : preserves R (ret a).
Proof. intros w. apply R_refl. Qed.

Lemma preserves_throw {A} (e : string) : preserves R (@throw A e).
Proof. intros w. apply R_refl. Qed.

Lemma preserves_lift {A} (r : Result A) : preserves R (lift r).
Proof. intros w. apply R_refl. Qed.

Lemma preserves_get : preserves R get.
Proof. intros w. apply R_refl. Qed.

Lemma preserves_newDate : preserves R newDate.
Proof. intros w. apply R_tick. Qed.

Lemma preserves_random : preserves R random.
Proof. intros w. apply R_drew. Qed.

Lemma preserves_bind {A B} (m : M A) (k : A -> M B) :
  preserves R m -> (forall a, preserves R (k a)) -> preserves R (bind m k).
Proof.
  intros Hm Hk w. unfold bind. specialize (Hm w).
  destruct (m w) as [[a|e] w1]; simpl in *; [|exact Hm].
  eapply R_trans; [exact Hm|apply Hk].
Qed.

Lemma preserves_tryCatch {A} (m : M A) (h : string -> M A) :
  preserves R m -> (forall e, preserves R (h e)) -> preserves R (tryCatch m h).
Proof.
  intros Hm Hh w. unfold tryCatch. specialize (Hm w).
  destruct (m w) as [[a|e] w1]; simpl in *; [exact Hm|].
  eapply R_trans; [exact Hm|apply Hh].
Qed.

Lemma preserves_filterM {A} (f : A -> M bool) (l : list A) :
  (forall a, preserves R (f a)) -> preserves R (filterM f l).
Proof.
  intros Hf. induction l as [|x l IH]; simpl.
  - apply preserves_ret.
  - apply preserves_bind; [apply Hf|]. intros keep.
    apply preserves_bind; [apply IH|]. intros rest. apply preserves_ret.
Qed.

Lemma preserves_forEachM {A S} (body : A -> S -> M S) (l : list A) (s : S) :
  (forall a s, preserves R (body a s)) -> preserves R (forEachM body l s).
Proof.
  intros Hb. revert s. induction l as [|x l IH]; intros s; simpl.
  - apply preserves_ret.
  - apply preserves_bind; [apply Hb|]. intros s'. apply IH.
Qed.

Ltac pres :=
  repeat first
    [ apply preserves_ret | apply preserves_throw | apply preserves_lift
    | apply preserves_get | apply preserves_newDate | apply preserves_random
    | assumption
    | apply preserves_bind; [|intros ?]
    | apply preserves_tryCatch; [|intros ?]
    | apply preserves_filterM; intros ?
    | apply preserves_forEachM; intros ? ?
    | match goal with
      | |- preserves _ (if ?b then _ else _) => destruct b
      | |- preserves _ (match ?x with _ => _ end) => destruct x
      end ].

Lemma preserves_isTleFresh (epoch : string) : preserves R (isTleFresh epoch).
Proof. unfold isTleFresh. pres. Qed.

Lemma preserves_createPassFromPoints sat launch passStart0 points boosterInfo0 :
  preserves R (createPassFromPoints sat launch passStart0 points boosterInfo0).
Proof. unfold createPassFromPoints. pres. Qed.

Lemma preserves_scanStep sat launch boosterInfo0 satrec observerGd currentTime st :
  preserves R (scanStep sat launch boosterInfo0 satrec observerGd currentTime st).
Proof.
  unfold scanStep. pres; apply preserves_createPassFromPoints.
Qed.

Lemma preserves_scanLoop fuel sat launch boosterInfo0 satrec observerGd endTime
    currentTime st :
  preserves R
    (scanLoop fuel sat launch boosterInfo0 satrec observerGd endTime currentTime st).
Proof.
  revert currentTime st. induction fuel as [|fuel IH]; intros currentTime st; simpl.
  - pres.
  - destruct (currentTime <=? endTime); [|pres].
    apply preserves_bind; [apply preserves_scanStep|]. intros st'. apply IH.
Qed.

Lemma preserves_calculateSatellitePasses sat location launch boosterInfo0 :
  preserves R (calculateSatellitePasses sat location launch boosterInfo0).
Proof.
  unfold calculateSatellitePasses.
  destruct (twoline2satrec (tle1 sat) (tle2 sat)); [|pres].
  apply preserves_bind; [pres|]. intros now.
  apply preserves_bind; [apply preserves_scanLoop|]. intros st.
  pres; apply preserves_createPassFromPoints.
Qed.

Lemma preserves_calculatePasses up satellites location launch :
  preserves R (calculatePasses up satellites location launch).
Proof.
  unfold calculatePasses.
  apply preserves_bind.
  { apply preserves_filterM. intros sat0. pres. apply preserves_isTleFresh. }
  intros validSatellites. destruct (length validSatellites =? 0)%nat; [pres|].
  apply preserves_bind; [pres|]. intros boosterInfo0.
  apply preserves_bind; [|intros; pres].
  apply preserves_forEachM. intros sat0 acc.
  apply preserves_tryCatch; [|intros; pres].
  apply preserves_bind; [apply preserves_calculateSatellitePasses|intros; pres].
Qed.

Lemma preserves_filterValidSatellites satellites :
  preserves R (filterValidSatellites satellites).
Proof.
  unfold filterValidSatellites. apply preserves_filterM. intros sat0.
  destruct (negb (isValidTle (tle1 sat0) (tle2 sat0))); [pres|].
  apply preserves_bind; [apply preserves_isTleFresh|intros; pres].
Qed.

Lemma preserves_processLaunch up location satelliteMap launch allPasses :
  preserves R (processLaunch up location satelliteMap launch allPasses).
Proof.
  unfold processLaunch. apply preserves_tryCatch; [|intros; pres].
  match goal with |- preserves _ (if ?b then _ else _) => destruct b end; [pres|].
  apply preserves_bind; [apply preserves_filterValidSatellites|]. intros valid.
  destruct (length valid =? 0)%nat; [pres|].
  apply preserves_bind; [apply preserves_calculatePasses|intros; pres].
Qed.

Lemma preserves_batchLoop fuel up location launches satelliteMap i allPasses :
  preserves R (batchLoop fuel up location launches satelliteMap i allPasses).
Proof.
  revert i allPasses. induction fuel as [|fuel IH]; intros i allPasses; simpl.
  - pres.
  - destruct (i <? length launches)%nat; [|pres].
    apply preserves_bind; [|intros; apply IH].
    apply preserves_forEachM. intros. apply preserves_processLaunch.
Qed.

Lemma preserves_countSatellites satelliteMap :
  preserves R (countSatellites satelliteMap).
Proof.
  unfold countSatellites. apply preserves_forEachM.
  intros entry [[total valid] stale].
  apply preserves_forEachM. intros sat0 [[total' valid'] stale'].
  destruct (isValidTle (tle1 sat0) (tle2 sat0)); [|pres].
  apply preserves_bind; [apply preserves_isTleFresh|intros; pres].
Qed.

End Ambient.

(** The fuel of the batch loop covers the launches: more of it changes
    nothing. *)
Lemma batchLoop_fuel fuel up location launches satelliteMap :
  forall i allPasses extra (w : World),
    (length launches - i <= fuel * concurrencyLimit)%nat ->
    batchLoop (fuel + extra) up location launches satelliteMap i allPasses w
    = batchLoop fuel up location launches satelliteMap i allPasses w.
Proof.
  unfold concurrencyLimit.
  induction fuel as [|fuel IH]; intros i allPasses extra w Hf.
  - destruct extra; simpl; [reflexivity|].
    destruct (i <? length launches)%nat eqn:E; [|reflexivity].
    apply Nat.ltb_lt in E. lia.
  - simpl. destruct (i <? length launches)%nat; [|reflexivity].
    unfold bind.
    destruct (forEachM (processLaunch up location satelliteMap)
                (slice i (i + concurrencyLimit) launches) allPasses w)
      as [[allPasses'|e] w1]; [|reflexivity].
    apply IH. unfold concurrencyLimit. lia.
Qed.

(** *** The relation [steady] *)

Lemma steady_refl (w : World) : steady w w.
Proof. unfold steady. auto. Qed.

Lemma steady_trans (a b c : World) : steady a b -> steady b c -> steady a c.
Proof.
  unfold steady. intros (P1 & I1 & C1 & W1) (P2 & I2 & C2 & W2).
  repeat split; try congruence; try lia. auto.
Qed.

Lemma steady_tick (w : World) : steady w (tick w).
Proof. unfold steady, snapshot_wf. simpl. auto. Qed.

Lemma steady_drew (w : World) : steady w (drew w).
Proof. unfold steady, snapshot_wf. simpl. auto. Qed.

Ltac steady_pres :=
  repeat first
    [ apply (preserves_ret steady steady_refl)
    | apply (preserves_throw steady steady_refl)
    | apply (preserves_lift steady steady_refl)
    | apply (preserves_get steady steady_refl)
    | apply (preserves_newDate steady steady_tick)
    | apply (preserves_random steady steady_drew)
    | apply (preserves_isTleFresh steady steady_refl steady_trans steady_tick)
    | assumption
    | apply (preserves_bind steady steady_trans); [|intros ?]
    | apply (preserves_tryCatch steady steady_trans); [|intros ?]
    | apply (preserves_filterM steady steady_refl steady_trans); intros ?
    | apply (preserves_forEachM steady steady_refl steady_trans); intros ? ?
    | match goal with
      | |- preserves _ (if ?b then _ else _) => destruct b
      | |- preserves _ (match ?x with _ => _ end) => destruct x
      end ].

Lemma Map_set_keys {V} (ids : list string) (k : string) (v : V) (m : list (string * V)) :
  In k ids ->
  Forall (fun kv => In (fst kv) ids) m ->
  Forall (fun kv => In (fst kv) ids) (Map_set k v m).
Proof.
  intros Hk. induction 1 as [|[k' v'] m Hk' Hm IH]; simpl.
  - constructor; [exact Hk|constructor].
  - destruct (String.eqb k' k); constructor; auto.
Qed.

(** A loop keeps what each of its rounds keeps. *)
Lemma forEachM_invariant {A S} (P : S -> Prop) (body : A -> S -> M S) (l : list A) :
  (forall a s w s' w', In a l -> P s -> body a s w = (Ok s', w') -> P s') ->
  forall s w s' w', P s -> forEachM body l s w = (Ok s', w') -> P s'.
Proof.
  induction l as [|x l IH]; intros Hb s w s' w' Hs; simpl.
  - intros [= <- <-]. exact Hs.
  - intros H. apply bind_Ok in H. destruct H as (s1 & w1 & H1 & H2).
    eapply IH; [|eapply Hb; [left; reflexivity|exact Hs|exact H1]|exact H2].
    intros a s0 w0 s0' w0' Ha. apply Hb. right. exact Ha.
Qed.

Lemma fetchSatelliteMap_keys up launches w satelliteMap w' :
  fetchSatelliteMap up launches w = (Ok satelliteMap, w') ->
  keysWithin launches satelliteMap.
Proof.
  unfold fetchSatelliteMap, keysWithin.
  apply (forEachM_invariant (fun m => Forall (fun kv => In (fst kv) (map launch_id launches)) m)).
  - intros a s w0 s' w0' Ha Hs H.
    unfold tryCatch, bind, lift, ret in H.
    destruct (getStarlinkSatellites up (launch_id a)); injection H as <- <-;
      apply Map_set_keys; auto; apply in_map; exact Ha.
  - constructor.
Qed.

Lemma steady_fetchSatelliteMap up launches :
  preserves steady (fetchSatelliteMap up launches).
Proof. unfold fetchSatelliteMap. steady_pres. Qed.

Lemma steady_set_launchCache (c : option LaunchCache) (w : World) :
  (forall c', c = Some c' -> keysWithin (lc_launches c') (lc_satellites c')) ->
  steady w (snd (set_launchCache c w)).
Proof.
  intros Hc. unfold steady, snapshot_wf. simpl. repeat split; auto.
Qed.

Lemma steady_getLaunchAndSatelliteData (up : Upstream) :
  preserves steady (getLaunchAndSatelliteData up).
Proof.
  assert (Hmiss : preserves steady
    (let! launches := lift (getRecentStarlinkLaunches up) in
     let! satelliteMap := fetchSatelliteMap up launches in
     let! timestamp := newDate in
     let! now := newDate in
     set_launchCache
       (Some {| lc_launches := launches; lc_satellites := satelliteMap;
                lc_timestamp := timestamp;
                lc_expiresAt := now + LAUNCH_CACHE_DURATION_MS |});;
     ret (launches, satelliteMap))).
  { intros w. unfold bind at 1. unfold lift at 1.
    destruct (getRecentStarlinkLaunches up) as [launches|e]; [|apply steady_refl].
    unfold bind at 1.
    pose proof (steady_fetchSatelliteMap up launches w) as Hf.
    destruct (fetchSatelliteMap up launches w) as [[satelliteMap|e] w1] eqn:F;
      simpl in Hf; [|exact Hf].
    apply fetchSatelliteMap_keys in F.
    eapply steady_trans; [exact Hf|].
    unfold bind, newDate, ret. simpl.
    eapply steady_trans; [apply steady_tick|].
    eapply steady_trans; [apply steady_tick|].
    apply (steady_set_launchCache _ (tick (tick w1))).
    intros c' [= <-]. exact F. }
  intros w. unfold getLaunchAndSatelliteData.
  unfold bind at 1, get at 1.
  destruct (launchCache w) as [c|].
  - unfold bind at 1. unfold bind at 1. unfold newDate at 1. unfold ret at 1.
    destruct (lc_expiresAt c >? Date_now (clockReads w)).
    + apply steady_tick.
    + eapply steady_trans; [apply steady_tick|apply Hmiss].
  - unfold bind at 1. unfold ret at 1. apply Hmiss.
Qed.

Lemma steady_batchLoop fuel up location launches satelliteMap i allPasses :
  preserves steady (batchLoop fuel up location launches satelliteMap i allPasses).
Proof.
  apply preserves_batchLoop;
    first [exact steady_refl | exact steady_trans | exact steady_tick | exact steady_drew].
Qed.

Lemma steady_calculateFreshPredictions up location weights :
  preserves steady (calculateFreshPredictions up location weights).
Proof.
  unfold calculateFreshPredictions.
  apply (preserves_bind steady steady_trans);
    [apply steady_getLaunchAndSatelliteData|].
  intros [launches satelliteMap].
  destruct (length launches =? 0)%nat; [steady_pres|].
  apply (preserves_bind steady steady_trans); [apply steady_batchLoop|].
  intros allPasses. steady_pres.
Qed.

Lemma steady_countSatellites satelliteMap :
  preserves steady (countSatellites satelliteMap).
Proof.
  apply preserves_countSatellites;
    first [exact steady_refl | exact steady_trans | exact steady_tick | exact steady_drew].
Qed.

Lemma steady_getPredictionQuality up location :
  preserves steady (getPredictionQuality up location).
Proof.
  unfold getPredictionQuality.
  apply (preserves_tryCatch steady steady_trans); [|intros; steady_pres].
  apply (preserves_bind steady steady_trans);
    [apply steady_getLaunchAndSatelliteData|].
  intros [launches satelliteMap].
  apply (preserves_bind steady steady_trans).
  { destruct launches; steady_pres. }
  intros [[factors1 recommendations1] qualityScore1].
  apply (preserves_bind steady steady_trans); [apply steady_countSatellites|].
  intros [[total valid] stale]. steady_pres.
Qed.

Lemma steady_getCacheStats : preserves steady getCacheStats.
Proof.
  unfold getCacheStats.
  apply (preserves_bind steady steady_trans); [steady_pres|]. intros w0.
  apply (preserves_bind steady steady_trans); steady_pres.
Qed.

(** *** [getPredictions], path by path *)

Lemma initialize_run (w : World) :
  exists w0, initialize w = (Ok tt, w0) /\
    predictionCache w0 = predictionCache w /\ launchCache w0 = launchCache w /\
    clockReads w0 = clockReads w /\ randomDraws w0 = randomDraws w /\
    initialized w0 = true /\ (initialized w = true -> w0 = w).
Proof.
  unfold initialize, bind, get. destruct (initialized w) eqn:I; simpl.
  - exists w. repeat split; auto.
  - eexists. split; [reflexivity|]. simpl. repeat split; auto. discriminate.
Qed.

Lemma store_run cacheKey location passes (w : World) :
  (let! timestamp := newDate in
   let! now := newDate in
   let! w' := get in
   set_predictionCache
     (<[cacheKey :=
          {| pc_location := location; pc_passes := passes;
             pc_timestamp := timestamp;
             pc_expiresAt := now + CACHE_DURATION_MS |}]> (predictionCache w'));;
   cleanupCache;;
   ret passes) w = (Ok passes, stored cacheKey location passes w).
Proof.
  unfold stored, cleanupCache, bind, newDate, get, set_predictionCache, ret.
  simpl. destruct (launchCache w) as [c|]; simpl.
  - unfold set_launchCache.
    destruct (lc_expiresAt c <=? Date_now (S (S (clockReads w)))); reflexivity.
  - reflexivity.
Qed.

Lemma refresh_cases up location weights cacheKey (cached : option PredictionCache)
    ws r w' :
  tryCatch
    (let! passes := calculateFreshPredictions up location weights in
     let! timestamp := newDate in
     let! now := newDate in
     let! w' := get in
     set_predictionCache
       (<[cacheKey :=
            {| pc_location := location; pc_passes := passes;
               pc_timestamp := timestamp;
               pc_expiresAt := now + CACHE_DURATION_MS |}]> (predictionCache w'));;
     cleanupCache;;
     ret passes)
    (fun error =>
       match cached with
       | Some c => ret (pc_passes c)
       | None => throw error
       end) ws = (r, w') ->
  (exists passes wA,
     calculateFreshPredictions up location weights ws = (Ok passes, wA) /\
     r = Ok passes /\ w' = stored cacheKey location passes wA) \/
  (exists e wA,
     calculateFreshPredictions up location weights ws = (Throw e, wA) /\
     w' = wA /\
     r = match cached with
         | Some c => Ok (pc_passes c)
         | None => Throw e
         end).
Proof.
  unfold tryCatch. unfold bind at 1.
  destruct (calculateFreshPredictions up location weights ws) as [[passes|e] wA].
  - rewrite store_run. intros [= <- <-]. left. eauto.
  - intros H. right. exists e, wA. split; [reflexivity|].
    destruct cached; injection H as <- <-; auto.
Qed.

Lemma getPredictions_cases up location weights w r w' :
  getPredictions up location weights w = (r, w') ->
  let cacheKey := generateLocationCacheKey location in
  let w0 := snd (initialize w) in
  (exists c,
     predictionCache w !! cacheKey = Some c /\
     Date_now (clockReads w) < pc_expiresAt c /\
     r = Ok (pc_passes c) /\ w' = tick w0) \/
  (exists ws,
     (predictionCache w !! cacheKey = None /\ ws = w0 \/
      exists c, predictionCache w !! cacheKey = Some c /\
                pc_expiresAt c <= Date_now (clockReads w) /\ ws = tick w0) /\
     ((exists passes wA,
         calculateFreshPredictions up location weights ws = (Ok passes, wA) /\
         r = Ok passes /\ w' = stored cacheKey location passes wA) \/
      (exists e wA,
         calculateFreshPredictions up location weights ws = (Throw e, wA) /\
         w' = wA /\
         r = match predictionCache w !! cacheKey with
             | Some c => Ok (pc_passes c)
             | None => Throw e
             end))).
Proof.
  intros H cacheKey w0. subst w0.
  destruct (initialize_run w) as (w0 & Hi & Hp & Hl & Hc & Hr & _).
  unfold getPredictions in H. unfold bind at 1 in H. rewrite Hi in H. simpl.
  rewrite Hi. simpl.
  unfold bind at 1, get at 1 in H. rewrite Hp in H.
  fold cacheKey in H.
  destruct (predictionCache w !! cacheKey) as [c|] eqn:L.
  - unfold bind at 1 in H. unfold bind at 1, newDate at 1, ret at 1 in H.
    rewrite Hc in H.
    destruct (pc_expiresAt c >? Date_now (clockReads w)) eqn:E.
    + left. exists c. unfold ret in H. injection H as <- <-.
      repeat split; auto. lia.
    + right. exists (tick w0). split.
      * right. exists c. repeat split; auto. lia.
      * apply (refresh_cases _ _ _ _ (Some c)) in H. exact H.
  - unfold bind at 1, ret at 1 in H.
    right. exists w0. split; [left; auto|].
    apply (refresh_cases _ _ _ _ None) in H. exact H.
Qed.

Lemma stored_facts cacheKey location passes (w : World) :
  let now := Date_now (S (S (clockReads w))) in
  let entry :=
    {| pc_location := location; pc_passes := passes;
       pc_timestamp := Date_now (clockReads w);
       pc_expiresAt := Date_now (S (clockReads w)) + CACHE_DURATION_MS |} in
  predictionCache (stored cacheKey location passes w) =
    filter (fun kv => negb (pc_expiresAt (snd kv) <=? now) = true)
      (<[cacheKey := entry]> (predictionCache w)) /\
  initialized (stored cacheKey location passes w) = initialized w /\
  clockReads (stored cacheKey location passes w) = S (S (S (clockReads w))) /\
  (launchCache (stored cacheKey location passes w) = launchCache w \/
   launchCache (stored cacheKey location passes w) = None).
Proof.
  unfold stored, cleanupCache, bind, newDate, get, set_predictionCache, ret.
  simpl. destruct (launchCache w) as [c|] eqn:L; simpl.
  - unfold set_launchCache.
    destruct (lc_expiresAt c <=? Date_now (S (S (clockReads w)))); simpl; auto.
  - auto.
Qed.

(** *** What the operations keep *)

Lemma steady_grows (w w' : World) : steady w w' -> grows w w'.
Proof.
  unfold steady, grows. intros (_ & I & C & W). repeat split; auto. congruence.
Qed.

Lemma grows_refl (w : World) : grows w w.
Proof. unfold grows. auto. Qed.

Lemma grows_trans (a b c : World) : grows a b -> grows b c -> grows a c.
Proof.
  unfold grows. intros (I1 & C1 & W1) (I2 & C2 & W2). repeat split; auto. lia.
Qed.

Lemma initialize_grows (w : World) : grows w (snd (initialize w)).
Proof.
  destruct (initialize_run w) as (w0 & Hi & Hp & Hl & Hc & Hr & Ht & _).
  rewrite Hi. simpl. unfold grows, snapshot_wf. rewrite Hl, Hc. auto.
Qed.

Lemma stored_grows cacheKey location passes (w : World) :
  grows w (stored cacheKey location passes w).
Proof.
  destruct (stored_facts cacheKey location passes w) as (_ & I & C & L).
  unfold grows, snapshot_wf. rewrite I, C. repeat split; auto.
  intros Hw c Hc. destruct L as [L|L]; rewrite L in Hc; [auto|discriminate].
Qed.

Lemma getPredictions_grows up location weights (w : World) :
  grows w (snd (getPredictions up location weights w)) /\
  initialized (snd (getPredictions up location weights w)) = true.
Proof.
  destruct (getPredictions up location weights w) as [r w'] eqn:H.
  apply getPredictions_cases in H. simpl in H.
  destruct (initialize_run w) as (w0 & Hi & Hp & Hl & Hc & Hr & Ht & _).
  pose proof (initialize_grows w) as G0.
  rewrite Hi in H, G0. simpl in H, G0. simpl.
  assert (Gt : grows w (tick w0)).
  { eapply grows_trans; [exact G0|apply steady_grows, steady_tick]. }
  destruct H as [(c & _ & _ & _ & ->)|(ws & Hws & H)].
  - split; [exact Gt|exact Ht].
  - assert (Gs : grows w ws /\ initialized ws = true).
    { destruct Hws as [(_ & ->)|(c & _ & _ & ->)]; auto. }
    destruct Gs as (Gs & Is).
    destruct H as [(passes & wA & F & _ & ->)|(e & wA & F & -> & _)].
    + pose proof (steady_calculateFreshPredictions up location weights ws) as S.
      rewrite F in S. simpl in S.
      assert (G : grows w (stored (generateLocationCacheKey location) location passes wA)).
      { eapply grows_trans; [exact Gs|].
        eapply grows_trans; [apply steady_grows, S|apply stored_grows]. }
      split; [exact G|].
      destruct (stored_facts (generateLocationCacheKey location) location passes wA)
        as (_ & I & _). rewrite I. destruct S as (_ & I' & _). congruence.
    + pose proof (steady_calculateFreshPredictions up location weights ws) as S.
      rewrite F in S. simpl in S. split.
      * eapply grows_trans; [exact Gs|apply steady_grows, S].
      * destruct S as (_ & I' & _). congruence.
Qed.

Lemma clearCache_grows (w : World) : grows w (snd (clearCache w)).
Proof.
  unfold clearCache, bind, set_predictionCache, set_launchCache, grows, snapshot_wf.
  simpl. repeat split; auto. discriminate.
Qed.

Lemma runOp_grows (op : Op) (w : World) : grows w (runOp op w).
Proof.
  destruct op as [up location weights|up location| |]; simpl.
  - apply getPredictions_grows.
  - apply steady_grows, steady_getPredictionQuality.
  - apply steady_grows, steady_getCacheStats.
  - apply clearCache_grows.
Qed.

Lemma runOps_grows (ops : list Op) (w : World) : grows w (runOps ops w).
Proof.
  revert w. induction ops as [|op ops IH]; intros w; simpl.
  - apply grows_refl.
  - eapply grows_trans; [apply runOp_grows|apply IH].
Qed.

Lemma newPredictionEngine_wf : snapshot_wf newPredictionEngine.
Proof. intros c. discriminate. Qed.

Lemma Reachable_wf (w : World) : Reachable w -> snapshot_wf w.
Proof.
  intros (ops & ->).
  apply (runOps_grows ops newPredictionEngine), newPredictionEngine_wf.
Qed.

(** *** A live entry outlives the calls made before it expires *)

Lemma getPredictions_keeps up location weights (w : World) k c :
  predictionCache w !! k = Some c ->
  (forall n, (n < clockReads (snd (getPredictions up location weights w)))%nat ->
             Date_now n < pc_expiresAt c) ->
  predictionCache (snd (getPredictions up location weights w)) !! k = Some c.
Proof.
  intros L B.
  destruct (getPredictions up location weights w) as [r w'] eqn:H.
  apply getPredictions_cases in H. simpl in H, B |- *.
  destruct (initialize_run w) as (w0 & Hi & Hp & Hl & Hc & Hr & Ht & _).
  rewrite Hi in H. simpl in H.
  destruct H as [(c0 & _ & _ & _ & ->)|(ws & Hws & H)].
  - simpl. congruence.
  - assert (Ps : predictionCache ws = predictionCache w /\
                 (clockReads w <= clockReads ws)%nat).
    { destruct Hws as [(_ & ->)|(c0 & _ & _ & ->)]; simpl; split; auto; lia. }
    destruct Ps as (Ps & Cs).
    pose proof (steady_calculateFreshPredictions up location weights ws) as S.
    destruct H as [(passes & wA & F & _ & ->)|(e & wA & F & -> & _)];
      rewrite F in S; simpl in S; destruct S as (PA & _ & CA & _).
    + destruct (stored_facts (generateLocationCacheKey location) location passes wA)
        as (P & _ & C & _).
      rewrite P. rewrite C in B. apply map_lookup_filter_Some. split.
      * destruct (decide (generateLocationCacheKey location = k)) as [E|N].
        -- exfalso. destruct Hws as [(Hn & _)|(c0 & L0 & X & _)].
           ++ rewrite E in Hn. congruence.
           ++ rewrite E in L0. assert (c0 = c) by congruence. subst c0.
              specialize (B (clockReads w)). lia.
        -- rewrite lookup_insert_ne by exact N. congruence.
      * simpl. apply negb_true_iff, Z.leb_gt. apply B. lia.
    + congruence.
Qed.

Lemma runOp_keeps (op : Op) (w : World) k c :
  isClearCache op = false ->
  predictionCache w !! k = Some c ->
  (forall n, (n < clockReads (runOp op w))%nat -> Date_now n < pc_expiresAt c) ->
  predictionCache (runOp op w) !! k = Some c.
Proof.
  destruct op as [up location weights|up location| |]; simpl; intros Hc L B.
  - apply getPredictions_keeps; assumption.
  - destruct (steady_getPredictionQuality up location w) as (P & _). congruence.
  - destruct (steady_getCacheStats w) as (P & _). congruence.
  - discriminate.
Qed.

Lemma runOps_keeps (ops : list Op) (w : World) k c :
  forallb (fun op => negb (isClearCache op)) ops = true ->
  predictionCache w !! k = Some c ->
  (forall n, (n < clockReads (runOps ops w))%nat -> Date_now n < pc_expiresAt c) ->
  predictionCache (runOps ops w) !! k = Some c.
Proof.
  revert w. induction ops as [|op ops IH]; intros w Hc L B; simpl in *.
  - exact L.
  - apply andb_true_iff in Hc. destruct Hc as (Hop & Hops).
    apply negb_true_iff in Hop.
    apply IH; [exact Hops| |exact B].
    apply runOp_keeps; [exact Hop|exact L|].
    intros n Hn. apply B.
    destruct (runOps_grows ops (runOp op w)) as (_ & C & _). lia.
Qed.

(** *** The prediction cache *)

(** C3. When the fresh computation throws and the cache holds an expired
    entry for the location's key, [getPredictions] returns the passes of that
    entry; the error reaches the caller when the cache holds nothing for the
    key, and only then. *)
Theorem getPredictions_degrades up location weights (w : World) :
  let cacheKey := generateLocationCacheKey location in
  let w0 := snd (initialize w) in
  (forall c e w1,
     predictionCache w !! cacheKey = Some c ->
     pc_expiresAt c <= Date_now (clockReads w) ->
     calculateFreshPredictions up location weights (tick w0) = (Throw e, w1) ->
     getPredictions up location weights w = (Ok (pc_passes c), w1)) /\
  (forall e w1,
     predictionCache w !! cacheKey = None ->
     calculateFreshPredictions up location weights w0 = (Throw e, w1) ->
     getPredictions up location weights w = (Throw e, w1)) /\
  (forall e w1,
     getPredictions up location weights w = (Throw e, w1) ->
     predictionCache w !! cacheKey = None).
Proof.
  intros cacheKey w0.
  destruct (getPredictions up location weights w) as [r w'] eqn:H.
  apply getPredictions_cases in H. fold cacheKey w0 in H.
  split; [|split].
  - intros c e w1 L X F.
    destruct H as [(c0 & L0 & B & _)|(ws & Hws & H)].
    + assert (c0 = c) by congruence. subst c0. lia.
    + assert (ws = tick w0) as ->.
      { destruct Hws as [(N & _)|(c0 & _ & _ & ->)]; congruence. }
      rewrite F in H.
      destruct H as [(passes & wA & [=] & _)|(e' & wA & [= <- <-] & -> & ->)].
      rewrite L. reflexivity.
  - intros e w1 L F.
    destruct H as [(c0 & L0 & _)|(ws & Hws & H)]; [congruence|].
    assert (ws = w0) as ->.
    { destruct Hws as [(_ & ->)|(c0 & L0 & _)]; congruence. }
    rewrite F in H.
    destruct H as [(passes & wA & [=] & _)|(e' & wA & [= <- <-] & -> & ->)].
    rewrite L. reflexivity.
  - intros e w1 [= -> ->].
    destruct H as [(c0 & _ & _ & [=] & _)|(ws & _ & H)].
    destruct H as [(passes & wA & _ & [=] & _)|(e' & wA & _ & _ & R)].
    destruct (predictionCache w !! cacheKey); [discriminate|reflexivity].
Qed.

(** C7. After a call of [getPredictions] has returned, any later call for
    a location with the same cache key, made while the entry the first call
    left under that key has not expired, returns the same pass list and
    only reads the clock: nothing is fetched or recomputed, whatever the
    providers would now answer, and whatever other calls of the engine
    (short of [clearCache]) came in between. *)
Theorem getPredictions_idempotent up1 loc1 wts1 (w0 : World) passes1 w1 c
    (ops : list Op) up2 loc2 wts2 :
  (forall n m, (n <= m)%nat -> Date_now n <= Date_now m) ->
  generateLocationCacheKey loc1 = generateLocationCacheKey loc2 ->
  getPredictions up1 loc1 wts1 w0 = (Ok passes1, w1) ->
  predictionCache w1 !! generateLocationCacheKey loc1 = Some c ->
  forallb (fun op => negb (isClearCache op)) ops = true ->
  Date_now (clockReads (runOps ops w1)) < pc_expiresAt c ->
  getPredictions up2 loc2 wts2 (runOps ops w1) = (Ok passes1, tick (runOps ops w1)).
Proof.
  intros Mono K H1 L1 Hops Live.
  set (w2 := runOps ops w1) in *.
  assert (P : pc_passes c = passes1).
  { pose proof H1 as Hc. apply getPredictions_cases in Hc. simpl in Hc.
    destruct (initialize_run w0) as (wi & Hi & Hp & _ & Hcr & _).
    rewrite Hi in Hc. simpl in Hc.
    destruct Hc as [(c0 & L0 & _ & [= ->] & ->)|(ws & Hws & Hc)].
    - simpl in L1. rewrite Hp in L1. congruence.
    - assert (Ps : predictionCache ws = predictionCache w0).
      { destruct Hws as [(_ & ->)|(c0 & _ & _ & ->)]; simpl; auto. }
      pose proof (steady_calculateFreshPredictions up1 loc1 wts1 ws) as S.
      destruct Hc as [(passes & wA & F & [= ->] & ->)|(e & wA & F & -> & R)];
        rewrite F in S; simpl in S; destruct S as (PA & _).
      + destruct (stored_facts (generateLocationCacheKey loc1) loc1 passes wA)
          as (Pst & _).
        rewrite Pst in L1. apply map_lookup_filter_Some in L1.
        destruct L1 as (L1 & _). rewrite lookup_insert_eq in L1.
        injection L1 as <-. reflexivity.
      + rewrite PA, Ps in L1. rewrite L1 in R. congruence. }
  assert (I1 : initialized w1 = true).
  { pose proof (getPredictions_grows up1 loc1 wts1 w0) as (_ & I).
    rewrite H1 in I. exact I. }
  assert (I2 : initialized w2 = true).
  { apply (runOps_grows ops w1). exact I1. }
  assert (L2 : predictionCache w2 !! generateLocationCacheKey loc1 = Some c).
  { apply runOps_keeps; [exact Hops|exact L1|].
    intros n Hn. fold w2 in Hn.
    specialize (Mono n (clockReads w2)). lia. }
  destruct (getPredictions up2 loc2 wts2 w2) as [r w'] eqn:H2.
  apply getPredictions_cases in H2. simpl in H2.
  destruct (initialize_run w2) as (wi & Hi & _ & _ & _ & _ & _ & Same).
  rewrite Hi in H2. simpl in H2. rewrite (Same I2) in H2.
  rewrite <- K in H2.
  destruct H2 as [(c0 & L0 & _ & -> & ->)|(ws & Hws & _)].
  - assert (c0 = c) by congruence. subst c0. rewrite P. reflexivity.
  - exfalso. destruct Hws as [(N & _)|(c0 & L0 & X & _)]; [congruence|].
    assert (c0 = c) by congruence. subst c0. lia.
Qed.

(** *** Scoring and ranking *)

Lemma calculateTrainScore_setScore pass launch s :
  calculateTrainScore (setScore pass s) launch = calculateTrainScore pass launch.
Proof. reflexivity. Qed.

Lemma calculatePasses_scores up satellites location launch (w : World) passes w' :
  calculatePasses up satellites location launch w = (Ok passes, w') ->
  Forall (fun p => score p = weightedScore DEFAULT_WEIGHTS p launch) passes.
Proof.
  unfold calculatePasses. intros H.
  apply bind_Ok in H. destruct H as (valid & wv & _ & H).
  destruct (length valid =? 0)%nat.
  - injection H as <- <-. constructor.
  - apply bind_Ok in H. destruct H as (booster & wb & _ & H).
    apply bind_Ok in H. destruct H as (raw & wr & _ & H).
    injection H as <- <-.
    apply List.Forall_forall. intros p Hp.
    apply (proj1 (sortBy_In score _ _)) in Hp. apply in_map_iff in Hp.
    destruct Hp as (p0 & <- & _). reflexivity.
Qed.

(** C5. The weights handed to [getPredictions] do not reach the result:
    the call, and the fresh computation inside it, are the same function of
    their other arguments for any two weight arguments, given or omitted;
    the scorer is the weighted sum at [DEFAULT_WEIGHTS], and that is the score
    of every pass [calculatePasses] returns. *)
Theorem weights_are_ignored up location (wa wb : option PredictionWeights) (w : World) :
  calculateFreshPredictions up location wa w = calculateFreshPredictions up location wb w /\
  getPredictions up location wa w = getPredictions up location wb w /\
  (forall pass launch,
     calculateTrainScore pass launch = weightedScore DEFAULT_WEIGHTS pass launch) /\
  (forall satellites launch passes w',
     calculatePasses up satellites location launch w = (Ok passes, w') ->
     Forall (fun p => score p = weightedScore DEFAULT_WEIGHTS p launch) passes).
Proof.
  split; [reflexivity|]. split; [reflexivity|]. split; [reflexivity|].
  intros satellites launch passes w'. apply calculatePasses_scores.
Qed.

(** *** The quality report *)

Lemma getLaunchAndSatelliteData_keys up (w : World) launches satelliteMap w1 :
  snapshot_wf w ->
  getLaunchAndSatelliteData up w = (Ok (launches, satelliteMap), w1) ->
  keysWithin launches satelliteMap.
Proof.
  intros Hw.
  assert (Hmiss : forall ws,
    (let! launches := lift (getRecentStarlinkLaunches up) in
     let! satelliteMap := fetchSatelliteMap up launches in
     let! timestamp := newDate in
     let! now := newDate in
     set_launchCache
       (Some {| lc_launches := launches; lc_satellites := satelliteMap;
                lc_timestamp := timestamp;
                lc_expiresAt := now + LAUNCH_CACHE_DURATION_MS |});;
     ret (launches, satelliteMap)) ws = (Ok (launches, satelliteMap), w1) ->
    keysWithin launches satelliteMap).
  { intros ws H.
    apply bind_Ok in H. destruct H as (ls & wa & _ & H).
    apply bind_Ok in H. destruct H as (m & wb & F & H).
    apply fetchSatelliteMap_keys in F.
    unfold bind, newDate, set_launchCache, ret in H. simpl in H.
    injection H as <- <- _. exact F. }
  unfold getLaunchAndSatelliteData. unfold bind at 1, get at 1.
  destruct (launchCache w) as [c|] eqn:L.
  - unfold bind at 1. unfold bind at 1. unfold newDate at 1. unfold ret at 1.
    destruct (lc_expiresAt c >? Date_now (clockReads w)).
    + unfold ret. intros [= <- <- _]. apply Hw. exact L.
    + apply Hmiss.
  - unfold bind at 1. unfold ret at 1. apply Hmiss.
Qed.

(** C10. [getPredictionQuality] always returns a report; when the snapshot
    cannot be had, the report is "poor" with the one factor "Unable to assess
    prediction quality" and the advice to try again. *)
Theorem getPredictionQuality_total up location (w : World) :
  (exists r w', getPredictionQuality up location w = (Ok r, w')) /\
  (forall e w1,
     getLaunchAndSatelliteData up w = (Throw e, w1) ->
     getPredictionQuality up location w =
       (Ok {| quality := poor;
              factors := ["Unable to assess prediction quality"];
              recommendations := ["Check your internet connection and try again"] |},
        w1)).
Proof.
  unfold getPredictionQuality, tryCatch. split.
  - match goal with |- context [match ?m w with _ => _ end] => destruct (m w) as [[r|e] w'] end;
      unfold ret; eauto.
  - intros e w1 H. unfold bind at 1. rewrite H. reflexivity.
Qed.

Lemma keysWithin_nil satelliteMap : keysWithin [] satelliteMap -> satelliteMap = [].
Proof.
  unfold keysWithin. destruct satelliteMap as [|kv m]; [reflexivity|].
  intros H. inversion H as [|? ? []].
Qed.

(** C4, as the code has it. With no launch in the snapshot the report names
    the missing launches and the score is 50, plus 5 above 60 degrees of
    latitude, minus 5 below 30: the quality is "poor" below 30 degrees and
    "fair" everywhere else. *)
Theorem getPredictionQuality_no_launches up location (w : World) satelliteMap w1 :
  Reachable w ->
  getLaunchAndSatelliteData up w = (Ok ([], satelliteMap), w1) ->
  exists r,
    getPredictionQuality up location w = (Ok r, w1) /\
    In "No recent Starlink launches found" (factors r) /\
    quality r = if ltb (Qabs (lat location)) 30 then poor else fair.
Proof.
  intros Hr H.
  pose proof (getLaunchAndSatelliteData_keys up w [] satelliteMap w1
                (Reachable_wf w Hr) H) as K.
  apply keysWithin_nil in K. subst satelliteMap.
  unfold getPredictionQuality, tryCatch. unfold bind at 1. rewrite H.
  unfold bind, ret, countSatellites. simpl.
  destruct (gtb (Qabs (lat location)) 60) eqn:G.
  - assert (ltb (Qabs (lat location)) 30 = false) as ->.
    { apply gtb_iff in G. apply gtb_false_iff.
      apply Qlt_le_weak. eapply Qlt_trans; [|exact G]. reflexivity. }
    eexists. split; [reflexivity|]. simpl. auto.
  - destruct (ltb (Qabs (lat location)) 30);
      eexists; (split; [reflexivity|]); simpl; auto.
Qed.

(** *** The pass finder *)

Lemma sampleAt_time satrec observerGd t point visible :
  sampleAt satrec observerGd t = Some (point, visible) -> pt_time point = t.
Proof.
  unfold sampleAt. destruct (propagate satrec t); [|discriminate].
  intros [= <- _]. reflexivity.
Qed.

Lemma peak_of_fold (rest : list Point) (firstPoint : Point) :
  let peakPoint :=
    fold_left
      (fun max point =>
         if gtb (pt_elevation point) (pt_elevation max) then point else max)
      rest firstPoint in
  In peakPoint (firstPoint :: rest) /\
  forall q, In q (firstPoint :: rest) -> (pt_elevation q <= pt_elevation peakPoint)%Q.
Proof.
  revert firstPoint. induction rest as [|x rest IH]; intros firstPoint; simpl.
  - split; [auto|]. intros q [<-|[]]. apply Qle_refl.
  - specialize (IH (if gtb (pt_elevation x) (pt_elevation firstPoint)
                    then x else firstPoint)).
    simpl in IH. destruct IH as (Hin & Hmax).
    destruct (gtb (pt_elevation x) (pt_elevation firstPoint)) eqn:G.
    + apply gtb_iff in G. split.
      * destruct Hin as [<-|Hin]; auto.
      * intros q [<-|[<-|Hq]].
        -- eapply Qle_trans; [apply Qlt_le_weak, G|]. apply Hmax. auto.
        -- apply Hmax. auto.
        -- apply Hmax. auto.
    + apply gtb_false_iff in G. split.
      * destruct Hin as [<-|Hin]; auto.
      * intros q [<-|[<-|Hq]].
        -- apply Hmax. auto.
        -- eapply Qle_trans; [exact G|]. apply Hmax. auto.
        -- apply Hmax. auto.
Qed.

Lemma sorted_snoc {A} (R : A -> A -> Prop) (l : list A) (x : A) :
  StronglySorted R l -> Forall (fun a => R a x) l -> StronglySorted R (l ++ [x]).
Proof.
  induction 1 as [|a l Hs IH Ha]; intros Hx; simpl.
  - constructor; constructor.
  - inversion Hx as [|? ? Hax Hlx]; subst. constructor; [auto|].
    apply Forall_app. split; [exact Ha|]. constructor; [exact Hax|constructor].
Qed.

Lemma last_default {A} (l : list A) (d d' : A) :
  l <> [] -> List.last l d = List.last l d'.
Proof.
  induction l as [|a l IH]; [congruence|]. intros _.
  destruct l as [|b l]; [reflexivity|].
  change (List.last (b :: l) d = List.last (b :: l) d').
  apply IH. discriminate.
Qed.

Lemma sorted_first_last (firstPoint : Point) (rest : list Point) (q : Point) :
  StronglySorted (fun a b => pt_time a < pt_time b) (firstPoint :: rest) ->
  In q (firstPoint :: rest) ->
  pt_time firstPoint <= pt_time q <= pt_time (List.last (firstPoint :: rest) firstPoint).
Proof.
  revert firstPoint q. induction rest as [|x rest IH]; intros firstPoint q Hs Hq.
  - destruct Hq as [<-|[]]. simpl. lia.
  - inversion Hs as [|? ? Hs' Hf]; subst.
    inversion Hf as [|? ? Hfx Hfr]; subst.
    change (List.last (firstPoint :: x :: rest) firstPoint)
      with (List.last (x :: rest) firstPoint).
    rewrite (last_default (x :: rest) firstPoint x) by discriminate.
    destruct Hq as [<-|Hq].
    + specialize (IH x x Hs' (or_introl eq_refl)). lia.
    + specialize (IH x q Hs' Hq). lia.
Qed.

Lemma createPassFromPoints_short sat launch passStart0 points boosterInfo0 (w : World) :
  (length points < 2)%nat ->
  createPassFromPoints sat launch passStart0 points boosterInfo0 w = (Ok None, w).
Proof.
  intros H. unfold createPassFromPoints.
  apply Nat.ltb_lt in H. rewrite H. reflexivity.
Qed.

Lemma createPassFromPoints_emitted satrec observerGd now endTime sat launch
    firstPoint rest boosterInfo0 (w : World) pass w' :
  buffered satrec observerGd now endTime firstPoint rest ->
  createPassFromPoints sat launch (pt_time firstPoint) (firstPoint :: rest)
    boosterInfo0 w = (Ok (Some pass), w') ->
  emitted satrec observerGd now endTime pass.
Proof.
  intros Hb. unfold createPassFromPoints.
  destruct (length (firstPoint :: rest) <? 2)%nat eqn:Len; [discriminate|].
  apply Nat.ltb_ge in Len.
  unfold bind, random, ret. intros [= <- _].
  destruct (peak_of_fold rest firstPoint) as (Hin & Hmax).
  pose proof Hb as (Hvis & Hsorted & Hall).
  split.
  - simpl start. simpl peak. simpl end_.
    exact (sorted_first_last firstPoint rest _ Hsorted Hin).
  - eexists firstPoint, rest, _. split; [exact Hb|].
    split; [exact Len|]. split; [exact Hin|]. split; [exact Hmax|].
    simpl. repeat split; reflexivity.
Qed.

Lemma onGrid_next (now t : Z) :
  onGrid now t -> onGrid now (t + PREDICTION_STEP_SECONDS * 1000).
Proof.
  unfold onGrid, PREDICTION_STEP_SECONDS. intros (H1 & H2). split; [lia|].
  apply Z.mod_divide in H2; [|lia]. apply Z.mod_divide; [lia|].
  destruct H2 as (k & Hk). exists (k + 1). lia.
Qed.

Lemma onGrid_between (now t t' : Z) :
  onGrid now t -> onGrid now t' ->
  t <= t' < t + PREDICTION_STEP_SECONDS * 1000 -> t' = t.
Proof.
  unfold onGrid, PREDICTION_STEP_SECONDS. intros (_ & H1) (_ & H2) B.
  apply Z.mod_divide in H1; [|lia]. apply Z.mod_divide in H2; [|lia].
  destruct H1 as (k & Hk). destruct H2 as (k' & Hk'). lia.
Qed.

Lemma scanning_later satrec observerGd now endTime t st :
  scanning satrec observerGd now endTime t st ->
  (forall q v, sampleAt satrec observerGd t <> Some (q, v)) ->
  scanning satrec observerGd now endTime (t + PREDICTION_STEP_SECONDS * 1000) st.
Proof.
  intros (Hg & Hp & Hin) Hnone. split; [apply onGrid_next, Hg|].
  split; [exact Hp|].
  intros I. destruct (Hin I) as (f & r & Hs & Hpts & Hv & Hso & Hlt & Hall).
  exists f, r. split; [exact Hs|]. split; [exact Hpts|].
  split; [exact Hv|]. split; [exact Hso|]. split.
  - eapply Forall_impl; [exact Hlt|]. simpl. intros q Hq.
    unfold PREDICTION_STEP_SECONDS. lia.
  - intros t1 q v G B S1. destruct (Z_lt_dec t1 t) as [L|L].
    + apply (Hall t1 q v G); [lia|exact S1].
    + assert (t1 = t) by (apply (onGrid_between now); [assumption..|lia]).
      subst t1. exfalso. exact (Hnone q v S1).
Qed.

(** Closing the buffer: what both call sites of [createPassFromPoints] do. *)
Lemma close_pass satrec observerGd now endTime sat launch boosterInfo0 t st
    (w : World) passes' w' :
  scanning satrec observerGd now endTime t st ->
  inPass st = true ->
  match passStart st with
  | Some passStart0 =>
      if (0 <? length (passPoints st))%nat then
        let! pass :=
          createPassFromPoints sat launch passStart0 (passPoints st) boosterInfo0 in
        ret match pass with
            | Some pass => passes st ++ [pass]
            | None => passes st
            end
      else ret (passes st)
  | None => ret (passes st)
  end w = (Ok passes', w') ->
  Forall (emitted satrec observerGd now endTime) passes'.
Proof.
  intros (Hg & Hp & Hin) I.
  destruct (Hin I) as (f & r & Hs & Hpts & Hv & Hso & Hlt & Hall).
  rewrite Hs, Hpts. simpl. intros H.
  apply bind_Ok in H. destruct H as ([pass|] & w1 & Hc & H);
    unfold ret in H; injection H as <- <-; [|exact Hp].
  apply Forall_app. split; [exact Hp|]. constructor; [|constructor].
  rewrite Hpts in Hv, Hso, Hlt, Hall.
  eapply createPassFromPoints_emitted; [|exact Hc].
  split; [exact Hv|]. split; [exact Hso|].
  intros t1 q v G B S. apply (Hall t1 q v G); [|exact S].
  split; [lia|].
  assert (Hl : In (List.last (f :: r) f) (f :: r)).
  { destruct (exists_last (l := f :: r)) as (l' & a & E); [discriminate|].
    rewrite E. rewrite last_last. apply in_or_app. right. left. reflexivity. }
  rewrite List.Forall_forall in Hlt. specialize (Hlt _ Hl). lia.
Qed.

Lemma scanStep_scanning satrec observerGd now endTime sat launch boosterInfo0 t st
    (w : World) st' w' :
  t <= endTime ->
  scanning satrec observerGd now endTime t st ->
  scanStep sat launch boosterInfo0 satrec observerGd t st w = (Ok st', w') ->
  scanning satrec observerGd now endTime (t + PREDICTION_STEP_SECONDS * 1000) st'.
Proof.
  intros Hend Hinv. unfold scanStep.
  destruct (sampleAt satrec observerGd t) as [[point [|]]|] eqn:S.
  - pose proof (sampleAt_time _ _ _ _ _ S) as Ht.
    unfold ret. intros [= <- <-].
    destruct Hinv as (Hg & Hp & Hin).
    assert (Hsam : sampled satrec observerGd now endTime point).
    { unfold sampled. rewrite Ht. auto. }
    split; [apply onGrid_next, Hg|]. split.
    { destruct (inPass st); exact Hp. }
    destruct (inPass st) eqn:I; simpl; intros _.
    + destruct (Hin eq_refl) as (f & r & Hs & Hpts & Hv & Hso & Hlt & Hall).
      exists f, (r ++ [point]). split; [exact Hs|].
      split; [rewrite Hpts; reflexivity|]. split; [|split; [|split]].
      * apply Forall_app. split; [exact Hv|]. constructor; [exact Hsam|constructor].
      * apply sorted_snoc; [exact Hso|].
        eapply Forall_impl; [exact Hlt|]. simpl. intros q Hq. lia.
      * apply Forall_app. split.
        -- eapply Forall_impl; [exact Hlt|]. simpl. intros q Hq.
           unfold PREDICTION_STEP_SECONDS. lia.
        -- constructor; [|constructor]. unfold PREDICTION_STEP_SECONDS. lia.
      * intros t1 q v G B S1. destruct (Z_lt_dec t1 t) as [L|L].
        -- destruct (Hall t1 q v G) as (-> & Hq); [lia|exact S1|].
           split; [reflexivity|]. apply in_or_app. left. exact Hq.
        -- assert (t1 = t) by (apply (onGrid_between now); [assumption..|lia]).
           subst t1. rewrite S in S1. injection S1 as <- <-.
           split; [reflexivity|]. apply in_or_app. right. left. reflexivity.
    + exists point, []. rewrite Ht. split; [reflexivity|]. split; [reflexivity|].
      split; [constructor; [exact Hsam|constructor]|].
      split; [constructor; constructor|]. split.
      * constructor; [|constructor]. unfold PREDICTION_STEP_SECONDS. lia.
      * intros t1 q v G B S1.
        assert (t1 = t) by (apply (onGrid_between now); [assumption..|lia]).
        subst t1. rewrite S in S1. injection S1 as <- <-.
        split; [reflexivity|]. left. reflexivity.
  - destruct (inPass st) eqn:I.
    + intros H. apply bind_Ok in H. destruct H as (passes' & w1 & Hc & H).
      unfold ret in H. injection H as <- <-.
      split; [apply onGrid_next, Hinv|]. split; simpl; [|discriminate].
      eapply close_pass; eassumption.
    + unfold ret. intros [= <- <-].
      destruct Hinv as (Hg & Hp & Hin).
      split; [apply onGrid_next, Hg|]. split; [exact Hp|].
      rewrite I. discriminate.
  - unfold ret. intros [= <- <-]. apply scanning_later; [exact Hinv|].
    intros q v. rewrite S. discriminate.
Qed.

Lemma scanLoop_scanning fuel satrec observerGd now sat launch boosterInfo0 endTime :
  forall t st (w : World) st' w',
    scanning satrec observerGd now endTime t st ->
    scanLoop fuel sat launch boosterInfo0 satrec observerGd endTime t st w = (Ok st', w') ->
    exists t', scanning satrec observerGd now endTime t' st'.
Proof.
  induction fuel as [|fuel IH]; intros t st w st' w' Hinv; simpl.
  - destruct (t <=? endTime); unfold ret; intros [= <- <-]; eauto.
  - destruct (t <=? endTime) eqn:E; [|unfold ret; intros [= <- <-]; eauto].
    apply Z.leb_le in E.
    intros H. apply bind_Ok in H. destruct H as (st1 & w1 & Hs & H).
    eapply IH; [|exact H].
    eapply scanStep_scanning; eassumption.
Qed.

(** The fuel of the scan covers the horizon: more of it changes nothing. *)
Lemma scanLoop_fuel fuel sat launch boosterInfo0 satrec observerGd endTime :
  forall t st extra (w : World),
    endTime - t < Z.of_nat fuel * (PREDICTION_STEP_SECONDS * 1000) ->
    scanLoop (fuel + extra) sat launch boosterInfo0 satrec observerGd endTime t st w
    = scanLoop fuel sat launch boosterInfo0 satrec observerGd endTime t st w.
Proof.
  induction fuel as [|fuel IH]; intros t st extra w Hf.
  - simpl in Hf. destruct extra; simpl; [reflexivity|].
    destruct (t <=? endTime) eqn:E; [|reflexivity].
    apply Z.leb_le in E. lia.
  - simpl. destruct (t <=? endTime); [|reflexivity].
    unfold bind.
    destruct (scanStep sat launch boosterInfo0 satrec observerGd t st w)
      as [[st1|e] w1]; [|reflexivity].
    apply IH. unfold PREDICTION_STEP_SECONDS in *. lia.
Qed.

Lemma scanFuel_covers (now : Z) :
  (now + PREDICTION_DAYS * 24 * 60 * 60 * 1000) - now
  < Z.of_nat scanFuel * (PREDICTION_STEP_SECONDS * 1000).
Proof.
  unfold scanFuel, PREDICTION_DAYS, PREDICTION_STEP_SECONDS.
  replace (now + 7 * 24 * 60 * 60 * 1000 - now) with 604800000 by lia.
  vm_compute. reflexivity.
Qed.

(** C2. Every pass the pass finder returns has start <= peak <= end and is
    the pass of a buffer of at least two visible samples of the scan, taken at
    increasing instants with nothing of the scan left out between the first
    and the last: its peak is a sample of the buffer no other sample exceeds
    in elevation, its start and first azimuth are the first sample's, its end
    and last azimuth the last sample's.  A buffer of fewer than two samples
    makes no pass, at the horizon as anywhere else. *)
Theorem calculateSatellitePasses_emits sat location launch boosterInfo0 (w : World)
    passes w' :
  calculateSatellitePasses sat location launch boosterInfo0 w = (Ok passes, w') ->
  (exists satrec,
     twoline2satrec (tle1 sat) (tle2 sat) = Some satrec /\
     let now := Date_now (clockReads w) in
     let endTime := now + PREDICTION_DAYS * 24 * 60 * 60 * 1000 in
     Forall (emitted satrec (observerOf location) now endTime) passes) /\
  (forall passStart0 points w0,
     (length points < 2)%nat ->
     createPassFromPoints sat launch passStart0 points boosterInfo0 w0 = (Ok None, w0)).
Proof.
  intros H. split; [|intros; apply createPassFromPoints_short; assumption].
  unfold calculateSatellitePasses in H.
  destruct (twoline2satrec (tle1 sat) (tle2 sat)) as [satrec|]; [|discriminate].
  exists satrec. split; [reflexivity|].
  fold (observerOf location) in H.
  unfold bind at 1, newDate at 1 in H.
  apply bind_Ok in H. destruct H as (st & w2 & Hloop & H).
  apply (scanLoop_scanning _ _ _ (Date_now (clockReads w))) in Hloop.
  2:{ split.
      - split; [lia|]. rewrite Z.sub_diag. reflexivity.
      - split; simpl; [constructor|discriminate]. }
  destruct Hloop as (t' & Hinv). simpl.
  destruct (inPass st) eqn:I.
  - destruct (passStart st) as [ps|] eqn:P.
    + eapply close_pass; [exact Hinv|exact I|]. rewrite P. exact H.
    + unfold ret in H. injection H as <- <-. apply Hinv.
  - destruct (passStart st); unfold ret in H; injection H as <- <-; apply Hinv.
Qed.

(** * More of the engine *)

(** *** Computations that return *)

Lemma succeeds_ret {A} (a : A) : succeeds (ret a).
Proof. intros w. exists a, w. reflexivity. Qed.

Lemma succeeds_get : succeeds get.
Proof. intros w. exists w, w. reflexivity. Qed.

Lemma succeeds_newDate : succeeds newDate.
Proof. intros w. eexists _, _. reflexivity. Qed.

Lemma succeeds_random : succeeds random.
Proof. intros w. eexists _, _. reflexivity. Qed.

Lemma succeeds_bind {A B} (m : M A) (k : A -> M B) :
  succeeds m -> (forall a, succeeds (k a)) -> succeeds (bind m k).
Proof.
  intros Hm Hk w. unfold bind. destruct (Hm w) as (a & w1 & ->). apply Hk.
Qed.

(** A [catch] that returns makes the whole [try] return. *)
Lemma succeeds_tryCatch {A} (m : M A) (h : string -> M A) :
  (forall e, succeeds (h e)) -> succeeds (tryCatch m h).
Proof.
  intros Hh w. unfold tryCatch. destruct (m w) as [[a|e] w1]; [eauto|apply Hh].
Qed.

Lemma succeeds_filterM {A} (f : A -> M bool) (l : list A) :
  (forall a, succeeds (f a)) -> succeeds (filterM f l).
Proof.
  intros Hf. induction l as [|x l IH]; simpl.
  - apply succeeds_ret.
  - apply succeeds_bind; [apply Hf|]. intros keep.
    apply succeeds_bind; [apply IH|]. intros rest. apply succeeds_ret.
Qed.

Lemma succeeds_forEachM {A S} (body : A -> S -> M S) (l : list A) (s : S) :
  (forall a s, succeeds (body a s)) -> succeeds (forEachM body l s).
Proof.
  intros Hb. revert s. induction l as [|x l IH]; intros s; simpl.
  - apply succeeds_ret.
  - apply succeeds_bind; [apply Hb|]. intros s'. apply IH.
Qed.

Ltac returns :=
  repeat first
    [ apply succeeds_ret | apply succeeds_get | apply succeeds_newDate
    | apply succeeds_random | assumption
    | apply succeeds_tryCatch; intros ?
    | apply succeeds_bind; [|intros ?]
    | apply succeeds_filterM; intros ?
    | apply succeeds_forEachM; intros ? ?
    | match goal with
      | |- succeeds (if ?b then _ else _) => destruct b
      | |- succeeds (match ?x with _ => _ end) => destruct x
      end ].

Lemma succeeds_isTleFresh (epoch : string) : succeeds (isTleFresh epoch).
Proof. unfold isTleFresh. returns. Qed.

Lemma succeeds_createPassFromPoints sat launch passStart0 points boosterInfo0 :
  succeeds (createPassFromPoints sat launch passStart0 points boosterInfo0).
Proof. unfold createPassFromPoints. returns. Qed.

Lemma succeeds_scanStep sat launch boosterInfo0 satrec observerGd currentTime st :
  succeeds (scanStep sat launch boosterInfo0 satrec observerGd currentTime st).
Proof. unfold scanStep. returns; apply succeeds_createPassFromPoints. Qed.

Lemma succeeds_scanLoop fuel sat launch boosterInfo0 satrec observerGd endTime :
  forall currentTime st,
    succeeds
      (scanLoop fuel sat launch boosterInfo0 satrec observerGd endTime currentTime st).
Proof.
  induction fuel as [|fuel IH]; intros currentTime st; simpl.
  - returns.
  - destruct (currentTime <=? endTime); [|returns].
    apply succeeds_bind; [apply succeeds_scanStep|]. intros st'. apply IH.
Qed.

Lemma succeeds_filterValidSatellites satellites :
  succeeds (filterValidSatellites satellites).
Proof.
  unfold filterValidSatellites. apply succeeds_filterM. intros sat0.
  destruct (negb (isValidTle (tle1 sat0) (tle2 sat0))); [returns|].
  apply succeeds_bind; [apply succeeds_isTleFresh|intros; returns].
Qed.

Lemma succeeds_calculatePasses up satellites location launch :
  succeeds (calculatePasses up satellites location launch).
Proof.
  unfold calculatePasses. apply succeeds_bind.
  { apply succeeds_filterM. intros sat0.
    destruct (isValidTle (tle1 sat0) (tle2 sat0)); [apply succeeds_isTleFresh|returns]. }
  intros valid. destruct (length valid =? 0)%nat; [returns|].
  apply succeeds_bind.
  { destruct (cores launch) as [|[[id|] fl] rest]; returns. }
  intros boosterInfo0. apply succeeds_bind; [|intros; returns].
  apply succeeds_forEachM. intros sat0 acc. apply succeeds_tryCatch. intros e. returns.
Qed.

Lemma succeeds_processLaunch up location satelliteMap launch allPasses :
  succeeds (processLaunch up location satelliteMap launch allPasses).
Proof. unfold processLaunch. apply succeeds_tryCatch. intros e. returns. Qed.

Lemma succeeds_batchLoop fuel up location launches satelliteMap :
  forall i allPasses,
    succeeds (batchLoop fuel up location launches satelliteMap i allPasses).
Proof.
  induction fuel as [|fuel IH]; intros i allPasses; simpl.
  - returns.
  - destruct (i <? length launches)%nat; [|returns].
    apply succeeds_bind; [|intros; apply IH].
    apply succeeds_forEachM. intros. apply succeeds_processLaunch.
Qed.

Lemma succeeds_fetchSatelliteMap up launches : succeeds (fetchSatelliteMap up launches).
Proof.
  unfold fetchSatelliteMap. apply succeeds_forEachM. intros launch m.
  apply succeeds_tryCatch. intros e. returns.
Qed.

(** *** The snapshot cache *)

Lemma getLaunchAndSatelliteData_unfold up (w : World) :
  getLaunchAndSatelliteData up w =
  match launchCache w with
  | Some c =>
      if lc_expiresAt c >? Date_now (clockReads w)
      then (Ok (lc_launches c, lc_satellites c), tick w)
      else refreshSnapshot up (tick w)
  | None => refreshSnapshot up w
  end.
Proof.
  unfold getLaunchAndSatelliteData. unfold bind at 1, get at 1.
  destruct (launchCache w) as [c|].
  - unfold bind at 1. unfold bind at 1. unfold newDate at 1. unfold ret at 1.
    destruct (lc_expiresAt c >? Date_now (clockReads w)); reflexivity.
  - unfold bind at 1. unfold ret at 1. reflexivity.
Qed.

Lemma Map_get_set_eq {V} (k : string) (v : V) (m : list (string * V)) :
  Map_get k (Map_set k v m) = Some v.
Proof.
  induction m as [|[k' v'] m IH]; simpl.
  - rewrite String.eqb_refl. reflexivity.
  - destruct (String.eqb k' k) eqn:E; simpl; rewrite E; [reflexivity|exact IH].
Qed.

Lemma Map_get_set_ne {V} (k k0 : string) (v : V) (m : list (string * V)) :
  k0 <> k -> Map_get k0 (Map_set k v m) = Map_get k0 m.
Proof.
  intros N. induction m as [|[k' v'] m IH]; simpl.
  - destruct (String.eqb k k0) eqn:E; [|reflexivity].
    apply String.eqb_eq in E. congruence.
  - destruct (String.eqb k' k) eqn:E; simpl.
    + apply String.eqb_eq in E. subst k'.
      destruct (String.eqb k k0) eqn:E0; [|reflexivity].
      apply String.eqb_eq in E0. congruence.
    + destruct (String.eqb k' k0); [reflexivity|exact IH].
Qed.

(** The satellite fetches change nothing in the world and never fail; the
    map they build answers each launch with what the provider gave. *)
Lemma fetchSatelliteMap_run up launches (w : World) :
  exists satelliteMap,
    fetchSatelliteMap up launches w = (Ok satelliteMap, w) /\
    keysWithin launches satelliteMap /\
    forall launch, In launch launches ->
      Map_get (launch_id launch) satelliteMap = Some (provided up (launch_id launch)).
Proof.
  unfold fetchSatelliteMap.
  assert (G : forall ls acc,
    exists m,
      forEachM
        (fun launch satelliteMap =>
           tryCatch
             (let! satellites := lift (getStarlinkSatellites up (launch_id launch)) in
              ret (Map_set (launch_id launch) satellites satelliteMap))
             (fun _ => ret (Map_set (launch_id launch) [] satelliteMap)))
        ls acc w = (Ok m, w) /\
      (forall ids, Forall (fun kv => In (fst kv) ids) acc ->
                   (forall l, In l ls -> In (launch_id l) ids) ->
                   Forall (fun kv => In (fst kv) ids) m) /\
      (forall id,
         (In id (map launch_id ls) \/ Map_get id acc = Some (provided up id)) ->
         Map_get id m = Some (provided up id))).
  { induction ls as [|l ls IH]; intros acc; simpl.
    - exists acc. split; [reflexivity|]. split; [auto|].
      intros id [[]|H]. exact H.
    - unfold bind at 1. unfold tryCatch at 1. unfold bind at 1, lift at 1, ret at 1.
      set (acc' := Map_set (launch_id l) (provided up (launch_id l)) acc).
      assert (E : (match
                     match getStarlinkSatellites up (launch_id l) with
                     | Ok a => (Ok (Map_set (launch_id l) a acc), w)
                     | Throw e => (@Throw (list (string * list StarlinkSat)) e, w)
                     end
                   with
                   | (Ok a, w') => (Ok a, w')
                   | (Throw e, w') => ret (Map_set (launch_id l) [] acc) w'
                   end) = (Ok acc', w)).
      { unfold acc', provided, ret.
        destruct (getStarlinkSatellites up (launch_id l)); reflexivity. }
      rewrite E. destruct (IH acc') as (m & Hm & Hk & Hg).
      exists m. split; [exact Hm|]. split.
      + intros ids Hacc Hls. apply Hk.
        * apply Map_set_keys; [apply Hls; left; reflexivity|exact Hacc].
        * intros l0 H0. apply Hls. right. exact H0.
      + intros id H. apply Hg.
        destruct (string_dec id (launch_id l)) as [->|N].
        * right. apply Map_get_set_eq.
        * destruct H as [[H|H]|H]; [congruence|left; exact H|].
          right. unfold acc'. rewrite Map_get_set_ne by exact N. exact H. }
  destruct (G launches []) as (m & Hm & Hk & Hg).
  exists m. split; [exact Hm|]. split.
  - apply Hk; [constructor|]. intros l Hl. apply in_map. exact Hl.
  - intros launch Hl. apply Hg. left. apply in_map. exact Hl.
Qed.

Lemma refreshSnapshot_run up (w : World) :
  match getRecentStarlinkLaunches up with
  | Throw e => refreshSnapshot up w = (Throw e, w)
  | Ok launches =>
      exists satelliteMap,
        fetchSatelliteMap up launches w = (Ok satelliteMap, w) /\
        refreshSnapshot up w =
          (Ok (launches, satelliteMap),
           withSnapshot
             {| lc_launches := launches; lc_satellites := satelliteMap;
                lc_timestamp := Date_now (clockReads w);
                lc_expiresAt := Date_now (S (clockReads w)) + LAUNCH_CACHE_DURATION_MS |}
             (tick (tick w)))
  end.
Proof.
  unfold refreshSnapshot. unfold bind at 1, lift at 1.
  destruct (getRecentStarlinkLaunches up) as [launches|e]; [|reflexivity].
  destruct (fetchSatelliteMap_run up launches w) as (m & Hm & _).
  exists m. split; [exact Hm|].
  unfold bind at 1. rewrite Hm. reflexivity.
Qed.

(** The engine above the snapshot, for any relation the snapshot fetch
    keeps. *)
Section AmbientEngine.

Variable R : World -> World -> Prop.
Hypothesis R_refl : forall w, R w w.
Hypothesis R_trans : forall a b c, R a b -> R b c -> R a c.
Hypothesis R_tick : forall w, R w (tick w).
Hypothesis R_drew : forall w, R w (drew w).
Hypothesis R_snapshot : forall up, preserves R (getLaunchAndSatelliteData up).

Lemma preserves_calculateFreshPredictions up location weights :
  preserves R (calculateFreshPredictions up location weights).
Proof.
  unfold calculateFreshPredictions.
  apply (preserves_bind R R_trans); [apply R_snapshot|].
  intros [launches satelliteMap].
  destruct (length launches =? 0)%nat; [apply (preserves_ret R R_refl)|].
  apply (preserves_bind R R_trans).
  - apply (preserves_batchLoop R R_refl R_trans R_tick R_drew).
  - intros allPasses. apply (preserves_ret R R_refl).
Qed.

Lemma preserves_getPredictionQuality up location :
  preserves R (getPredictionQuality up location).
Proof.
  unfold getPredictionQuality.
  apply (preserves_tryCatch R R_trans); [|intros; apply (preserves_ret R R_refl)].
  apply (preserves_bind R R_trans); [apply R_snapshot|].
  intros [launches satelliteMap].
  apply (preserves_bind R R_trans).
  { destruct launches; [apply (preserves_ret R R_refl)|].
    apply (preserves_bind R R_trans); [apply (preserves_newDate R R_tick)|].
    intros now. destruct (Date_parse (date_utc l)); [|apply (preserves_ret R R_refl)].
    repeat match goal with
           | |- preserves _ (if ?b then _ else _) => destruct b
           end; apply (preserves_ret R R_refl). }
  intros [[factors1 recommendations1] qualityScore1].
  apply (preserves_bind R R_trans).
  { apply (preserves_countSatellites R R_refl R_trans R_tick). }
  intros [[total valid] stale].
  repeat match goal with
         | |- preserves _ (if ?b then _ else _) => destruct b
         | |- preserves _ (match ?x with _ => _ end) => destruct x
         end; apply (preserves_ret R R_refl).
Qed.

Lemma preserves_getCacheStats : preserves R getCacheStats.
Proof.
  unfold getCacheStats.
  apply (preserves_bind R R_trans); [apply (preserves_get R R_refl)|]. intros w0.
  apply (preserves_bind R R_trans); [|intros; apply (preserves_ret R R_refl)].
  destruct (launchCache w0); [|apply (preserves_ret R R_refl)].
  apply (preserves_bind R R_trans); [apply (preserves_newDate R R_tick)|].
  intros now. apply (preserves_ret R R_refl).
Qed.

End AmbientEngine.

(** *** A live snapshot outlives the calls made before it expires *)

Lemma keepsSnapshot_refl c (w : World) : keepsSnapshot c w w.
Proof. unfold keepsSnapshot. auto. Qed.

Lemma keepsSnapshot_trans c (w1 w2 w3 : World) :
  keepsSnapshot c w1 w2 -> keepsSnapshot c w2 w3 -> keepsSnapshot c w1 w3.
Proof.
  unfold keepsSnapshot. intros (C1 & K1) (C2 & K2). split; [lia|].
  intros L B. apply K2; [|exact B]. apply K1; [exact L|].
  intros n Hn. apply B. lia.
Qed.

Lemma keepsSnapshot_tick c (w : World) : keepsSnapshot c w (tick w).
Proof. unfold keepsSnapshot. simpl. auto. Qed.

Lemma keepsSnapshot_drew c (w : World) : keepsSnapshot c w (drew w).
Proof. unfold keepsSnapshot. simpl. auto. Qed.

Lemma refreshSnapshot_reads up (w : World) :
  (clockReads w <= clockReads (snd (refreshSnapshot up w)))%nat.
Proof.
  pose proof (refreshSnapshot_run up w) as H.
  destruct (getRecentStarlinkLaunches up) as [launches|e].
  - destruct H as (m & _ & ->). simpl. lia.
  - rewrite H. simpl. lia.
Qed.

Lemma keepsSnapshot_getLaunchAndSatelliteData c up :
  preserves (keepsSnapshot c) (getLaunchAndSatelliteData up).
Proof.
  intros w. rewrite getLaunchAndSatelliteData_unfold.
  destruct (launchCache w) as [c0|] eqn:L.
  - destruct (lc_expiresAt c0 >? Date_now (clockReads w)) eqn:E.
    + apply keepsSnapshot_tick.
    + pose proof (refreshSnapshot_reads up (tick w)) as Hr. simpl in Hr.
      split; [lia|].
      intros Heq B. assert (c0 = c) by congruence. subst c0. exfalso.
      specialize (B (clockReads w)). lia.
  - split; [apply refreshSnapshot_reads|]. congruence.
Qed.

Lemma stored_launchCache cacheKey location passes (w : World) :
  launchCache (stored cacheKey location passes w) =
  match launchCache w with
  | Some c => if lc_expiresAt c <=? Date_now (S (S (clockReads w))) then None else Some c
  | None => None
  end.
Proof.
  unfold stored, cleanupCache, bind, newDate, get, set_predictionCache, ret.
  simpl. destruct (launchCache w) as [c|] eqn:L; simpl.
  - unfold set_launchCache.
    destruct (lc_expiresAt c <=? Date_now (S (S (clockReads w)))); simpl; auto.
  - reflexivity.
Qed.

Lemma keepsSnapshot_stored c cacheKey location passes (w : World) :
  keepsSnapshot c w (stored cacheKey location passes w).
Proof.
  destruct (stored_facts cacheKey location passes w) as (_ & _ & C & _).
  split; [lia|]. intros L B. rewrite stored_launchCache, L.
  rewrite C in B. specialize (B (S (S (clockReads w)))).
  destruct (lc_expiresAt c <=? Date_now (S (S (clockReads w)))) eqn:E; [lia|reflexivity].
Qed.

Lemma keepsSnapshot_getPredictions c up location weights (w : World) :
  keepsSnapshot c w (snd (getPredictions up location weights w)).
Proof.
  destruct (getPredictions up location weights w) as [r w'] eqn:H.
  apply getPredictions_cases in H. simpl in H |- *.
  destruct (initialize_run w) as (w0 & Hi & Hp & Hl & Hc & Hr & Ht & _).
  rewrite Hi in H. simpl in H.
  assert (K0 : keepsSnapshot c w w0).
  { split; [lia|]. intros L _. congruence. }
  assert (Kt : keepsSnapshot c w (tick w0)).
  { eapply keepsSnapshot_trans; [exact K0|apply keepsSnapshot_tick]. }
  destruct H as [(c0 & _ & _ & _ & ->)|(ws & Hws & H)]; [exact Kt|].
  assert (Ks : keepsSnapshot c w ws).
  { destruct Hws as [(_ & ->)|(c0 & _ & _ & ->)]; assumption. }
  pose proof (preserves_calculateFreshPredictions (keepsSnapshot c)
                (keepsSnapshot_refl c) (keepsSnapshot_trans c)
                (keepsSnapshot_tick c) (keepsSnapshot_drew c)
                (keepsSnapshot_getLaunchAndSatelliteData c)
                up location weights ws) as S.
  destruct H as [(passes & wA & F & _ & ->)|(e & wA & F & -> & _)];
    rewrite F in S; simpl in S.
  - eapply keepsSnapshot_trans; [exact Ks|].
    eapply keepsSnapshot_trans; [exact S|apply keepsSnapshot_stored].
  - eapply keepsSnapshot_trans; [exact Ks|exact S].
Qed.

Lemma keepsSnapshot_runOp c (op : Op) (w : World) :
  isClearCache op = false -> keepsSnapshot c w (runOp op w).
Proof.
  destruct op as [up location weights|up location| |]; simpl; intros Hc.
  - apply keepsSnapshot_getPredictions.
  - apply (preserves_getPredictionQuality (keepsSnapshot c)
             (keepsSnapshot_refl c) (keepsSnapshot_trans c)
             (keepsSnapshot_tick c)
             (keepsSnapshot_getLaunchAndSatelliteData c)).
  - apply (preserves_getCacheStats (keepsSnapshot c)
             (keepsSnapshot_refl c) (keepsSnapshot_trans c) (keepsSnapshot_tick c)).
  - discriminate.
Qed.

Lemma keepsSnapshot_runOps c (ops : list Op) (w : World) :
  forallb (fun op => negb (isClearCache op)) ops = true ->
  keepsSnapshot c w (runOps ops w).
Proof.
  revert w. induction ops as [|op ops IH]; intros w Hc; simpl in *.
  - apply keepsSnapshot_refl.
  - apply andb_true_iff in Hc. destruct Hc as (Hop & Hops).
    apply negb_true_iff in Hop.
    eapply keepsSnapshot_trans; [apply keepsSnapshot_runOp, Hop|apply IH, Hops].
Qed.

(** X1. Within the hour the snapshot is shared: while the snapshot in the
    launch cache has not expired, and whatever calls short of [clearCache]
    came since it was stored, [getLaunchAndSatelliteData] returns its launches
    and satellites after one reading of the clock, and the quality report
    does not depend on what the providers would answer. *)
Theorem snapshot_is_shared c (w1 : World) (ops : list Op) :
  (forall n m, (n <= m)%nat -> Date_now n <= Date_now m) ->
  launchCache w1 = Some c ->
  forallb (fun op => negb (isClearCache op)) ops = true ->
  Date_now (clockReads (runOps ops w1)) < lc_expiresAt c ->
  (forall up,
     getLaunchAndSatelliteData up (runOps ops w1)
     = (Ok (lc_launches c, lc_satellites c), tick (runOps ops w1))) /\
  (forall up up' location,
     getPredictionQuality up location (runOps ops w1)
     = getPredictionQuality up' location (runOps ops w1)).
Proof.
  intros Mono L Hops Live.
  set (w2 := runOps ops w1) in *.
  assert (L2 : launchCache w2 = Some c).
  { apply (keepsSnapshot_runOps c ops w1 Hops); [exact L|].
    intros n Hn. fold w2 in Hn. specialize (Mono n (clockReads w2)). lia. }
  assert (Hit : forall up,
            getLaunchAndSatelliteData up w2
            = (Ok (lc_launches c, lc_satellites c), tick w2)).
  { intros up. rewrite getLaunchAndSatelliteData_unfold, L2.
    destruct (lc_expiresAt c >? Date_now (clockReads w2)) eqn:E; [reflexivity|lia]. }
  split; [exact Hit|].
  intros up up' location. unfold getPredictionQuality, tryCatch, bind.
  rewrite (Hit up), (Hit up'). reflexivity.
Qed.

Lemma getLaunchAndSatelliteData_stale up (w : World) :
  snapshotStale w (Date_now (clockReads w)) ->
  exists ws,
    (ws = w \/ ws = tick w) /\
    getLaunchAndSatelliteData up w = refreshSnapshot up ws.
Proof.
  intros St. rewrite getLaunchAndSatelliteData_unfold.
  destruct (launchCache w) as [c|] eqn:L.
  - specialize (St c L).
    destruct (lc_expiresAt c >? Date_now (clockReads w)) eqn:E; [lia|].
    exists (tick w). auto.
  - exists w. auto.
Qed.

Lemma getLaunchAndSatelliteData_throws up (w : World) e w' :
  getLaunchAndSatelliteData up w = (Throw e, w') ->
  snapshotStale w (Date_now (clockReads w)) /\
  getRecentStarlinkLaunches up = Throw e /\
  (w' = w \/ w' = tick w).
Proof.
  rewrite getLaunchAndSatelliteData_unfold.
  assert (Hr : forall ws, refreshSnapshot up ws = (Throw e, w') ->
                          getRecentStarlinkLaunches up = Throw e /\ w' = ws).
  { intros ws H. pose proof (refreshSnapshot_run up ws) as R.
    destruct (getRecentStarlinkLaunches up) as [launches|e0].
    - destruct R as (m & _ & R). rewrite R in H. discriminate.
    - rewrite R in H. injection H as <- <-. auto. }
  destruct (launchCache w) as [c|] eqn:L.
  - destruct (lc_expiresAt c >? Date_now (clockReads w)) eqn:E; [discriminate|].
    intros H. destruct (Hr _ H) as (P & ->). split; [|auto].
    intros c0 L0. rewrite L in L0. injection L0 as <-. lia.
  - intros H. destruct (Hr _ H) as (P & ->). split; [|auto].
    intros c0 L0. rewrite L in L0. discriminate.
Qed.

(** X2. When the launch cache holds no live snapshot and the launch provider
    answers, [getLaunchAndSatelliteData] returns those launches with a
    satellite map that has an entry for every launch and for nothing else,
    the provider's satellites or the empty list where the fetch failed, and
    leaves that snapshot in the launch cache for one hour from a reading of
    the clock; the prediction cache is not touched. *)
Theorem getLaunchAndSatelliteData_refreshes up (w : World) launches :
  snapshotStale w (Date_now (clockReads w)) ->
  getRecentStarlinkLaunches up = Ok launches ->
  exists satelliteMap w' c n,
    getLaunchAndSatelliteData up w = (Ok (launches, satelliteMap), w') /\
    keysWithin launches satelliteMap /\
    (forall launch, In launch launches ->
       Map_get (launch_id launch) satelliteMap = Some (provided up (launch_id launch))) /\
    launchCache w' = Some c /\
    lc_launches c = launches /\ lc_satellites c = satelliteMap /\
    (clockReads w <= n < clockReads w')%nat /\
    lc_expiresAt c = Date_now n + 60 * 60 * 1000 /\
    predictionCache w' = predictionCache w.
Proof.
  intros St P.
  destruct (getLaunchAndSatelliteData_stale up w St) as (ws & Hws & ->).
  pose proof (refreshSnapshot_run up ws) as R. rewrite P in R.
  destruct R as (m & Hm & R).
  destruct (fetchSatelliteMap_run up launches ws) as (m' & Hm' & Hk & Hg).
  assert (m' = m) by congruence. subst m'.
  eexists m, _, _, (S (clockReads ws)). split; [exact R|].
  split; [exact Hk|]. split; [exact Hg|].
  unfold withSnapshot. simpl.
  split; [reflexivity|]. split; [reflexivity|]. split; [reflexivity|].
  destruct Hws as [->| ->]; simpl; repeat split; auto; lia.
Qed.

(** X3. A fresh computation fails exactly when the snapshot cannot be had:
    [calculateFreshPredictions] throws [e] if and only if the launch cache
    holds no live snapshot and the launch provider throws [e]; whatever goes
    wrong for a launch or a satellite is caught on the way.  The caches are
    then as before. *)
Theorem calculateFreshPredictions_throws up location weights (w : World) e :
  ((exists w', calculateFreshPredictions up location weights w = (Throw e, w')) <->
   snapshotStale w (Date_now (clockReads w)) /\ getRecentStarlinkLaunches up = Throw e) /\
  (forall w',
     calculateFreshPredictions up location weights w = (Throw e, w') ->
     predictionCache w' = predictionCache w /\ launchCache w' = launchCache w).
Proof.
  assert (Hk : forall w', calculateFreshPredictions up location weights w = (Throw e, w') ->
                          getLaunchAndSatelliteData up w = (Throw e, w')).
  { intros w' H. unfold calculateFreshPredictions in H.
    apply bind_Throw in H. destruct H as [H|([launches m] & w1 & _ & H)]; [exact H|].
    exfalso. destruct (length launches =? 0)%nat; [discriminate|].
    assert (S : succeeds
              (let! allPasses := batchLoop (length launches) up location launches m 0 [] in
               ret (slice 0 20 (sortBy (fun a b => (score b - score a)%Q) allPasses)))).
    { apply succeeds_bind; [apply succeeds_batchLoop|intros; apply succeeds_ret]. }
    destruct (S w1) as (a & w2 & E). rewrite E in H. discriminate. }
  split; [split|].
  - intros (w' & H). apply Hk in H.
    apply getLaunchAndSatelliteData_throws in H. tauto.
  - intros (St & P).
    destruct (getLaunchAndSatelliteData_stale up w St) as (ws & _ & E).
    pose proof (refreshSnapshot_run up ws) as R. rewrite P in R.
    exists ws. unfold calculateFreshPredictions, bind. rewrite E, R. reflexivity.
  - intros w' H. apply Hk in H.
    apply getLaunchAndSatelliteData_throws in H.
    destruct H as (_ & _ & [->| ->]); simpl; auto.
Qed.

(** *** Launches without usable satellites *)

Lemma filterValidSatellites_invalid satellites (w : World) :
  Forall (fun sat => isValidTle (tle1 sat) (tle2 sat) = false) satellites ->
  filterValidSatellites satellites w = (Ok [], w).
Proof.
  induction 1 as [|sat0 l H Hl IH].
  - reflexivity.
  - unfold filterValidSatellites. simpl. unfold bind at 1.
    rewrite H. cbn [negb]. unfold ret at 1. unfold bind at 1.
    change (filterM _ l w) with (filterValidSatellites l w).
    rewrite IH. reflexivity.
Qed.

Lemma processLaunch_invalid up location satelliteMap launch allPasses (w : World) :
  Forall (fun sat => isValidTle (tle1 sat) (tle2 sat) = false)
    (satellitesOf satelliteMap (launch_id launch)) ->
  processLaunch up location satelliteMap launch allPasses w = (Ok allPasses, w).
Proof.
  intros H. unfold processLaunch, tryCatch.
  fold (satellitesOf satelliteMap (launch_id launch)).
  destruct (length (satellitesOf satelliteMap (launch_id launch)) =? 0)%nat;
    [reflexivity|].
  unfold bind. rewrite (filterValidSatellites_invalid _ w H). reflexivity.
Qed.

Lemma slice_In {A} (i j : nat) (l : list A) (x : A) : In x (slice i j l) -> In x l.
Proof.
  unfold slice. intros H.
  rewrite <- (firstn_skipn i l). apply in_or_app. right.
  rewrite <- (firstn_skipn (j - i) (skipn i l)). apply in_or_app. left. exact H.
Qed.

Lemma batchLoop_invalid fuel up location launches satelliteMap :
  (forall launch, In launch launches ->
     Forall (fun sat => isValidTle (tle1 sat) (tle2 sat) = false)
       (satellitesOf satelliteMap (launch_id launch))) ->
  forall i allPasses (w : World),
    batchLoop fuel up location launches satelliteMap i allPasses w = (Ok allPasses, w).
Proof.
  intros H. induction fuel as [|fuel IH]; intros i allPasses w; simpl.
  - destruct (i <? length launches)%nat; reflexivity.
  - destruct (i <? length launches)%nat; [|reflexivity].
    unfold bind.
    assert (E : forall batch, (forall l, In l batch -> In l launches) ->
              forEachM (processLaunch up location satelliteMap) batch allPasses w
              = (Ok allPasses, w)).
    { induction batch as [|l batch IHb]; intros Hb; simpl; [reflexivity|].
      unfold bind. rewrite processLaunch_invalid by (apply H, Hb; left; reflexivity).
      apply IHb. intros l0 H0. apply Hb. right. exact H0. }
    rewrite E by (intros l Hl; eapply slice_In; exact Hl).
    apply IH.
Qed.

(** X4. No usable satellite is no error: when no launch of the snapshot has
    a satellite with well-formed element lines (no launch at all, launches
    without satellites, or satellites without two-line elements), the fresh
    computation returns the empty pass list, without reading the clock
    further. *)
Theorem calculateFreshPredictions_nothing_to_scan up location weights (w : World)
    launches satelliteMap w1 :
  getLaunchAndSatelliteData up w = (Ok (launches, satelliteMap), w1) ->
  (forall launch, In launch launches ->
     Forall (fun sat => isValidTle (tle1 sat) (tle2 sat) = false)
       (satellitesOf satelliteMap (launch_id launch))) ->
  calculateFreshPredictions up location weights w = (Ok [], w1).
Proof.
  intros G H. unfold calculateFreshPredictions. unfold bind at 1. rewrite G.
  destruct (length launches =? 0)%nat; [reflexivity|].
  unfold bind. rewrite (batchLoop_invalid _ up location launches satelliteMap H).
  reflexivity.
Qed.

(** *** Pruning and storing *)

(** X5. [cleanupCache] keeps exactly what is live: an entry of the
    prediction cache is there afterwards if and only if it was there before
    and expires after the instant the cleanup read from the clock, and the
    same holds for the snapshot in the launch cache; it never throws. *)
Theorem cleanupCache_prunes (w : World) :
  let now := Date_now (clockReads w) in
  exists w',
    cleanupCache w = (Ok tt, w') /\
    (forall k c,
       predictionCache w' !! k = Some c <->
       predictionCache w !! k = Some c /\ now < pc_expiresAt c) /\
    (forall c,
       launchCache w' = Some c <-> launchCache w = Some c /\ now < lc_expiresAt c) /\
    clockReads w' = S (clockReads w).
Proof.
  intros now. unfold cleanupCache, bind, newDate, get, set_predictionCache. simpl.
  assert (Hp : forall k c,
    filter (fun kv => negb (pc_expiresAt (snd kv) <=? now) = true) (predictionCache w)
      !! k = Some c <->
    predictionCache w !! k = Some c /\ now < pc_expiresAt c).
  { intros k c. rewrite map_lookup_filter_Some. simpl.
    rewrite negb_true_iff, Z.leb_gt. reflexivity. }
  destruct (launchCache w) as [c0|] eqn:L.
  - fold now. destruct (lc_expiresAt c0 <=? now) eqn:E.
    + eexists. split; [reflexivity|]. simpl. split; [exact Hp|]. split; [|reflexivity].
      intros c. split; [discriminate|]. intros ([= <-] & H). lia.
    + eexists. split; [reflexivity|]. simpl. split; [exact Hp|]. split; [|reflexivity].
      intros c. rewrite ?L. split.
      * intros [= <-]. split; [reflexivity|lia].
      * tauto.
  - eexists. split; [reflexivity|]. simpl. split; [exact Hp|]. split; [|reflexivity].
    intros c. rewrite ?L. split; [discriminate|]. intros ([=] & _).
Qed.

(** X6. A refresh is cached for fifteen minutes: when the cache has no
    live entry for the location's key and the fresh computation returns,
    [getPredictions] returns its passes, the prediction cache then holds no
    expired entry, and, unless fifteen minutes pass between two readings of
    the clock, it holds under the key the passes just returned, due to expire
    fifteen minutes after they were stored. *)
Theorem getPredictions_stores up location weights (w : World) passes wA :
  let cacheKey := generateLocationCacheKey location in
  let ws :=
    match predictionCache w !! cacheKey with
    | Some _ => tick (snd (initialize w))
    | None => snd (initialize w)
    end in
  let stored_at := Date_now (S (clockReads wA)) in
  let pruned_at := Date_now (S (S (clockReads wA))) in
  (forall c, predictionCache w !! cacheKey = Some c ->
             pc_expiresAt c <= Date_now (clockReads w)) ->
  calculateFreshPredictions up location weights ws = (Ok passes, wA) ->
  exists w',
    getPredictions up location weights w = (Ok passes, w') /\
    (forall k c, predictionCache w' !! k = Some c -> pruned_at < pc_expiresAt c) /\
    (pruned_at < stored_at + 15 * 60 * 1000 ->
     predictionCache w' !! cacheKey
     = Some {| pc_location := location; pc_passes := passes;
               pc_timestamp := Date_now (clockReads wA);
               pc_expiresAt := stored_at + 15 * 60 * 1000 |}).
Proof.
  intros cacheKey ws stored_at pruned_at Hstale F.
  destruct (getPredictions up location weights w) as [r w'] eqn:H.
  apply getPredictions_cases in H. fold cacheKey in H. simpl in H.
  destruct H as [(c & L & B & _)|(ws' & Hws & H)].
  { specialize (Hstale c L). lia. }
  assert (ws' = ws) as ->.
  { unfold ws. destruct Hws as [(L & ->)|(c & L & _ & ->)]; rewrite L; reflexivity. }
  rewrite F in H.
  destruct H as [(passes' & wA' & [= <- <-] & -> & ->)|(e & wA' & [=] & _)].
  exists (stored cacheKey location passes wA). split; [reflexivity|].
  destruct (stored_facts cacheKey location passes wA) as (P & _).
  rewrite P. split.
  - intros k c Hk. apply map_lookup_filter_Some in Hk. destruct Hk as (_ & Hk).
    simpl in Hk. apply negb_true_iff, Z.leb_gt in Hk. exact Hk.
  - intros Hlive. apply map_lookup_filter_Some. split.
    + apply lookup_insert_eq.
    + simpl. apply negb_true_iff, Z.leb_gt. exact Hlive.
Qed.

(** X7. Asking for the quality report or for the cache statistics never
    changes the prediction cache, and the statistics change neither cache:
    they report the number of cached locations and whether the snapshot is
    live. *)
Theorem diagnostics_are_read_only up location (w : World) :
  predictionCache (snd (getPredictionQuality up location w)) = predictionCache w /\
  exists valid w',
    getCacheStats w
    = (Ok {| predictionCacheSize := size (predictionCache w);
             launchCacheValid := valid;
             launchCacheExpiry :=
               match launchCache w with Some c => Some (lc_expiresAt c) | None => None end |},
       w') /\
    predictionCache w' = predictionCache w /\
    launchCache w' = launchCache w /\
    (valid = true <->
     exists c, launchCache w = Some c /\ Date_now (clockReads w) < lc_expiresAt c).
Proof.
  split; [apply (steady_getPredictionQuality up location w)|].
  unfold getCacheStats, bind, get, newDate, ret.
  destruct (launchCache w) as [c|] eqn:L; simpl.
  - eexists _, _. split; [reflexivity|]. simpl. split; [reflexivity|].
    split; [exact L|]. split.
    + intros H. exists c. split; [reflexivity|]. lia.
    + intros (c0 & [= <-] & H). lia.
  - eexists _, _. split; [reflexivity|]. split; [reflexivity|].
    split; [exact L|]. split; [discriminate|]. intros (c0 & [=] & _).
Qed.

(** X8. After [clearCache] nothing stale is left to fall back on: the next
    [getPredictions] is the fresh computation, its passes stored when it
    returns, its error passed on when it throws. *)
Theorem getPredictions_after_clearCache up location weights (w : World) :
  initialized w = true ->
  let cleared := snd (clearCache w) in
  predictionCache cleared = ∅ /\ launchCache cleared = None /\
  getPredictions up location weights cleared =
    match calculateFreshPredictions up location weights cleared with
    | (Ok passes, wA) =>
        (Ok passes, stored (generateLocationCacheKey location) location passes wA)
    | (Throw e, wA) => (Throw e, wA)
    end.
Proof.
  intros I cleared. split; [reflexivity|]. split; [reflexivity|].
  destruct (getPredictions up location weights cleared) as [r w'] eqn:H.
  apply getPredictions_cases in H. simpl in H.
  destruct (initialize_run cleared) as (w0 & Hi & _ & _ & _ & _ & _ & Same).
  rewrite Hi in H. simpl in H. rewrite (Same I) in H.
  destruct H as [(c & L & _)|(ws & Hws & H)].
  { unfold cleared in L. simpl in L. rewrite lookup_empty in L. discriminate. }
  assert (ws = cleared) as ->.
  { destruct Hws as [(_ & ->)|(c & L & _)]; [reflexivity|].
    unfold cleared in L. simpl in L. rewrite lookup_empty in L. discriminate. }
  destruct H as [(passes & wA & F & -> & ->)|(e & wA & F & -> & ->)]; rewrite F.
  - reflexivity.
  - rewrite lookup_empty. reflexivity.
Qed.

(** *** More of the pass finder *)

Lemma createPassFromPoints_labelled sat launch passStart0 points boosterInfo0
    (w : World) pass w' :
  createPassFromPoints sat launch passStart0 points boosterInfo0 w = (Ok (Some pass), w') ->
  labelled sat launch boosterInfo0 pass /\
  start pass = passStart0 /\
  exists firstPoint rest,
    points = firstPoint :: rest /\
    end_ pass = pt_time (List.last points firstPoint).
Proof.
  unfold createPassFromPoints.
  destruct (length points <? 2)%nat; [discriminate|].
  destruct points as [|firstPoint rest]; [discriminate|].
  unfold bind, random, ret. intros [= <- _]. simpl.
  split.
  - unfold labelled. simpl. repeat split; eauto.
  - split; [reflexivity|]. exists firstPoint, rest. auto.
Qed.

Lemma last_In {A} (a : A) (l : list A) : In (List.last (a :: l) a) (a :: l).
Proof.
  destruct (exists_last (l := a :: l)) as (l' & x & E); [discriminate|].
  rewrite E. rewrite last_last. apply in_or_app. right. left. reflexivity.
Qed.

(** Closing the buffer files one more pass, or none. *)
Lemma close_pass_filed satrec observerGd now endTime sat launch boosterInfo0 t st
    (w : World) passes' w' :
  scanning satrec observerGd now endTime t st ->
  filed sat launch boosterInfo0 t st ->
  inPass st = true ->
  match passStart st with
  | Some passStart0 =>
      if (0 <? length (passPoints st))%nat then
        let! pass :=
          createPassFromPoints sat launch passStart0 (passPoints st) boosterInfo0 in
        ret match pass with
            | Some pass => passes st ++ [pass]
            | None => passes st
            end
      else ret (passes st)
  | None => ret (passes st)
  end w = (Ok passes', w') ->
  Forall (labelled sat launch boosterInfo0) passes' /\
  StronglySorted apart passes' /\
  Forall (fun p => end_ p < t) passes'.
Proof.
  intros (Hg & Hp & Hin) (Hlab & Hso & Hfr) I.
  destruct (Hin I) as (f & r & Hs & Hpts & Hv & Hsorted & Hlt & Hall).
  unfold frontier in Hfr. rewrite I, Hs in Hfr.
  assert (Hf : pt_time f < t).
  { rewrite Hpts in Hlt. inversion Hlt; assumption. }
  assert (Hold : Forall (fun p => end_ p < t) (passes st)).
  { eapply Forall_impl; [exact Hfr|]. simpl. intros p Hp'. lia. }
  rewrite Hs, Hpts. simpl. intros H.
  apply bind_Ok in H. destruct H as ([pass|] & w1 & Hc & H);
    unfold ret in H; injection H as <- <-; [|auto].
  apply createPassFromPoints_labelled in Hc.
  destruct Hc as (Hl & Hst & f' & r' & [= <- <-] & He).
  split; [|split].
  - apply Forall_app. split; [exact Hlab|]. constructor; [exact Hl|constructor].
  - apply sorted_snoc; [exact Hso|].
    eapply Forall_impl; [exact Hfr|]. simpl. intros p Hp'. unfold apart. lia.
  - apply Forall_app. split; [exact Hold|]. constructor; [|constructor].
    rewrite He. rewrite Hpts in Hlt. rewrite List.Forall_forall in Hlt.
    apply Hlt. apply last_In.
Qed.

Lemma scanStep_filed satrec observerGd now endTime sat launch boosterInfo0 t st
    (w : World) st' w' :
  scanning satrec observerGd now endTime t st ->
  filed sat launch boosterInfo0 t st ->
  scanStep sat launch boosterInfo0 satrec observerGd t st w = (Ok st', w') ->
  filed sat launch boosterInfo0 (t + PREDICTION_STEP_SECONDS * 1000) st'.
Proof.
  intros Hinv Hfiled. pose proof Hfiled as (Hlab & Hso & Hfr).
  assert (Hstep : t < t + PREDICTION_STEP_SECONDS * 1000)
    by (unfold PREDICTION_STEP_SECONDS; lia).
  assert (Hsame : inPass st = true ->
            frontier (t + PREDICTION_STEP_SECONDS * 1000) st = frontier t st).
  { intros I. destruct Hinv as (_ & _ & Hin).
    destruct (Hin I) as (f & r & Hs & _). unfold frontier. rewrite I, Hs. reflexivity. }
  assert (Hkeep : filed sat launch boosterInfo0 (t + PREDICTION_STEP_SECONDS * 1000) st).
  { split; [exact Hlab|]. split; [exact Hso|].
    destruct (inPass st) eqn:I.
    - rewrite (Hsame eq_refl). exact Hfr.
    - unfold frontier in *. rewrite I in *.
      eapply Forall_impl; [exact Hfr|]. simpl. intros p Hp. lia. }
  unfold scanStep.
  destruct (sampleAt satrec observerGd t) as [[point [|]]|] eqn:S.
  - unfold ret. intros [= <- <-].
    unfold filed, frontier in *.
    destruct (inPass st) eqn:I; simpl;
      (split; [exact Hlab|]; split; [exact Hso|]).
    + rewrite ?I. destruct (passStart st); [exact Hfr|].
      eapply Forall_impl; [exact Hfr|]. simpl. intros p Hp. lia.
    + exact Hfr.
  - destruct (inPass st) eqn:I.
    + intros H. apply bind_Ok in H. destruct H as (passes' & w1 & Hc & H).
      unfold ret in H. injection H as <- <-.
      destruct (close_pass_filed _ _ _ _ _ _ _ _ _ _ _ _ Hinv Hfiled I Hc)
        as (H1 & H2 & H3).
      split; [exact H1|]. split; [exact H2|].
      unfold frontier. simpl.
      eapply Forall_impl; [exact H3|]. simpl. intros p Hp. lia.
    + unfold ret. intros [= <- <-]. exact Hkeep.
  - unfold ret. intros [= <- <-]. exact Hkeep.
Qed.

Lemma scanLoop_filed fuel satrec observerGd now sat launch boosterInfo0 endTime :
  forall t st (w : World) st' w',
    scanning satrec observerGd now endTime t st ->
    filed sat launch boosterInfo0 t st ->
    scanLoop fuel sat launch boosterInfo0 satrec observerGd endTime t st w = (Ok st', w') ->
    exists t', scanning satrec observerGd now endTime t' st' /\
               filed sat launch boosterInfo0 t' st'.
Proof.
  induction fuel as [|fuel IH]; intros t st w st' w' Hinv Hf; simpl.
  - destruct (t <=? endTime); unfold ret; intros [= <- <-]; eauto.
  - destruct (t <=? endTime) eqn:E; [|unfold ret; intros [= <- <-]; eauto].
    apply Z.leb_le in E.
    intros H. apply bind_Ok in H. destruct H as (st1 & w1 & Hs & H).
    eapply IH; [| |exact H].
    + eapply scanStep_scanning; eassumption.
    + eapply scanStep_filed; eassumption.
Qed.

(** The passes of one satellite: what the scan establishes. *)
Lemma calculateSatellitePasses_scan sat location launch boosterInfo0 (w : World)
    passes w' :
  calculateSatellitePasses sat location launch boosterInfo0 w = (Ok passes, w') ->
  exists satrec,
    twoline2satrec (tle1 sat) (tle2 sat) = Some satrec /\
    Forall (emitted satrec (observerOf location) (Date_now (clockReads w))
              (Date_now (clockReads w) + PREDICTION_DAYS * 24 * 60 * 60 * 1000))
      passes /\
    Forall (labelled sat launch boosterInfo0) passes /\
    StronglySorted apart passes.
Proof.
  intros H. unfold calculateSatellitePasses in H.
  destruct (twoline2satrec (tle1 sat) (tle2 sat)) as [satrec|]; [|discriminate].
  exists satrec. split; [reflexivity|].
  fold (observerOf location) in H.
  unfold bind at 1, newDate at 1 in H.
  apply bind_Ok in H. destruct H as (st & w2 & Hloop & H).
  apply (scanLoop_filed _ _ _ (Date_now (clockReads w))) in Hloop.
  2:{ split.
      - split; [lia|]. rewrite Z.sub_diag. reflexivity.
      - split; simpl; [constructor|discriminate]. }
  2:{ split; [constructor|]. split; constructor. }
  destruct Hloop as (t' & Hinv & Hf).
  destruct (inPass st) eqn:I.
  - destruct (passStart st) as [ps|] eqn:P.
    + split; [eapply close_pass; [exact Hinv|exact I|rewrite P; exact H]|].
      edestruct close_pass_filed as (H1 & H2 & _);
        [exact Hinv|exact Hf|exact I|rewrite P; exact H|].
      auto.
    + unfold ret in H. injection H as <- <-.
      destruct Hinv as (_ & He & _). destruct Hf as (Hl & Hs & _). auto.
  - destruct Hinv as (_ & He & _). destruct Hf as (Hl & Hs & _).
    destruct (passStart st); unfold ret in H; injection H as <- <-; auto.
Qed.

Lemma emitted_span satrec observerGd now endTime pass :
  emitted satrec observerGd now endTime pass ->
  now <= start pass /\ start pass < end_ pass /\ end_ pass <= endTime /\
  (end_ pass - start pass) mod (PREDICTION_STEP_SECONDS * 1000) = 0.
Proof.
  intros (_ & f & r & pk & (Hall & Hso & _) & Hlen & _ & _ & Hs & _ & He & _).
  rewrite Hs, He.
  assert (Hf : sampled satrec observerGd now endTime f).
  { inversion Hall; assumption. }
  assert (Hl : sampled satrec observerGd now endTime (List.last (f :: r) f)).
  { rewrite List.Forall_forall in Hall. apply Hall, last_In. }
  destruct Hf as ((Hf1 & Hf2) & _ & _). destruct Hl as ((Hl1 & Hl2) & Hl3 & _).
  split; [exact Hf1|]. split; [|split; [exact Hl3|]].
  - destruct r as [|x r]; [simpl in Hlen; lia|].
    inversion Hso as [|? ? Hso' Hfx]; subst.
    inversion Hfx as [|? ? Hx _]; subst.
    pose proof (sorted_first_last x r (List.last (x :: r) x) Hso' (last_In x r)) as [Hx' _].
    change (List.last (f :: x :: r) f) with (List.last (x :: r) f).
    rewrite (last_default (x :: r) f x) by discriminate. lia.
  - replace (pt_time (List.last (f :: r) f) - pt_time f)
      with ((pt_time (List.last (f :: r) f) - now) - (pt_time f - now)) by lia.
    rewrite Zminus_mod, Hf2, Hl2. reflexivity.
Qed.

Lemma sampled_above satrec observerGd now endTime q :
  sampled satrec observerGd now endTime q ->
  (MIN_ELEVATION_DEG < pt_elevation q)%Q.
Proof.
  intros (_ & _ & H). unfold sampleAt in H.
  destruct (propagate satrec (pt_time q)); [|discriminate].
  injection H as Hq Hv. rewrite <- Hq. simpl.
  apply andb_true_iff in Hv. destruct Hv as [_ Hv]. apply gtb_iff. exact Hv.
Qed.

(** X9. The passes of one satellite come in the order of time and do not
    overlap: each ends before the next starts; each starts at or after the
    instant the scan began, ends within the seven days of the scan, and lasts
    a positive whole number of 30 s steps. *)
Theorem calculateSatellitePasses_chronological sat location launch boosterInfo0
    (w : World) found w' :
  calculateSatellitePasses sat location launch boosterInfo0 w = (Ok found, w') ->
  StronglySorted (fun a b => end_ a < start b) found /\
  Forall
    (fun p =>
       Date_now (clockReads w) <= start p /\
       start p < end_ p /\
       end_ p <= Date_now (clockReads w) + PREDICTION_DAYS * 24 * 60 * 60 * 1000 /\
       (end_ p - start p) mod (PREDICTION_STEP_SECONDS * 1000) = 0)
    found.
Proof.
  intros H. apply calculateSatellitePasses_scan in H.
  destruct H as (satrec & _ & He & _ & Hs). split; [exact Hs|].
  eapply Forall_impl; [exact He|]. simpl. intros p Hp.
  eapply emitted_span. exact Hp.
Qed.

(** X10. Every pass of one satellite carries the satellite's id and launch
    id, the name of the launch and the booster information it was given, the
    score 0, a peak elevation above 10 degrees and, with [Math.random] in
    [0, 1), a phase angle from 30 to 90 degrees (90 included: the sum
    [r * 60 + 30] is rounded). *)
Theorem calculateSatellitePasses_labels sat location launch boosterInfo0
    (w : World) found w' :
  (forall n, (0 <= Math_random n)%Q /\ (Math_random n < 1)%Q) ->
  calculateSatellitePasses sat location launch boosterInfo0 w = (Ok found, w') ->
  Forall
    (fun p =>
       satId p = sat_id sat /\
       launchId p = sat_launch sat /\
       launchName p = Some (launch_name launch) /\
       boosterInfo p = boosterInfo0 /\
       score p = 0%Q /\
       (MIN_ELEVATION_DEG < maxElDeg p)%Q /\
       (30 <= phaseAngleDeg p)%Q /\ (phaseAngleDeg p <= 90)%Q)
    found.
Proof.
  intros Hr H. apply calculateSatellitePasses_scan in H.
  destruct H as (satrec & _ & He & Hl & _).
  rewrite List.Forall_forall in *. intros p Hp.
  destruct (Hl p Hp) as (H1 & H2 & H3 & H4 & H5 & n & H6).
  destruct (He p Hp) as (_ & f & r & pk & (Hall & _) & _ & Hin & _ & _ & _ & _ & Hm & _).
  repeat (split; [assumption|]).
  split.
  - rewrite Hm. rewrite List.Forall_forall in Hall.
    eapply sampled_above. apply Hall. exact Hin.
  - rewrite H6. destruct (Hr n) as [Ha Hb]. split.
    + apply (Qle_trans _ (0 * 60 + 30)); [apply Qle_bool_imp_le; reflexivity|].
      apply Qplus_le_compat; [|apply Qle_refl].
      apply Qmult_le_compat_r; [exact Ha|discriminate].
    + apply (Qle_trans _ (1 * 60 + 30)); [|apply Qle_bool_imp_le; reflexivity].
      apply Qplus_le_compat; [|apply Qle_refl].
      apply Qmult_le_compat_r; [apply Qlt_le_weak; exact Hb|discriminate].
Qed.

(** *** Which satellites are scanned *)

Lemma tryCatch_Ok {A} (m : M A) (h : string -> M A) (w : World) a w' :
  tryCatch m h w = (Ok a, w') ->
  m w = (Ok a, w') \/ exists e w1, m w = (Throw e, w1) /\ h e w1 = (Ok a, w').
Proof.
  unfold tryCatch. destruct (m w) as [[x|e] w1]; [auto|]. intros H. right. eauto.
Qed.

Lemma filterM_spec {A} (f : A -> M bool) (l : list A) :
  (forall a w, (clockReads w <= clockReads (snd (f a w)))%nat) ->
  forall (w : World) l' w',
    filterM f l w = (Ok l', w') ->
    (clockReads w <= clockReads w')%nat /\
    sublist l' l /\
    (forall a, In a l' -> exists w0 w1, during w w' (clockReads w0) /\ f a w0 = (Ok true, w1)) /\
    (forall a, In a l ->
       (forall w0, during w w' (clockReads w0) -> exists w1, f a w0 = (Ok true, w1)) ->
       In a l').
Proof.
  intros Hf. induction l as [|x l IH]; intros w l' w'; simpl.
  - unfold ret. intros [= <- <-]. split; [lia|]. split; [constructor|].
    split; intros a [].
  - intros H. apply bind_Ok in H. destruct H as (keep & w1 & Hx & H).
    apply bind_Ok in H. destruct H as (rest & w2 & Hl & H).
    unfold ret in H. injection H as <- <-.
    destruct (IH _ _ _ Hl) as (Hc & Hsub & Hsound & Hcomplete).
    pose proof (Hf x w) as Hc1. rewrite Hx in Hc1. simpl in Hc1.
    split; [lia|]. split; [|split].
    + destruct keep; [apply sublist_skip|apply sublist_cons]; exact Hsub.
    + intros a Ha.
      assert (Hrest : In a rest ->
                exists w0 w3, during w w2 (clockReads w0) /\ f a w0 = (Ok true, w3)).
      { intros Hr. destruct (Hsound a Hr) as (w0 & w3 & Hd & Hw).
        exists w0, w3. split; [unfold during in *; lia|exact Hw]. }
      destruct keep; [|auto]. destruct Ha as [<-|Ha]; [|auto].
      exists w, w1. split; [unfold during; lia|exact Hx].
    + intros a Ha Hall.
      assert (Hrest : In a l -> In a rest).
      { intros Hr. apply (Hcomplete a Hr). intros w0 Hd. apply Hall.
        unfold during in *. lia. }
      destruct Ha as [<-|Ha].
      * destruct (Hall w) as (w3 & Hw); [unfold during; lia|].
        rewrite Hw in Hx. injection Hx as <- _. left. reflexivity.
      * destruct keep; [right|]; auto.
Qed.

Lemma isTleFresh_true epoch (w : World) w' :
  isTleFresh epoch w = (Ok true, w') <-> freshAt epoch (Date_now (clockReads w)) /\ w' = tick w.
Proof.
  unfold isTleFresh, freshAt.
  destruct (falsy epoch) eqn:F.
  - apply falsy_true in F. unfold ret. split; [discriminate|].
    intros ((Hne & _) & _). contradiction.
  - apply falsy_false in F. unfold tryCatch, bind, newDate, ret.
    destruct (Date_parse epoch) as [t|].
    + split.
      * intros [= Hb <-]. apply hours_le_48 in Hb. eauto.
      * intros ((_ & t' & [= <-] & Hle) & ->). apply hours_le_48 in Hle.
        rewrite Hle. reflexivity.
    + split; [discriminate|]. intros ((_ & t' & E & _) & _). discriminate.
Qed.

Lemma isTleFresh_clock epoch (w : World) :
  (clockReads w <= clockReads (snd (isTleFresh epoch w)) <= S (clockReads w))%nat.
Proof.
  unfold isTleFresh. destruct (falsy epoch); [simpl; lia|].
  unfold tryCatch, bind, newDate, ret. simpl. lia.
Qed.

(** The predicate of the filter in [filterValidSatellites]. *)
Lemma keepsSatellite_true sat0 (w : World) w' :
  (if negb (isValidTle (tle1 sat0) (tle2 sat0)) then ret false
   else let! fresh := isTleFresh (epoch sat0) in
        if negb fresh then ret false else ret true) w = (Ok true, w') <->
  isValidTle (tle1 sat0) (tle2 sat0) = true /\
  freshAt (epoch sat0) (Date_now (clockReads w)) /\ w' = tick w.
Proof.
  destruct (isValidTle (tle1 sat0) (tle2 sat0)); simpl.
  - unfold bind. destruct (isTleFresh (epoch sat0) w) as [[[|]|e] w1] eqn:E; simpl.
    + apply isTleFresh_true in E. destruct E as [E ->]. unfold ret.
      split; [intros [= <-]; auto|intros (_ & _ & ->); reflexivity].
    + unfold ret. split; [discriminate|]. intros (_ & Hfr & ->).
      assert (isTleFresh (epoch sat0) w = (Ok true, tick w)) by (apply isTleFresh_true; auto).
      congruence.
    + split; [discriminate|]. intros (_ & Hfr & ->).
      assert (isTleFresh (epoch sat0) w = (Ok true, tick w)) by (apply isTleFresh_true; auto).
      congruence.
  - unfold ret. split; [discriminate|]. intros (H & _). discriminate.
Qed.

(** X11. [filterValidSatellites] never throws and keeps, in their order,
    satellites whose element set is well formed and whose epoch is at most
    48 hours old at a clock reading of the call; a satellite that is well
    formed and fresh at every reading of the call is kept. *)
Theorem filterValidSatellites_spec (satellites : list StarlinkSat) (w : World) :
  exists valid w',
    filterValidSatellites satellites w = (Ok valid, w') /\
    sublist valid satellites /\
    (clockReads w <= clockReads w')%nat /\
    (forall sat0, In sat0 valid ->
       isValidTle (tle1 sat0) (tle2 sat0) = true /\
       exists n, during w w' n /\ freshAt (epoch sat0) (Date_now n)) /\
    (forall sat0, In sat0 satellites ->
       isValidTle (tle1 sat0) (tle2 sat0) = true ->
       (forall n, during w w' n -> freshAt (epoch sat0) (Date_now n)) ->
       In sat0 valid).
Proof.
  destruct (succeeds_filterValidSatellites satellites w) as (valid & w' & H).
  exists valid, w'. split; [exact H|].
  unfold filterValidSatellites in H. apply filterM_spec in H.
  2:{ intros a w0. destruct (negb (isValidTle (tle1 a) (tle2 a))); [simpl; lia|].
      unfold bind. pose proof (isTleFresh_clock (epoch a) w0) as Hc.
      destruct (isTleFresh (epoch a) w0) as [[[|]|e] w1]; simpl in *; lia. }
  destruct H as (Hc & Hsub & Hsound & Hcomplete).
  split; [exact Hsub|]. split; [exact Hc|]. split.
  - intros sat0 Hin. destruct (Hsound sat0 Hin) as (w0 & w1 & Hd & Hk).
    apply keepsSatellite_true in Hk. destruct Hk as (Hv & Hfr & _).
    split; [exact Hv|]. exists (clockReads w0). auto.
  - intros sat0 Hin Hv Hfr. apply (Hcomplete sat0 Hin). intros w0 Hd.
    exists (tick w0). apply keepsSatellite_true. auto.
Qed.

Lemma every_third {A} (l : list A) :
  forall j k,
    nth_error (filteri_from (fun index => (index mod 3 =? 0)%nat) (3 * j) l) k
    = nth_error l (3 * k).
Proof.
  assert (P0 : forall j, ((3 * j) mod 3 =? 0)%nat = true).
  { intros j. rewrite Nat.mul_comm, Nat.Div0.mod_mul. reflexivity. }
  assert (P1 : forall j, (S (3 * j) mod 3 =? 0)%nat = false).
  { intros j. replace (S (3 * j)) with (1 + j * 3)%nat by lia.
    rewrite Nat.Div0.mod_add. reflexivity. }
  assert (P2 : forall j, (S (S (3 * j)) mod 3 =? 0)%nat = false).
  { intros j. replace (S (S (3 * j))) with (2 + j * 3)%nat by lia.
    rewrite Nat.Div0.mod_add. reflexivity. }
  assert (N : forall n, nth_error (@nil A) n = None) by (intros [|n]; reflexivity).
  intros j k. revert l j. induction k as [|k IH]; intros l j.
  - destruct l as [|a l]; [reflexivity|]. cbn [filteri_from]. rewrite P0. reflexivity.
  - replace (3 * S k)%nat with (S (S (S (3 * k)))) by lia.
    destruct l as [|a [|b [|c l]]]; cbn [filteri_from nth_error];
      rewrite ?P0, ?P1, ?P2; cbn [filteri_from nth_error]; rewrite ?N; try reflexivity.
    replace (S (S (S (3 * j)))) with (3 * S j)%nat by lia. apply IH.
Qed.

Lemma firstn_In_nth {A} (n : nat) (l : list A) (a : A) :
  In a (firstn n l) -> exists k, (k < n)%nat /\ nth_error l k = Some a.
Proof.
  revert l. induction n as [|n IH]; intros [|x l]; simpl; try tauto.
  intros [<-|H].
  - exists O. split; [lia|reflexivity].
  - destruct (IH l H) as (k & Hk & E). exists (S k). split; [lia|exact E].
Qed.

(** The satellites [calculatePasses] scans: the valid ones at the positions
    0, 3, ..., 27. *)
Lemma sampled_position (valid : list StarlinkSat) (sat0 : StarlinkSat) :
  In sat0 (slice 0 10 (filteri (fun index => (index mod 3 =? 0)%nat) valid)) ->
  exists k, (k < 10)%nat /\ nth_error valid (3 * k) = Some sat0.
Proof.
  unfold slice. simpl. intros H. apply firstn_In_nth in H.
  destruct H as (k & Hk & E). exists k. split; [exact Hk|].
  rewrite <- E. symmetry. apply (every_third valid 0 k).
Qed.

Lemma filterM_ext {A} (f g : A -> M bool) (l : list A) :
  (forall a w, f a w = g a w) -> forall w, filterM f l w = filterM g l w.
Proof.
  intros Hfg. induction l as [|x l IH]; intros w; simpl; [reflexivity|].
  unfold bind. rewrite Hfg. destruct (g x w) as [[keep|e] w1]; [|reflexivity].
  rewrite IH. reflexivity.
Qed.

(** The filter at the head of [calculatePasses] is that of
    [filterValidSatellites]. *)
Lemma calculatePasses_filter (satellites : list StarlinkSat) (w : World) :
  filterM
    (fun sat =>
       if isValidTle (tle1 sat) (tle2 sat) then isTleFresh (epoch sat) else ret false)
    satellites w
  = filterValidSatellites satellites w.
Proof.
  unfold filterValidSatellites. apply filterM_ext. intros sat0 w0.
  destruct (isValidTle (tle1 sat0) (tle2 sat0)); [|reflexivity].
  cbn [negb]. unfold bind.
  destruct (isTleFresh (epoch sat0) w0) as [[[|]|e] w1]; reflexivity.
Qed.

(** The loop over the sample, satellite by satellite. *)
Lemma forEachM_scanned location launch boosterInfo0 (sats : list StarlinkSat) :
  forall acc (w : World) acc' w',
    forEachM
      (fun sat passes =>
         tryCatch
           (let! satPasses := calculateSatellitePasses sat location launch boosterInfo0 in
            ret (passes ++ satPasses))
           (fun _ => ret passes))
      sats acc w = (Ok acc', w') ->
    exists raw, scannedFrom location launch boosterInfo0 sats w raw w' /\ acc' = acc ++ raw.
Proof.
  induction sats as [|sat0 rest IH]; intros acc w acc' w'; simpl.
  - unfold ret. intros [= <- <-]. exists []. rewrite app_nil_r. auto.
  - intros H. apply bind_Ok in H. destruct H as (acc1 & w1 & Hs & H).
    destruct (IH _ _ _ _ H) as (more & Hmore & ->).
    unfold tryCatch, bind in Hs.
    destruct (calculateSatellitePasses sat0 location launch boosterInfo0 w)
      as [[found|e] wa] eqn:E; unfold ret in Hs; injection Hs as <- <-.
    + exists (found ++ more). split; [|rewrite app_assoc; reflexivity].
      exists found, wa, more. auto.
    + exists more. split; [|reflexivity].
      exists [], wa, more. split; [right; eauto|]. auto.
Qed.

Lemma calculatePasses_from up satellites location launch (w : World) found w' :
  calculatePasses up satellites location launch w = (Ok found, w') ->
  exists valid wv boosterInfo0 raw,
    filterValidSatellites satellites w = (Ok valid, wv) /\
    sublist valid satellites /\
    (forall sat0, In sat0 valid -> isValidTle (tle1 sat0) (tle2 sat0) = true) /\
    (valid = [] -> found = []) /\
    scannedFrom location launch boosterInfo0
      (slice 0 10 (filteri (fun index => (index mod 3 =? 0)%nat) valid)) wv raw w' /\
    Forall
      (fun p0 => exists k sat0,
         (k < 10)%nat /\ nth_error valid (3 * k) = Some sat0 /\
         labelled sat0 launch boosterInfo0 p0)
      raw /\
    found = sortBy (fun a b => (score b - score a)%Q)
              (map (fun pass => setScore pass (calculateTrainScore pass launch)) raw).
Proof.
  unfold calculatePasses. intros H.
  apply bind_Ok in H. destruct H as (valid & wv & Hv & H).
  pose proof Hv as Hfilter. rewrite calculatePasses_filter in Hfilter.
  apply filterM_spec in Hv.
  2:{ intros a w0. destruct (isValidTle (tle1 a) (tle2 a)); [|simpl; lia].
      apply isTleFresh_clock. }
  destruct Hv as (_ & Hsub & Hsound & _).
  assert (Hvalid : forall sat0, In sat0 valid -> isValidTle (tle1 sat0) (tle2 sat0) = true).
  { intros sat0 Hin. destruct (Hsound sat0 Hin) as (w0 & w1 & _ & Hk).
    destruct (isValidTle (tle1 sat0) (tle2 sat0)); [reflexivity|discriminate]. }
  destruct (length valid =? 0)%nat eqn:L.
  - unfold ret in H. injection H as <- <-.
    assert (valid = []) as -> by (destruct valid; [reflexivity|discriminate]).
    exists [], wv, None, []. repeat split; auto.
  - apply bind_Ok in H. destruct H as (boosterInfo0 & wb & Hbooster & H).
    assert (wb = wv) as ->.
    { destruct (cores launch) as [|[[id|] fl] rest]; unfold ret in Hbooster;
        try (injection Hbooster as _ <-; reflexivity).
      destruct (falsy id); unfold ret in Hbooster;
        [injection Hbooster as _ <-; reflexivity|].
      unfold tryCatch, lift in Hbooster.
      destruct (getBoosterInfo up id); unfold ret in Hbooster;
        injection Hbooster as _ <-; reflexivity. }
    apply bind_Ok in H. destruct H as (raw & wr & Hraw & H).
    unfold ret in H. injection H as <- <-.
    exists valid, wv, boosterInfo0, raw. split; [exact Hfilter|].
    split; [exact Hsub|]. split; [exact Hvalid|].
    split; [intros ->; discriminate|].
    split.
    { destruct (forEachM_scanned _ _ _ _ _ _ _ _ Hraw) as (raw' & Hs & E).
      simpl in E. subst raw'. exact Hs. }
    split; [|reflexivity].
    revert Hraw. apply forEachM_invariant; [|constructor].
    intros sat0 acc w0 acc' w0' Hin Hacc Hbody.
    apply tryCatch_Ok in Hbody. destruct Hbody as [Hbody|(e & w1 & _ & Hbody)].
    + apply bind_Ok in Hbody. destruct Hbody as (satPasses & w1 & Hc & Hbody).
      unfold ret in Hbody. injection Hbody as <- <-.
      apply Forall_app. split; [exact Hacc|].
      apply calculateSatellitePasses_scan in Hc. destruct Hc as (_ & _ & _ & Hl & _).
      apply sampled_position in Hin. destruct Hin as (k & Hk & E).
      eapply Forall_impl; [exact Hl|]. simpl. intros p0 Hp0. eauto.
    + unfold ret in Hbody. injection Hbody as <- <-. exact Hacc.
Qed.

(** X12. [calculatePasses] never throws.  Of the satellites its filter
    keeps, which are those [filterValidSatellites] returns for the same
    satellites at the same moment, it scans the ones at the positions
    0, 3, ..., 27 (every third one, ten at most), one after the other; its
    result is the passes those scans find, each with the score of
    [calculateTrainScore], in descending order of score.  So every pass
    carries the ids of a satellite at one of those positions, and the result
    is empty when the filter keeps nothing.  The launch is dated, so that
    every score is a number. *)
Theorem calculatePasses_sampled up satellites location launch (w : World) :
  dated w launch ->
  exists found w' valid wv boosterInfo0 raw,
    calculatePasses up satellites location launch w = (Ok found, w') /\
    filterValidSatellites satellites w = (Ok valid, wv) /\
    scannedFrom location launch boosterInfo0
      (slice 0 10 (filteri (fun index => (index mod 3 =? 0)%nat) valid)) wv raw w' /\
    Permutation found
      (map (fun pass => setScore pass (calculateTrainScore pass launch)) raw) /\
    StronglySorted (descending score) found /\
    (valid = [] -> found = []) /\
    Forall
      (fun p => exists k sat0,
         (k < 10)%nat /\ nth_error valid (3 * k) = Some sat0 /\
         isValidTle (tle1 sat0) (tle2 sat0) = true /\
         satId p = sat_id sat0 /\ launchId p = sat_launch sat0 /\
         launchName p = Some (launch_name launch) /\
         score p = calculateTrainScore p launch)
      found.
Proof.
  intros _.
  destruct (succeeds_calculatePasses up satellites location launch w) as (found & w' & H).
  pose proof H as Hrun. apply calculatePasses_from in H.
  destruct H as (valid & wv & boosterInfo0 & raw & Hfilter & _ & Hvalid & Hempty & Hscan
                 & Hraw & E).
  exists found, w', valid, wv, boosterInfo0, raw.
  split; [exact Hrun|]. split; [exact Hfilter|]. split; [exact Hscan|].
  subst found. split; [apply sortBy_perm|]. split; [apply sortBy_sorted|].
  split; [exact Hempty|].
  apply List.Forall_forall. intros p Hp.
  apply (proj1 (sortBy_In score _ _)) in Hp. apply in_map_iff in Hp.
  destruct Hp as (p0 & <- & Hp0).
  rewrite List.Forall_forall in Hraw.
  destruct (Hraw p0 Hp0) as (k & sat0 & Hk & E & H1 & H2 & H3 & _).
  exists k, sat0. split; [exact Hk|]. split; [exact E|].
  split; [apply Hvalid; eapply nth_error_In; exact E|].
  repeat split; assumption.
Qed.

(** *** Where the predictions come from *)

Lemma sublist_In {A} (l1 l2 : list A) (a : A) : sublist l1 l2 -> In a l1 -> In a l2.
Proof.
  induction 1 as [|x l1 l2 _ IH|x l1 l2 _ IH]; simpl; [tauto| |]; intuition.
Qed.

Lemma filterValidSatellites_facts satellites (w : World) valid w' :
  filterValidSatellites satellites w = (Ok valid, w') ->
  sublist valid satellites /\
  forall sat0, In sat0 valid -> isValidTle (tle1 sat0) (tle2 sat0) = true.
Proof.
  intros H. unfold filterValidSatellites in H. apply filterM_spec in H.
  2:{ intros a w0. destruct (negb (isValidTle (tle1 a) (tle2 a))); [simpl; lia|].
      unfold bind. pose proof (isTleFresh_clock (epoch a) w0) as Hc.
      destruct (isTleFresh (epoch a) w0) as [[[|]|e] w1]; simpl in *; lia. }
  destruct H as (_ & Hsub & Hsound & _). split; [exact Hsub|].
  intros sat0 Hin. destruct (Hsound sat0 Hin) as (w0 & w1 & _ & Hk).
  apply keepsSatellite_true in Hk. apply Hk.
Qed.

Lemma processLaunch_from up location satelliteMap launch allPasses (w : World)
    allPasses' w' :
  processLaunch up location satelliteMap launch allPasses w = (Ok allPasses', w') ->
  exists more,
    allPasses' = allPasses ++ more /\ Forall (predictedFor satelliteMap launch) more.
Proof.
  assert (Hnone : exists more,
            allPasses = allPasses ++ more /\ Forall (predictedFor satelliteMap launch) more).
  { exists []. rewrite app_nil_r. auto. }
  unfold processLaunch. fold (satellitesOf satelliteMap (launch_id launch)).
  intros H. apply tryCatch_Ok in H. destruct H as [H|(e & w1 & _ & H)].
  2:{ unfold ret in H. injection H as <- <-. exact Hnone. }
  destruct (length (satellitesOf satelliteMap (launch_id launch)) =? 0)%nat.
  { unfold ret in H. injection H as <- <-. exact Hnone. }
  apply bind_Ok in H. destruct H as (valid & wv & Hv & H).
  destruct (filterValidSatellites_facts _ _ _ _ Hv) as (Hsub & Hvalid).
  destruct (length valid =? 0)%nat.
  { unfold ret in H. injection H as <- <-. exact Hnone. }
  apply bind_Ok in H. destruct H as (found & wf & Hf & H).
  unfold ret in H. injection H as <- <-.
  exists found. split; [reflexivity|].
  apply calculatePasses_from in Hf.
  destruct Hf as (valid' & wv' & boosterInfo0 & raw & _ & Hsub' & _ & _ & _ & Hraw & ->).
  apply List.Forall_forall. intros p Hp.
  apply (proj1 (sortBy_In score _ _)) in Hp. apply in_map_iff in Hp.
  destruct Hp as (p0 & <- & Hp0).
  rewrite List.Forall_forall in Hraw.
  destruct (Hraw p0 Hp0) as (k & sat0 & _ & E & H1 & H2 & H3 & _).
  apply nth_error_In in E.
  assert (Hin : In sat0 valid) by (eapply sublist_In; eassumption).
  exists sat0. split; [eapply sublist_In; eassumption|].
  split; [apply Hvalid; exact Hin|]. repeat split; assumption.
Qed.

Lemma batchLoop_from fuel up location launches satelliteMap :
  forall i allPasses (w : World) allPasses' w',
    batchLoop fuel up location launches satelliteMap i allPasses w = (Ok allPasses', w') ->
    Forall (fun p => exists launch, In launch launches /\ predictedFor satelliteMap launch p)
      allPasses ->
    Forall (fun p => exists launch, In launch launches /\ predictedFor satelliteMap launch p)
      allPasses'.
Proof.
  induction fuel as [|fuel IH]; intros i allPasses w allPasses' w'; simpl.
  - destruct (i <? length launches)%nat; unfold ret; intros [= <- <-]; auto.
  - destruct (i <? length launches)%nat; [|unfold ret; intros [= <- <-]; auto].
    intros H Hacc. apply bind_Ok in H. destruct H as (acc & w1 & Hb & H).
    eapply IH; [exact H|].
    revert Hb. apply forEachM_invariant; [|exact Hacc].
    intros launch s w0 s' w0' Hin Hs Hp.
    apply processLaunch_from in Hp. destruct Hp as (more & -> & Hmore).
    apply Forall_app. split; [exact Hs|].
    eapply Forall_impl; [exact Hmore|]. simpl. intros p Hp.
    exists launch. split; [eapply slice_In; exact Hin|exact Hp].
Qed.

(** *** What is gathered *)







(** X13. Every pass [calculateFreshPredictions] returns is a prediction for
    a launch of the snapshot it read: it names a satellite the snapshot lists
    for that launch, whose element set is well formed, carries the name of
    that launch and the score [calculateTrainScore] gives it for that launch;
    with no launch in the snapshot the result is empty. *)
Theorem calculateFreshPredictions_provenance up location weights (w : World) found w' :
  calculateFreshPredictions up location weights w = (Ok found, w') ->
  exists launches satelliteMap w1,
    getLaunchAndSatelliteData up w = (Ok (launches, satelliteMap), w1) /\
    (launches = [] -> found = []) /\
    Forall (fun p => exists launch, In launch launches /\ predictedFor satelliteMap launch p)
      found.
Proof.
  unfold calculateFreshPredictions. intros H.
  apply bind_Ok in H. destruct H as ([launches satelliteMap] & w1 & Hd & H).
  exists launches, satelliteMap, w1. split; [exact Hd|].
  destruct (length launches =? 0)%nat eqn:L.
  - unfold ret in H. injection H as <- <-. auto.
  - apply bind_Ok in H. destruct H as (allPasses & w2 & Hb & H).
    unfold ret in H. injection H as <- <-.
    split; [intros ->; discriminate|].
    apply batchLoop_from in Hb; [|constructor].
    apply List.Forall_forall. intros p Hp.
    apply slice_In in Hp. apply (proj1 (sortBy_In score _ _)) in Hp.
    rewrite List.Forall_forall in Hb. auto.
Qed.


(** *** The score *)

Lemma calculateTwilightBonus_range (time : Z) :
  (0.1 <= calculateTwilightBonus time)%Q /\ (calculateTwilightBonus time <= 1)%Q.
Proof.
  unfold calculateTwilightBonus.
  repeat match goal with |- context [if ?b then _ else _] => destruct b end;
    split; apply Qle_bool_imp_le; reflexivity.
Qed.

Lemma deployScore_range (d : Z) :
  0 <= d ->
  (0 < 1 / (1 + inject_Z d / inject_Z (1000 * 60 * 60 * 24)))%Q /\
  (1 / (1 + inject_Z d / inject_Z (1000 * 60 * 60 * 24)) <= 1)%Q.
Proof.
  intros Hd.
  assert (H0 : (0 <= inject_Z d / inject_Z (1000 * 60 * 60 * 24))%Q).
  { apply Qle_shift_div_l; [reflexivity|].
    rewrite Qmult_0_l. change 0%Q with (inject_Z 0). rewrite <- Zle_Qle. exact Hd. }
  set (x := (inject_Z d / inject_Z (1000 * 60 * 60 * 24))%Q) in *.
  assert (H1 : (0 < 1 + x)%Q) by lra.
  split.
  - apply Qlt_shift_div_l; [exact H1|]. lra.
  - apply Qle_shift_div_r; [exact H1|]. lra.
Qed.

(** X15. For a launch whose date parses to an instant not after the peak,
    the score does not fall when a pass climbs higher and does not rise when
    its phase angle grows: of two passes with the same peak instant, the one
    with at least the peak elevation and at most the phase angle of the other
    scores at least as high for the same launch. *)
Theorem calculateTrainScore_monotone (p q : Pass) (launch : LaunchLite) (t : Z) :
  Date_parse (date_utc launch) = Some t ->
  t <= peak p ->
  peak p = peak q ->
  (maxElDeg p <= maxElDeg q)%Q ->
  (phaseAngleDeg q <= phaseAngleDeg p)%Q ->
  (calculateTrainScore p launch <= calculateTrainScore q launch)%Q.
Proof.
  intros _ _ Hpeak He Hp. unfold calculateTrainScore. cbn [w1 w2 w3 w4 DEFAULT_WEIGHTS].
  rewrite Hpeak.
  set (a := (0.45 * (1 / (1 + inject_Z (peak q - getTime (date_utc launch))
                                / inject_Z (1000 * 60 * 60 * 24))))%Q).
  set (d := (0.05 * calculateTwilightBonus (peak q))%Q).
  assert (E : forall x c, (x / inject_Z (Zpos c) == x * (1 # c))%Q)
    by (intros; unfold Qdiv; reflexivity).
  change 180%Q with (inject_Z 180). change 90%Q with (inject_Z 90).
  rewrite !E. clearbody a d. lra.
Qed.

(** X16. For a launch whose date parses to an instant not after the peak of
    the pass, a peak elevation between 0 and 90 degrees and a phase angle
    between 30 and 90 degrees, the score lies above 0.155 and is at most
    0.95. *)
Theorem calculateTrainScore_range (pass : Pass) (launch : LaunchLite) (t : Z) :
  Date_parse (date_utc launch) = Some t ->
  t <= peak pass ->
  (0 <= maxElDeg pass)%Q /\ (maxElDeg pass <= 90)%Q ->
  (30 <= phaseAngleDeg pass)%Q /\ (phaseAngleDeg pass <= 90)%Q ->
  (0.155 < calculateTrainScore pass launch)%Q /\
  (calculateTrainScore pass launch <= 0.95)%Q.
Proof.
  intros Hparse Ht [He1 He2] [Hp1 Hp2].
  unfold calculateTrainScore, getTime. rewrite Hparse.
  cbn [w1 w2 w3 w4 DEFAULT_WEIGHTS].
  destruct (deployScore_range (peak pass - t)) as [Ha1 Ha2]; [lia|].
  destruct (calculateTwilightBonus_range (peak pass)) as [Hd1 Hd2].
  set (a := (1 / (1 + inject_Z (peak pass - t) / inject_Z (1000 * 60 * 60 * 24)))%Q) in *.
  set (d := calculateTwilightBonus (peak pass)) in *.
  assert (E : forall x c, (x / inject_Z (Zpos c) == x * (1 # c))%Q)
    by (intros; unfold Qdiv; reflexivity).
  change 180%Q with (inject_Z 180). change 90%Q with (inject_Z 90).
  rewrite !E. clearbody a d.
  split; lra.
Qed.

(** *** The cache key *)

Lemma to_uint_nonnil (n : N) : N.to_uint n <> Decimal.Nil.
Proof.
  destruct n as [|p]; [discriminate|]. apply DecimalPos.Unsigned.to_uint_nonnil.
Qed.

Lemma showN_inj (n m : Z) : 0 <= n -> 0 <= m -> showN n = showN m -> n = m.
Proof.
  unfold showN. intros Hn Hm H.
  apply (f_equal NilZero.uint_of_string) in H.
  rewrite !NilZero.usu in H by apply to_uint_nonnil.
  injection H as H. apply DecimalN.Unsigned.to_uint_inj in H. lia.
Qed.

Lemma digits_of_uint (d : Decimal.uint) (c : Ascii.ascii) :
  In c (list_ascii_of_string (NilEmpty.string_of_uint d)) ->
  In c (list_ascii_of_string "0123456789").
Proof.
  induction d; simpl; intros H; try contradiction;
    (destruct H as [<-|H]; [simpl; tauto|exact (IHd H)]).
Qed.

Lemma showN_digits (n : Z) (c : Ascii.ascii) :
  In c (list_ascii_of_string (showN n)) -> In c (list_ascii_of_string "0123456789").
Proof.
  unfold showN, NilZero.string_of_uint.
  destruct (N.to_uint (Z.to_N n)) eqn:E; try (rewrite <- E; apply digits_of_uint).
  simpl. tauto.
Qed.

Lemma showN_nonempty (n : Z) :
  exists c s, showN n = String c s /\ In c (list_ascii_of_string "0123456789").
Proof.
  pose proof (showN_digits n) as H.
  destruct (showN n) as [|c s] eqn:E.
  - unfold showN, NilZero.string_of_uint in E.
    pose proof (to_uint_nonnil (Z.to_N n)) as Hn.
    destruct (N.to_uint (Z.to_N n)); discriminate.
  - exists c, s. split; [reflexivity|]. apply H. left. reflexivity.
Qed.

(** A string splits in one way at a character its first part is free of. *)
Lemma append_split (c : Ascii.ascii) (a1 a2 b1 b2 : string) :
  ~ In c (list_ascii_of_string a1) -> ~ In c (list_ascii_of_string a2) ->
  String.append a1 (String c b1) = String.append a2 (String c b2) ->
  a1 = a2 /\ b1 = b2.
Proof.
  revert a2. induction a1 as [|x a1 IH]; intros [|y a2]; simpl; intros H1 H2 E.
  - injection E as <-. auto.
  - injection E as <- _. tauto.
  - injection E as -> _. tauto.
  - injection E as <- E. destruct (IH a2) as [<- <-]; auto.
Qed.

Lemma append_digits (n m : Z) (r1 r2 : string) :
  0 <= n -> 0 <= m ->
  (r1 = "" \/ exists s, r1 = String "."%char s) ->
  (r2 = "" \/ exists s, r2 = String "."%char s) ->
  String.append (showN n) r1 = String.append (showN m) r2 ->
  n = m /\ r1 = r2.
Proof.
  intros Hn Hm H1 H2 E.
  assert (Hdot : forall k, ~ In "."%char (list_ascii_of_string (showN k))).
  { intros k Hk. apply showN_digits in Hk. simpl in Hk.
    repeat (destruct Hk as [Hk|Hk]; [discriminate|]). exact Hk. }
  assert (Hlen : forall a b : string,
            String.append a "" = String.append b "" -> a = b).
  { intros a. induction a as [|x a IH]; intros [|y b]; simpl; try discriminate; auto.
    intros [= <- E']. f_equal. auto. }
  assert (Hmix : forall k l s, String.append (showN k) "" <> String.append (showN l) (String "."%char s)).
  { intros k l s E'.
    apply (Hdot k).
    assert (In "."%char (list_ascii_of_string (String.append (showN k) ""))) as Hin.
    { rewrite E'. clear. induction (showN l); simpl; auto. }
    revert Hin. clear. induction (showN k); simpl; tauto. }
  destruct H1 as [->|[s1 ->]], H2 as [->|[s2 ->]].
  - apply Hlen in E. split; [apply showN_inj; assumption|reflexivity].
  - exfalso. eapply Hmix; eauto.
  - exfalso. symmetry in E. eapply Hmix; eauto.
  - apply append_split in E; [|apply Hdot|apply Hdot].
    destruct E as [E ->]. split; [apply showN_inj; assumption|reflexivity].
Qed.


Lemma chars_append (a b : string) (c : Ascii.ascii) :
  In c (list_ascii_of_string (String.append a b)) <->
  In c (list_ascii_of_string a) \/ In c (list_ascii_of_string b).
Proof.
  induction a as [|x a IH]; simpl; [tauto|]. rewrite IH. tauto.
Qed.

Lemma fraction_inj (f g : Z) :
  0 <= f < 100 -> 0 <= g < 100 ->
  (if f =? 0 then ""
   else String.append "."
          (if f mod 10 =? 0 then showN (f / 10)
           else if f <? 10 then String.append "0" (showN f)
           else showN f))
  = (if g =? 0 then ""
     else String.append "."
            (if g mod 10 =? 0 then showN (g / 10)
             else if g <? 10 then String.append "0" (showN g)
             else showN g)) ->
  f = g.
Proof.
  set (text := fun f : Z =>
         if f =? 0 then ""
         else String.append "."
                (if f mod 10 =? 0 then showN (f / 10)
                 else if f <? 10 then String.append "0" (showN f)
                 else showN f)).
  intros Hf Hg E. change (text f = text g) in E.
  set (range := map Z.of_nat (seq 0 100)).
  assert (Hall : forallb (fun a => forallb (fun b =>
                   implb (String.eqb (text a) (text b)) (a =? b)) range) range = true)
    by (vm_compute; reflexivity).
  assert (Hin : forall a, 0 <= a < 100 -> In a range).
  { intros a Ha. unfold range. apply in_map_iff. exists (Z.to_nat a).
    split; [lia|]. apply in_seq. lia. }
  rewrite forallb_forall in Hall. specialize (Hall f (Hin f Hf)).
  rewrite forallb_forall in Hall. specialize (Hall g (Hin g Hg)).
  apply String.eqb_eq in E. rewrite E in Hall. simpl in Hall.
  apply Z.eqb_eq. exact Hall.
Qed.

Lemma showHundredths_inj (h1 h2 : Z) :
  showHundredths h1 = showHundredths h2 -> h1 = h2.
Proof.
  unfold showHundredths.
  pose proof (Z.div_mod (Z.abs h1) 100 ltac:(lia)) as D1.
  pose proof (Z.div_mod (Z.abs h2) 100 ltac:(lia)) as D2.
  pose proof (Z.mod_pos_bound (Z.abs h1) 100 ltac:(lia)) as B1.
  pose proof (Z.mod_pos_bound (Z.abs h2) 100 ltac:(lia)) as B2.
  assert (W1 : 0 <= Z.abs h1 / 100) by (apply Z.div_pos; lia).
  assert (W2 : 0 <= Z.abs h2 / 100) by (apply Z.div_pos; lia).
  set (r1 := if Z.abs h1 mod 100 =? 0 then "" else _).
  set (r2 := if Z.abs h2 mod 100 =? 0 then "" else _).
  assert (S1 : r1 = "" \/ exists s, r1 = String "."%char s).
  { unfold r1. destruct (Z.abs h1 mod 100 =? 0); [auto|right; simpl; eauto]. }
  assert (S2 : r2 = "" \/ exists s, r2 = String "."%char s).
  { unfold r2. destruct (Z.abs h2 mod 100 =? 0); [auto|right; simpl; eauto]. }
  assert (Hsame : String.append (showN (Z.abs h1 / 100)) r1
                  = String.append (showN (Z.abs h2 / 100)) r2 -> Z.abs h1 = Z.abs h2).
  { intros E. apply append_digits in E; try assumption.
    destruct E as [Ew Er]. apply fraction_inj in Er; [lia|assumption|assumption]. }
  assert (Hmix : forall k r s, String "-"%char s <> String.append (showN k) r).
  { intros k r s E. destruct (showN_nonempty k) as (c & t & Ek & Hc).
    rewrite Ek in E. simpl in E. injection E as <- _. simpl in Hc.
    repeat (destruct Hc as [Hc|Hc]; [discriminate|]). exact Hc. }
  destruct (Z.ltb_spec h1 0), (Z.ltb_spec h2 0); simpl; intros E.
  - injection E as E. apply Hsame in E. lia.
  - exfalso. eapply Hmix; eauto.
  - exfalso. symmetry in E. eapply Hmix; eauto.
  - apply Hsame in E. lia.
Qed.

Lemma showHundredths_chars (h : Z) (c : Ascii.ascii) :
  In c (list_ascii_of_string (showHundredths h)) ->
  In c (list_ascii_of_string "-.0123456789").
Proof.
  assert (Hd : forall n, In c (list_ascii_of_string (showN n)) ->
                 In c (list_ascii_of_string "-.0123456789")).
  { intros n Hn. apply showN_digits in Hn. simpl in *. tauto. }
  unfold showHundredths. rewrite !chars_append. intros [H|[H|H]].
  - destruct (h <? 0); simpl in *; tauto.
  - eauto.
  - destruct (Z.abs h mod 100 =? 0); [contradiction|].
    rewrite chars_append in H. destruct H as [H|H]; [simpl in *; tauto|].
    destruct (Z.abs h mod 100 mod 10 =? 0); [eauto|].
    destruct (Z.abs h mod 100 <? 10); [|eauto].
    rewrite chars_append in H. destruct H as [H|H]; [simpl in *; tauto|eauto].
Qed.

(** X17. Two locations the route accepts get the same cache key exactly
    when their latitudes and their longitudes, times 100, round to the same
    integers: the key tells the hundredths of a degree apart, and nothing
    else. *)
Theorem generateLocationCacheKey_cell (l1 l2 : UserLocation) :
  isValidLocation l1 = true ->
  isValidLocation l2 = true ->
  (generateLocationCacheKey l1 = generateLocationCacheKey l2 <->
   Math_round (Number_times (lat l1) 100) = Math_round (Number_times (lat l2) 100) /\
   Math_round (Number_times (lon l1) 100) = Math_round (Number_times (lon l2) 100)).
Proof.
  intros _ _. unfold generateLocationCacheKey. cbv zeta. split.
  - intros E.
    change (String.append "," ?s) with (String ","%char s) in E.
    apply append_split in E.
    + destruct E as [E1 E2]. split; apply showHundredths_inj; assumption.
    + intros H. apply showHundredths_chars in H. simpl in H.
      repeat (destruct H as [H|H]; [discriminate|]). exact H.
    + intros H. apply showHundredths_chars in H. simpl in H.
      repeat (destruct H as [H|H]; [discriminate|]). exact H.
  - intros [-> ->]. reflexivity.
Qed.

(** *** The counters of the quality report *)

Lemma countSatellites_inner (sats : list StarlinkSat) :
  forall (total valid stale : nat) (w : World),
    exists stale' w',
      forEachM
        (fun sat '(totalSatellites, validSatellites, staleTles) =>
           if isValidTle (tle1 sat) (tle2 sat) then
             let! fresh := isTleFresh (epoch sat) in
             ret (totalSatellites, S validSatellites,
                  if negb fresh then S staleTles else staleTles)
           else ret (totalSatellites, validSatellites, staleTles))
        sats (total, valid, stale) w
      = (Ok (total,
             (valid + length (List.filter (fun sat => isValidTle (tle1 sat) (tle2 sat)) sats))%nat,
             stale'), w') /\
      (stale <= stale' <=
       stale + length (List.filter (fun sat => isValidTle (tle1 sat) (tle2 sat)) sats))%nat.
Proof.
  induction sats as [|sat0 sats IH]; intros total valid stale w.
  - exists stale, w. simpl. rewrite Nat.add_0_r. split; [reflexivity|lia].
  - cbn [forEachM List.filter]. unfold bind at 1.
    destruct (isValidTle (tle1 sat0) (tle2 sat0)).
    + unfold bind at 1.
      destruct (succeeds_isTleFresh (epoch sat0) w) as (fresh & w1 & ->).
      unfold ret at 1.
      destruct (IH total (S valid) (if negb fresh then S stale else stale) w1)
        as (stale' & w' & -> & Hs).
      exists stale', w'. cbn [length]. rewrite <- Nat.add_succ_comm.
      split; [reflexivity|].
      destruct fresh; simpl in Hs; lia.
    + unfold ret at 1. apply IH.
Qed.

(** X18. The loop that counts satellites for the quality report never
    throws; it counts every satellite of the snapshot, counts as valid those
    whose element set is well formed, fresh or not, and as stale no more than
    the valid ones. *)
Theorem countSatellites_counts (satelliteMap : list (string * list StarlinkSat))
    (w : World) :
  exists total valid stale w',
    countSatellites satelliteMap w = (Ok (total, valid, stale), w') /\
    total = list_sum (map (fun entry => length (snd entry)) satelliteMap) /\
    valid = list_sum
              (map (fun entry =>
                      length (List.filter (fun sat => isValidTle (tle1 sat) (tle2 sat))
                                (snd entry)))
                 satelliteMap) /\
    (stale <= valid <= total)%nat.
Proof.
  unfold countSatellites.
  assert (H : forall total valid stale (w0 : World),
            (stale <= valid <= total)%nat ->
            exists stale' w',
              forEachM
                (fun entry '(totalSatellites, validSatellites, staleTles) =>
                   forEachM
                     (fun sat '(totalSatellites, validSatellites, staleTles) =>
                        if isValidTle (tle1 sat) (tle2 sat) then
                          let! fresh := isTleFresh (epoch sat) in
                          ret (totalSatellites, S validSatellites,
                               if negb fresh then S staleTles else staleTles)
                        else ret (totalSatellites, validSatellites, staleTles))
                     (snd entry)
                     ((totalSatellites + length (snd entry))%nat, validSatellites, staleTles))
                satelliteMap (total, valid, stale) w0
              = (Ok ((total
                      + list_sum (map (fun entry => length (snd entry)) satelliteMap))%nat,
                     (valid
                      + list_sum
                          (map (fun entry =>
                                  length
                                    (List.filter
                                       (fun sat => isValidTle (tle1 sat) (tle2 sat))
                                       (snd entry)))
                             satelliteMap))%nat,
                     stale'), w') /\
              (stale' <= valid
                         + list_sum
                             (map (fun entry =>
                                     length
                                       (List.filter
                                          (fun sat => isValidTle (tle1 sat) (tle2 sat))
                                          (snd entry)))
                                satelliteMap))%nat).
  { induction satelliteMap as [|entry m IH]; intros total valid stale w0 Hle.
    - exists stale, w0. simpl. rewrite !Nat.add_0_r. split; [reflexivity|lia].
    - cbn [forEachM map].
      change (list_sum (?a :: ?l)) with (a + list_sum l)%nat.
      unfold bind at 1.
      destruct (countSatellites_inner (snd entry) (total + length (snd entry)) valid stale w0)
        as (stale1 & w1 & -> & Hs).
      pose proof (filter_length_le (fun sat => isValidTle (tle1 sat) (tle2 sat)) (snd entry))
        as Hf.
      destruct (IH (total + length (snd entry))%nat
                  (valid + length (List.filter (fun sat => isValidTle (tle1 sat) (tle2 sat))
                                     (snd entry)))%nat
                  stale1 w1) as (stale' & w' & -> & Hs'); [lia|].
      exists stale', w'. rewrite !Nat.add_assoc. split; [reflexivity|lia]. }
  destruct (H O O O w) as (stale' & w' & E & Hs); [lia|].
  eexists _, _, stale', w'. split; [exact E|]. simpl. split; [reflexivity|].
  split; [reflexivity|]. split; [exact Hs|].
  clear. induction satelliteMap as [|entry m IH]; cbn [map]; [simpl; lia|].
  change (list_sum (?a :: ?l)) with (a + list_sum l)%nat.
  pose proof (filter_length_le (fun sat => isValidTle (tle1 sat) (tle2 sat)) (snd entry)).
  lia.
Qed.

(** X19. [calculateSatellitePasses] throws exactly when the element set
    does not parse, then with the message that names the satellite and
    without reading the clock; a sample the propagator has no position for is
    skipped and never aborts the scan. *)
Theorem calculateSatellitePasses_throws_iff sat0 location launch boosterInfo0 (w : World) :
  (twoline2satrec (tle1 sat0) (tle2 sat0) = None <->
   exists e w', calculateSatellitePasses sat0 location launch boosterInfo0 w = (Throw e, w')) /\
  (twoline2satrec (tle1 sat0) (tle2 sat0) = None ->
   calculateSatellitePasses sat0 location launch boosterInfo0 w
   = (Throw (String.append "Failed to parse TLE for satellite " (sat_id sat0)), w)).
Proof.
  unfold calculateSatellitePasses.
  destruct (twoline2satrec (tle1 sat0) (tle2 sat0)) as [satrec|].
  - split; [|discriminate]. split; [discriminate|]. intros (e & w' & H). exfalso.
    revert H. unfold bind at 1, newDate at 1.
    match goal with
    | |- bind (scanLoop ?f ?a ?b ?c ?d ?o ?e1 ?t ?s) ?k ?w0 = _ -> _ =>
        unfold bind at 1;
        destruct (succeeds_scanLoop f a b c d o e1 t s w0) as (st & w1 & ->)
    end.
    destruct (inPass st); [|discriminate].
    destruct (passStart st) as [ps|]; [|discriminate].
    destruct (0 <? length (passPoints st))%nat; [|discriminate].
    unfold bind.
    destruct (succeeds_createPassFromPoints sat0 launch ps (passPoints st) boosterInfo0 w1)
      as (pass & w2 & ->).
    discriminate.
  - split; [|reflexivity]. split; [|reflexivity]. intros _. eexists _, _. reflexivity.
Qed.

(** *** What the quality report says *)

Lemma succeeds_countSatellites satelliteMap : succeeds (countSatellites satelliteMap).
Proof.
  unfold countSatellites. apply succeeds_forEachM. intros entry [[total valid] stale].
  apply succeeds_forEachM. intros sat0 [[total' valid'] stale'].
  destruct (isValidTle (tle1 sat0) (tle2 sat0)); [|returns].
  apply succeeds_bind; [apply succeeds_isTleFresh|intros; returns].
Qed.

(** The first stage of the report: the age of the newest launch. *)
Lemma launchAge_cases (launches : list LaunchLite) (w : World) :
  exists stage w',
    match launches with
    | [] =>
        ret (["No recent Starlink launches found"],
             ["Check back after the next Starlink launch"], 100 - 50)
    | newest :: _ =>
        let newestLaunch := Date_parse (date_utc newest) in
        let! now := newDate in
        match newestLaunch with
        | Some t =>
            let daysSinceNewest :=
              (inject_Z (now - t) / inject_Z (1000 * 60 * 60 * 24))%Q in
            if gtb daysSinceNewest 7
            then ret (["Most recent launch is over a week old"], [], 100 - 20)
            else if ltb daysSinceNewest 2
            then ret (["Very recent launch available"], [], 100 + 10)
            else ret ([], [], 100)
        | None => ret ([], [], 100)
        end
    end w = (Ok stage, w') /\
    ((launches = [] /\
      stage = (["No recent Starlink launches found"],
               ["Check back after the next Starlink launch"], 50)) \/
     (launches <> [] /\
      (stage = (["Most recent launch is over a week old"], [], 80) \/
       stage = (["Very recent launch available"], [], 110) \/
       stage = ([], [], 100)))).
Proof.
  destruct launches as [|newest rest].
  - eexists _, _. split; [reflexivity|]. left. auto.
  - cbv zeta. unfold bind, newDate.
    destruct (Date_parse (date_utc newest)) as [t|].
    + destruct (gtb _ 7); [|destruct (ltb _ 2)];
        (eexists _, _; split; [reflexivity|]; right; split; [discriminate|]; auto).
    + eexists _, _. split; [reflexivity|]. right. split; [discriminate|]. auto.
Qed.

(** Membership in a list of literals. *)
Ltac listed H :=
  repeat (destruct H as [H|H]; [first [discriminate H|reflexivity]|]);
  contradiction.

(** X20. When the snapshot can be had, the quality report names the
    missing launches exactly when the snapshot has none, "High latitude
    location" exactly above 60 degrees of latitude, north or south, and "Low
    latitude location" exactly below 30; and it is "excellent" only when it
    names neither missing launches, nor a newest launch over a week old, nor
    many satellites with invalid orbital data. *)
Theorem getPredictionQuality_factors up location (w : World) launches satelliteMap w1 :
  getLaunchAndSatelliteData up w = (Ok (launches, satelliteMap), w1) ->
  exists r w',
    getPredictionQuality up location w = (Ok r, w') /\
    (In "No recent Starlink launches found" (factors r) <-> launches = []) /\
    (In "High latitude location" (factors r) <-> (60 < Qabs (lat location))%Q) /\
    (In "Low latitude location" (factors r) <-> (Qabs (lat location) < 30)%Q) /\
    (quality r = excellent ->
     ~ In "No recent Starlink launches found" (factors r) /\
     ~ In "Most recent launch is over a week old" (factors r) /\
     ~ In "Many satellites have invalid orbital data" (factors r)).
Proof.
  intros H. unfold getPredictionQuality, tryCatch. unfold bind at 1. rewrite H.
  cbv beta iota. unfold bind at 1.
  destruct (launchAge_cases launches w1) as (stage & w2 & E & Hstage).
  cbv zeta in E. rewrite E. clear E.
  destruct stage as [[factors1 recommendations1] qualityScore1].
  cbv beta iota. unfold bind at 1.
  destruct (succeeds_countSatellites satelliteMap w2) as ([[total valid] stale] & w3 & ->).
  cbv beta iota. unfold ret.
  assert (Hlat : (gtb (Qabs (lat location)) 60 = true <-> (60 < Qabs (lat location))%Q) /\
                 (ltb (Qabs (lat location)) 30 = true <-> (Qabs (lat location) < 30)%Q) /\
                 (gtb (Qabs (lat location)) 60 = true ->
                  ltb (Qabs (lat location)) 30 = true -> False)).
  { split; [apply gtb_iff|]. split; [apply ltb_iff|].
    intros G L. apply gtb_iff in G. apply ltb_iff in L. lra. }
  destruct Hlat as (HG & HL & Hex).
  destruct (gtb (Qabs (lat location)) 60);
    destruct (ltb (Qabs (lat location)) 30);
    try (exfalso; apply Hex; reflexivity); clear Hex;
    destruct (0 <? total)%nat;
    try destruct (ltb _ 0.5);
    try destruct (valid =? 0)%nat;
    try destruct (gtb _ 0.3);
    destruct Hstage as [[-> [= -> -> ->]]|[Hne [[= -> -> ->]|[[= -> -> ->]|[= -> -> ->]]]]];
    cbn; eexists _, w3; (split; [reflexivity|]); cbn;
    ((split; [|split; [|split]]);
     [ split; [intros HIn; listed HIn|intros E; first [contradiction|auto 10]]
     | apply (iff_trans (B := _ = true)) with (2 := HG);
       split; [intros HIn; listed HIn|intros E; first [discriminate E|auto 10]]
     | apply (iff_trans (B := _ = true)) with (2 := HL);
       split; [intros HIn; listed HIn|intros E; first [discriminate E|auto 10]]
     | intros Hq; vm_compute in Hq;
       first [discriminate Hq|repeat split; intros HIn; listed HIn] ]).
Qed.

(** *** The darkness test *)

(** X21. The darkness test never looks at the observer's longitude: the
    hour angle is taken from the UTC hour alone, so two observers at the same
    latitude get the same sun elevation at every instant, and
    [isSatelliteVisible] answers the same for both. *)
Theorem calculateSunElevation_ignores_longitude (o1 o2 : GeodeticLocation) :
  latitude o1 = latitude o2 ->
  forall satelliteEci time elevation,
    calculateSunElevation o1 time = calculateSunElevation o2 time /\
    isSatelliteVisible satelliteEci o1 time elevation
    = isSatelliteVisible satelliteEci o2 time elevation.
Proof.
  intros Hlat satelliteEci time elevation.
  assert (E : calculateSunElevation o1 time = calculateSunElevation o2 time).
  { unfold calculateSunElevation. rewrite Hlat. reflexivity. }
  split; [exact E|]. unfold isSatelliteVisible. rewrite E. reflexivity.
Qed.

End EngineFacts.

(** * The scenario, run *)

Section ScenarioFacts.

Import Scenario.
#[local] Existing Instance Scenario.platform.

Lemma satelliteRun_eq :
  calculateSatellitePasses (sat "S1" "2023-11-14T12:00:00.000Z") sanFrancisco launch1 None
    newPredictionEngine = (Ok (passesOf satelliteRun), snd satelliteRun).
Proof. vm_compute. reflexivity. Qed.

Lemma launchRun_eq :
  calculatePasses upstream [sat "S1" "2023-11-14T12:00:00.000Z"] sanFrancisco launch1
    newPredictionEngine = (Ok (passesOf launchRun), snd launchRun).
Proof. vm_compute. reflexivity. Qed.

Lemma freshRun_eq :
  calculateFreshPredictions upstream sanFrancisco None newPredictionEngine
  = (Ok (passesOf freshRun), snd freshRun).
Proof. vm_compute. reflexivity. Qed.

Lemma firstCall_eq :
  getPredictions upstream sanFrancisco None newPredictionEngine
  = (Ok firstPasses, snd firstCall).
Proof. vm_compute. reflexivity. Qed.

Lemma clock_monotone (n m : nat) : (n <= m)%nat -> Date_now n <= Date_now m.
Proof. simpl. lia. Qed.

(** The launch of the examples is a day and a half old when the clock
    starts. *)
Lemma launch1_dated (w : World) : dated w launch1.
Proof.
  exists 1699833600000. split; [reflexivity|]. intros n _.
  change (Date_now n) with (t0 + 60000 * Z.of_nat n). unfold t0. lia.
Qed.

Example isValidTle_example : isValidTle line1 line2 = true.
Proof. reflexivity. Qed.

Example isValidTle_short_line :
  isValidTle "1 58000U 23170A   23318.50000000  .00001234  00000-0  12345-4 0  999" line2
  = false.
Proof. reflexivity. Qed.

Example isValidTle_swapped : isValidTle line2 line1 = false.
Proof. reflexivity. Qed.

Example cacheKey_example :
  generateLocationCacheKey sanFrancisco = "37.77,-122.42" /\
  generateLocationCacheKey (observer 37.7712 (-122.4157)) = "37.77,-122.42" /\
  generateLocationCacheKey quito = "-0.18,-78.47".
Proof. vm_compute. auto. Qed.

Example visible_at_dusk :
  isSatelliteVisible {| eci_x := -4000; eci_y := -5500; eci_z := 0 |}
    (observerOf sanFrancisco) t0 45 = true.
Proof. vm_compute. reflexivity. Qed.

Lemma isSatelliteVisible_iff_witness :
  (5 <= MIN_ELEVATION_DEG)%Q /\
  isSatelliteVisible {| eci_x := -4000; eci_y := -5500; eci_z := 0 |}
    (observerOf sanFrancisco) t0 5 = false.
Proof.
  assert (H : (5 <= MIN_ELEVATION_DEG)%Q) by (vm_compute; discriminate).
  split; [exact H|].
  exact (proj2 (proj2 (isSatelliteVisible_iff
                         {| eci_x := 0; eci_y := 0; eci_z := 0 |}
                         (observerOf quito) 0 5)) H
           {| eci_x := -4000; eci_y := -5500; eci_z := 0 |}
           (observerOf sanFrancisco) t0).
Defined.

Lemma calculateSatellitePasses_emits_witness :
  (3 <= length (passesOf satelliteRun))%nat /\
  exists satrec,
    twoline2satrec line1 line2 = Some satrec /\
    Forall (emitted satrec (observerOf sanFrancisco) t0 (t0 + 604800000))
      (passesOf satelliteRun).
Proof.
  split; [vm_compute; lia|].
  exact (proj1 (calculateSatellitePasses_emits
                  (sat "S1" "2023-11-14T12:00:00.000Z") sanFrancisco launch1 None
                  newPredictionEngine (passesOf satelliteRun) (snd satelliteRun)
                  satelliteRun_eq)).
Defined.

Lemma getPredictions_degrades_witness :
  getPredictions down sanFrancisco None muchLater
    = (Ok firstPasses,
       snd (calculateFreshPredictions down sanFrancisco None
              (tick (snd (initialize muchLater))))) /\
  getPredictions down oslo None newPredictionEngine
    = (Throw "SpaceX API error: 503", newPredictionEngine).
Proof.
  split.
  - refine (proj1 (getPredictions_degrades down sanFrancisco None muchLater)
              {| pc_location := sanFrancisco; pc_passes := firstPasses;
                 pc_timestamp := 1700000360000; pc_expiresAt := 1700001320000 |}
              "SpaceX API error: 503" _ _ _ _).
    + vm_compute. reflexivity.
    + vm_compute. discriminate.
    + vm_compute. reflexivity.
  - refine (proj1 (proj2 (getPredictions_degrades down oslo None newPredictionEngine))
              "SpaceX API error: 503" newPredictionEngine _ _).
    + vm_compute. reflexivity.
    + vm_compute. reflexivity.
Defined.

(** C4 as the specification words it fails: with no launch and an observer
    in San Francisco the quality is "fair". *)
Lemma zero_launches_not_poor :
  fst (getLaunchAndSatelliteData quiet newPredictionEngine) = Ok ([], []) /\
  exists r,
    fst (getPredictionQuality quiet sanFrancisco newPredictionEngine) = Ok r /\
    factors r = ["No recent Starlink launches found"] /\
    quality r = fair /\ quality r <> poor.
Proof.
  split; [reflexivity|].
  eexists. split; [vm_compute; reflexivity|].
  split; [reflexivity|]. split; [reflexivity|discriminate].
Qed.

Lemma getPredictionQuality_no_launches_witness :
  exists r,
    getPredictionQuality quiet quito newPredictionEngine
      = (Ok r, snd (getLaunchAndSatelliteData quiet newPredictionEngine)) /\
    In "No recent Starlink launches found" (factors r) /\
    quality r = poor.
Proof.
  refine (getPredictionQuality_no_launches quiet quito newPredictionEngine []
            (snd (getLaunchAndSatelliteData quiet newPredictionEngine)) _ _).
  - exists []. reflexivity.
  - reflexivity.
Defined.

Lemma weights_are_ignored_witness :
  Forall (fun p => score p = weightedScore DEFAULT_WEIGHTS p launch1) (passesOf launchRun).
Proof.
  exact (proj2 (proj2 (proj2
           (weights_are_ignored upstream sanFrancisco None
              (Some {| w1 := 0; w2 := 0; w3 := 1; w4 := 0 |}) newPredictionEngine)))
           [sat "S1" "2023-11-14T12:00:00.000Z"] launch1 (passesOf launchRun)
           (snd launchRun) launchRun_eq).
Defined.


Lemma getPredictions_idempotent_witness :
  getPredictions down (observer 37.7712 (-122.4157)) None (runOps meanwhile (snd firstCall))
  = (Ok firstPasses, tick (runOps meanwhile (snd firstCall))).
Proof.
  refine (getPredictions_idempotent upstream sanFrancisco None newPredictionEngine
            firstPasses (snd firstCall)
            {| pc_location := sanFrancisco; pc_passes := firstPasses;
               pc_timestamp := 1700000360000; pc_expiresAt := 1700001320000 |}
            meanwhile down (observer 37.7712 (-122.4157)) None
            clock_monotone _ firstCall_eq _ _ _).
  - vm_compute. reflexivity.
  - vm_compute. reflexivity.
  - reflexivity.
  - vm_compute. reflexivity.
Defined.

Lemma isTleFresh_spec_witness :
  fst (isTleFresh "2023-11-14T12:00:00.000Z" newPredictionEngine) = Ok true /\
  fst (isTleFresh "2023-11-01T00:00:00.000Z" newPredictionEngine) = Ok false /\
  fst (isTleFresh "yesterday" newPredictionEngine) = Ok false.
Proof.
  split; [|split].
  - destruct (isTleFresh_spec "2023-11-14T12:00:00.000Z" newPredictionEngine)
      as (b & w' & E & Hfresh & _).
    rewrite E. simpl. f_equal.
    apply (Hfresh 1699963200000); [discriminate|reflexivity|].
    vm_compute. discriminate.
  - destruct (isTleFresh_spec "2023-11-01T00:00:00.000Z" newPredictionEngine)
      as (b & w' & E & Hfresh & _).
    rewrite E. simpl. f_equal.
    destruct b; [|reflexivity].
    assert (H : Date_now (clockReads newPredictionEngine) - 1698796800000
                <= 48 * 60 * 60 * 1000).
    { apply (Hfresh 1698796800000); [discriminate|reflexivity|reflexivity]. }
    vm_compute in H. exfalso. apply H. reflexivity.
  - destruct (isTleFresh_spec "yesterday" newPredictionEngine)
      as (b & w' & E & _ & Hbad).
    rewrite E. simpl. f_equal. apply Hbad. right. reflexivity.
Defined.

Lemma getPredictionQuality_total_witness :
  getPredictionQuality down oslo newPredictionEngine
  = (Ok {| quality := poor;
           factors := ["Unable to assess prediction quality"];
           recommendations := ["Check your internet connection and try again"] |},
     newPredictionEngine).
Proof.
  refine (proj2 (getPredictionQuality_total down oslo newPredictionEngine)
            "SpaceX API error: 503" newPredictionEngine _).
  reflexivity.
Defined.

(** Witnesses of the further properties. *)

Lemma snapshot_is_shared_witness :
  getPredictionQuality down oslo (runOps meanwhile (snd firstCall))
  = getPredictionQuality upstream oslo (runOps meanwhile (snd firstCall)).
Proof.
  refine (proj2 (snapshot_is_shared firstSnapshot (snd firstCall) meanwhile
                   clock_monotone _ _ _) down upstream oslo).
  - vm_compute. reflexivity.
  - reflexivity.
  - vm_compute. reflexivity.
Defined.

Lemma getLaunchAndSatelliteData_refreshes_witness :
  exists satelliteMap w',
    getLaunchAndSatelliteData upstream newPredictionEngine
    = (Ok ([launch1], satelliteMap), w') /\
    Map_get "L1" satelliteMap = Some (provided upstream "L1").
Proof.
  destruct (getLaunchAndSatelliteData_refreshes upstream newPredictionEngine [launch1])
    as (satelliteMap & w' & c & n & E & _ & Hget & _).
  - intros c H. discriminate H.
  - reflexivity.
  - exists satelliteMap, w'. split; [exact E|].
    apply (Hget launch1). left. reflexivity.
Defined.

Lemma calculateFreshPredictions_throws_witness :
  exists w',
    calculateFreshPredictions down sanFrancisco None newPredictionEngine
    = (Throw "SpaceX API error: 503", w').
Proof.
  apply (proj2 (proj1 (calculateFreshPredictions_throws down sanFrancisco None
                         newPredictionEngine "SpaceX API error: 503"))).
  split.
  - intros c H. discriminate H.
  - reflexivity.
Defined.

Lemma calculateFreshPredictions_nothing_to_scan_witness :
  calculateFreshPredictions untracked sanFrancisco None newPredictionEngine
  = (Ok [], snd (getLaunchAndSatelliteData untracked newPredictionEngine)).
Proof.
  refine (calculateFreshPredictions_nothing_to_scan untracked sanFrancisco None
            newPredictionEngine [launch1]
            [("L1", [ {| sat_id := "S9"; sat_launch := "L1"; tle1 := ""; tle2 := "";
                         epoch := "2023-11-14T12:00:00.000Z" |} ])]
            _ _ _).
  - vm_compute. reflexivity.
  - intros launch [<-|[]]. vm_compute. repeat constructor.
Defined.

Lemma getPredictions_stores_witness :
  exists w',
    getPredictions upstream sanFrancisco None newPredictionEngine
    = (Ok (passesOf freshRun), w') /\
    exists c,
      predictionCache w' !! generateLocationCacheKey sanFrancisco = Some c /\
      pc_passes c = passesOf freshRun.
Proof.
  destruct (getPredictions_stores upstream sanFrancisco None newPredictionEngine
              (passesOf freshRun) (snd freshRun)) as (w' & E & _ & Hstored).
  - intros c H. vm_compute in H. discriminate H.
  - exact freshRun_eq.
  - exists w'. split; [exact E|].
    eexists. split; [apply Hstored; vm_compute; reflexivity|reflexivity].
Defined.

Lemma getPredictions_after_clearCache_witness :
  exists w',
    getPredictions down sanFrancisco None (snd (clearCache (snd firstCall)))
    = (Throw "SpaceX API error: 503", w').
Proof.
  destruct (getPredictions_after_clearCache down sanFrancisco None (snd firstCall))
    as (_ & _ & E).
  - reflexivity.
  - rewrite E. eexists. vm_compute. reflexivity.
Defined.

Lemma calculateSatellitePasses_chronological_witness :
  StronglySorted (fun a b => end_ a < start b) (passesOf satelliteRun) /\
  Forall
    (fun p =>
       t0 <= start p /\ start p < end_ p /\
       end_ p <= t0 + PREDICTION_DAYS * 24 * 60 * 60 * 1000 /\
       (end_ p - start p) mod (PREDICTION_STEP_SECONDS * 1000) = 0)
    (passesOf satelliteRun).
Proof.
  exact (calculateSatellitePasses_chronological _ _ _ _ _ _ _ satelliteRun_eq).
Defined.

Lemma calculateSatellitePasses_labels_witness :
  Forall
    (fun p =>
       satId p = "S1" /\ launchId p = "L1" /\
       launchName p = Some "Starlink Group 6-28" /\ boosterInfo p = None /\
       score p = 0%Q /\ (MIN_ELEVATION_DEG < maxElDeg p)%Q /\
       (30 <= phaseAngleDeg p)%Q /\ (phaseAngleDeg p <= 90)%Q)
    (passesOf satelliteRun).
Proof.
  refine (calculateSatellitePasses_labels _ _ _ _ _ _ _ _ satelliteRun_eq).
  intros n. split; [unfold Qle|unfold Qlt]; simpl; lia.
Defined.

Lemma calculateFreshPredictions_provenance_witness :
  exists launches satelliteMap w1,
    getLaunchAndSatelliteData upstream newPredictionEngine
    = (Ok (launches, satelliteMap), w1) /\
    (launches = [] -> passesOf freshRun = []) /\
    Forall (fun p => exists launch, In launch launches /\ predictedFor satelliteMap launch p)
      (passesOf freshRun).
Proof.
  exact (calculateFreshPredictions_provenance _ _ _ _ _ _ freshRun_eq).
Defined.


Lemma calculatePasses_sampled_witness :
  exists found w' valid wv,
    calculatePasses upstream [sat "S1" "2023-11-14T12:00:00.000Z"] sanFrancisco launch1
      newPredictionEngine = (Ok found, w') /\
    filterValidSatellites [sat "S1" "2023-11-14T12:00:00.000Z"] newPredictionEngine
    = (Ok valid, wv) /\
    StronglySorted (descending score) found.
Proof.
  destruct (calculatePasses_sampled upstream [sat "S1" "2023-11-14T12:00:00.000Z"]
              sanFrancisco launch1 newPredictionEngine)
    as (found & w' & valid & wv & boosterInfo0 & raw & H1 & H2 & _ & _ & H3 & _).
  - apply launch1_dated.
  - exists found, w', valid, wv. auto.
Defined.

Lemma calculateTrainScore_monotone_witness :
  (calculateTrainScore (passAt 20) launch1 <= calculateTrainScore (passAt 45) launch1)%Q.
Proof.
  refine (calculateTrainScore_monotone (passAt 20) (passAt 45) launch1 1699833600000
            eq_refl _ eq_refl _ _).
  - vm_compute. intros H. discriminate H.
  - vm_compute. intros H. discriminate H.
  - vm_compute. intros H. discriminate H.
Defined.

Lemma calculateTrainScore_range_witness :
  (0.155 < calculateTrainScore (passAt 45) launch1)%Q /\
  (calculateTrainScore (passAt 45) launch1 <= 0.95)%Q.
Proof.
  refine (calculateTrainScore_range (passAt 45) launch1 1699833600000 eq_refl _ _ _).
  - vm_compute. intros H. discriminate H.
  - split; vm_compute; intros H; discriminate H.
  - split; vm_compute; intros H; discriminate H.
Defined.

Lemma generateLocationCacheKey_cell_witness :
  Math_round (Number_times (lat sanFrancisco) 100)
  = Math_round (Number_times (lat (observer 37.7712 (-122.4157))) 100) /\
  Math_round (Number_times (lon sanFrancisco) 100)
  = Math_round (Number_times (lon (observer 37.7712 (-122.4157))) 100).
Proof.
  apply (proj1 (generateLocationCacheKey_cell sanFrancisco (observer 37.7712 (-122.4157))
                  eq_refl eq_refl)).
  vm_compute. reflexivity.
Defined.

Lemma calculateSatellitePasses_throws_iff_witness :
  calculateSatellitePasses
    {| sat_id := "S7"; sat_launch := "L1"; tle1 := line1; tle2 := line1;
       epoch := "2023-11-14T12:00:00.000Z" |}
    sanFrancisco launch1 None newPredictionEngine
  = (Throw "Failed to parse TLE for satellite S7", newPredictionEngine).
Proof.
  apply (proj2 (calculateSatellitePasses_throws_iff
                  {| sat_id := "S7"; sat_launch := "L1"; tle1 := line1; tle2 := line1;
                     epoch := "2023-11-14T12:00:00.000Z" |}
                  sanFrancisco launch1 None newPredictionEngine)).
  reflexivity.
Defined.

Lemma getPredictionQuality_factors_witness :
  exists r w',
    getPredictionQuality upstream oslo newPredictionEngine = (Ok r, w') /\
    (In "No recent Starlink launches found" (factors r) <-> [launch1] = []) /\
    (In "High latitude location" (factors r) <-> (60 < Qabs (lat oslo))%Q) /\
    (In "Low latitude location" (factors r) <-> (Qabs (lat oslo) < 30)%Q) /\
    (quality r = excellent ->
     ~ In "No recent Starlink launches found" (factors r) /\
     ~ In "Most recent launch is over a week old" (factors r) /\
     ~ In "Many satellites have invalid orbital data" (factors r)).
Proof.
  eapply (getPredictionQuality_factors upstream oslo newPredictionEngine [launch1]).
  vm_compute. reflexivity.
Defined.

Lemma calculateSunElevation_ignores_longitude_witness :
  calculateSunElevation (observerOf sanFrancisco) t0
  = calculateSunElevation (observerOf (observer 37.7749 10.75)) t0.
Proof.
  exact (proj1 (calculateSunElevation_ignores_longitude
                  (observerOf sanFrancisco) (observerOf (observer 37.7749 10.75))
                  eq_refl {| eci_x := 0; eci_y := 0; eci_z := 0 |} t0 20)).
Defined.

End ScenarioFacts.
